(** * timsconvert: acquisition normalisation and streaming serialisation

    A shallow embedding of [timsconvert/parse.py] and [timsconvert/write.py].

    Conventions of the embedding:
    - a Python [dict] with string keys is a [gmap string pyval];
    - a numpy array of numbers is a [list Q]: floating point values are
      idealised as exact rationals, and NaN is a separate value ([NaN]);
    - a Python exception is the [Raise] branch of the [result] monad;
    - the vendor SDK (pyTDFSDK) and the mzML sink (psims) are not part of the
      repository: the SDK entry points are fields of [TdfData], the sink is a
      log of the calls it receives. *)

From Stdlib Require Import QArith Qround Lqa.
From stdpp Require Import gmap strings list sorting pretty.

Open Scope Z_scope.

(** ** Exceptions and the error monad *)

Inductive exn :=
| AttributeError | IndexError | KeyError
| TypeError | UnboundLocalError | ValueError.

Inductive result (A : Type) :=
| Ok (a : A)
| Raise (e : exn).
Arguments Ok {A} a.
Arguments Raise {A} e.

Global Instance result_ret : MRet result := λ A a, Ok a.
Global Instance result_bind : MBind result := λ A B f m,
  match m with
  | Ok a => f a
  | Raise e => Raise e
  end.

Definition raises {A} (m : result A) : Prop := ∃ e, m = Raise e.

(** ** Python values stored in a scan dictionary *)

Inductive pyfloat :=
| NaN
| Fl (q : Q).

Inductive pyval :=
| VNone
| VBool (b : bool)
| VInt (z : Z)
| VFloat (x : pyfloat)
| VStr (s : string)
| VArr (a : list Q).

Abbreviation ScanDict := (gmap string pyval).

(** [d[k]] *)
Definition getitem (d : ScanDict) (k : string) : result pyval :=
  match d !! k with
  | Some v => Ok v
  | None => Raise KeyError
  end.

(** [int(x)] on a float truncates towards zero. *)
Definition int_of_Q (q : Q) : Z := Z.quot (Qnum q) (Z.pos (Qden q)).

(** [x[0]] on a sequence. *)
Definition first {A} (l : list A) : result A :=
  match l with
  | x :: _ => Ok x
  | [] => Raise IndexError
  end.

(** [range(a, b)] over naturals. *)
Definition range (a b : nat) : list nat := seq a (b - a).

(** A numpy array that may be [None]: [a.size]. *)
Definition size (a : option (list Q)) : result nat :=
  match a with
  | Some l => Ok (length l)
  | None => Raise AttributeError
  end.

(** ** parse.py: mode flags *)

(** [get_encoding_dtype] only selects the width of the floating point type;
    it is kept to record that other encodings yield [None]. *)
Definition get_encoding_dtype (encoding : Z) : option Z :=
  if decide (encoding = 32) then Some 32
  else if decide (encoding = 64) then Some 64
  else None.

(** [exclude_mobility] is [bool | None]; its truth value. *)
Definition truthy (b : option bool) : bool :=
  match b with
  | Some true => true
  | _ => false
  end.

Definition get_centroid_status (mode : string) (exclude_mobility : option bool)
  : result (bool * option bool) :=
  if decide (mode = "profile") then Ok (false, Some true)
  else if decide (mode = "centroid" ∨ mode = "raw") then Ok (true, exclude_mobility)
  else Raise UnboundLocalError.

(** ** parse.py: the scan dictionary *)

Definition init_scan_dict : ScanDict :=
  <["ms2_no_precursor" := VBool false]>
  (list_to_map ((λ k, (k, VNone)) <$>
    ["scan_number"; "scan_type"; "ms_level"; "mz_array"; "intensity_array";
     "mobility_array"; "polarity"; "centroided"; "retention_time"; "coord";
     "total_ion_current"; "base_peak_mz"; "base_peak_intensity"; "high_mz";
     "low_mz"; "target_mz"; "isolation_lower_offset"; "isolation_upper_offset";
     "selected_ion_mz"; "selected_ion_intensity"; "selected_ion_mobility";
     "selected_ion_ccs"; "charge_state"; "collision_energy"; "frame";
     "parent_frame"; "parent_scan"])).

(** *** numpy reductions used on the arrays *)

(** Python's builtin [sum]: a left fold from 0. *)
Definition py_sum (l : list Q) : Q := fold_left Qplus l 0%Q.

Definition Qmaxb (a b : Q) : Q := if Qle_bool a b then b else a.
Definition Qminb (a b : Q) : Q := if Qle_bool a b then a else b.

(** [np.max] / builtin [max] and [min]; an empty array raises [ValueError]. *)
Definition np_max (l : list Q) : result Q :=
  match l with
  | [] => Raise ValueError
  | x :: l' => Ok (fold_left Qmaxb l' x)
  end.

Definition np_min (l : list Q) : result Q :=
  match l with
  | [] => Raise ValueError
  | x :: l' => Ok (fold_left Qminb l' x)
  end.

(** [np.where(a == v)[0]]: the indices at which [a] equals [v], ascending. *)
Fixpoint np_where_eq_from (i : nat) (a : list Q) (v : Q) : list nat :=
  match a with
  | [] => []
  | x :: a' =>
      if Qeq_bool x v then i :: np_where_eq_from (S i) a' v
      else np_where_eq_from (S i) a' v
  end.

Definition np_where_eq (a : list Q) (v : Q) : list nat := np_where_eq_from 0 a v.

(** [a[idx]] with an index array: any index out of bounds raises. *)
Definition take_indices (a : list Q) (idx : list nat) : result (list Q) :=
  mapM (λ i, match a !! i with Some x => Ok x | None => Raise IndexError end) idx.

(** ** The metadata provider

    Rows of the tables of [analysis.tdf], as [to_dict(orient='records')]
    returns them, with the columns the parser reads. *)

Record FramesRow := {
  fr_Id : Z; fr_MsMsType : Z; fr_ScanMode : Z; fr_NumScans : nat;
  fr_Polarity : string; fr_Time : Q }.

Record PrecursorsRow := {
  pr_Id : Z; pr_Parent : Z; pr_ScanNumber : Q; pr_AverageMz : Q;
  pr_LargestPeakMz : Q; pr_MonoisotopicMz : pyfloat; pr_Intensity : Q;
  pr_Charge : pyfloat }.

Record PasefFrameMsMsInfoRow := {
  pf_Frame : Z; pf_ScanNumBegin : nat; pf_ScanNumEnd : nat;
  pf_IsolationWidth : Q; pf_CollisionEnergy : Q; pf_Precursor : Z }.

Record DiaFrameMsMsInfoRow := { di_Frame : Z; di_WindowGroup : Z }.

Record DiaFrameMsMsWindowsRow := {
  dw_WindowGroup : Z; dw_ScanNumBegin : nat; dw_ScanNumEnd : nat;
  dw_IsolationMz : Q; dw_IsolationWidth : Q; dw_CollisionEnergy : Q }.

Record FrameMsMsInfoRow := {
  fm_Frame : Z; fm_Parent : Z; fm_TriggerMass : Q; fm_IsolationWidth : Q;
  fm_PrecursorCharge : pyfloat; fm_CollisionEnergy : Q }.

Record PrmFrameMsMsInfoRow := {
  pm_Frame : Z; pm_Target : Z; pm_ScanNumBegin : nat; pm_ScanNumEnd : nat;
  pm_IsolationMz : Q; pm_IsolationWidth : Q; pm_CollisionEnergy : Q }.

Record PrmTargetsRow := { pt_Id : Z; pt_OneOverK0 : Q; pt_Charge : pyfloat }.

(** The [TimsconvertTdfData] object: the tables of [analysis], the views
    [frames], [precursors] and [ms1_frames] the writer reads (kept as fields
    of their own, since [timsconvert/classes.py] decides how they are filled),
    and the SDK entry points reached through [api] and [handle]. *)
Record TdfData := {
  Frames : list FramesRow;
  Precursors : list PrecursorsRow;
  PasefFrameMsMsInfo : list PasefFrameMsMsInfoRow;
  DiaFrameMsMsInfo : list DiaFrameMsMsInfoRow;
  DiaFrameMsMsWindows : list DiaFrameMsMsWindowsRow;
  FrameMsMsInfo : list FrameMsMsInfoRow;
  PrmFrameMsMsInfo : list PrmFrameMsMsInfoRow;
  PrmTargets : list PrmTargetsRow;
  MzAcqRangeLower : Q;
  MzAcqRangeUpper : Q;
  frames : list FramesRow;
  precursors : list PrecursorsRow;
  ms1_frames : list Z;
  (* tims_read_scans_v2(frame, scan_begin, scan_end): per scan, the index
     array and the intensity array *)
  tims_read_scans_v2 : Z → nat → nat → list (list Q * list Q);
  (* tims_index_to_mz(frame, indices) *)
  tims_index_to_mz : Z → list Q → list Q;
  (* tims_scannum_to_oneoverk0(frame, [scan])[0] *)
  tims_scannum_to_oneoverk0 : Z → Z → Q;
  (* tims_oneoverk0_to_ccs_for_mz(ook0, charge, mz) *)
  tims_oneoverk0_to_ccs_for_mz : Q → Z → Q → Q;
  (* tims_extract_profile_for_frame(frame, scan_begin, scan_end) *)
  tims_extract_profile_for_frame : Z → nat → nat → list Q * list Q;
  (* tims_extract_centroided_spectrum_for_frame_v2(frame, scan_begin, scan_end) *)
  tims_extract_centroided_spectrum_for_frame_v2 : Z → nat → nat → list Q * list Q }.

(** [MSMS_TYPE_CATEGORY] of [timsconvert/constants.py]: the two lists are
    parameters of the parser. *)
Record MsMsTypeCategory := { cat_ms1 : list Z; cat_ms2 : list Z }.

(** [table[table[col] == key].to_dict(orient='records')]. *)
Definition rows_where {R} (col : R → Z) (key : Z) (table : list R) : list R :=
  filter (λ r, col r = key) table.

(** ** parse.py: populating a scan dictionary *)

Definition populate_scan_dict_w_spectrum_data
    (scan_dict : ScanDict) (mz_array intensity_array : list Q) : result ScanDict :=
  let scan_dict := <["mz_array" := VArr mz_array]> scan_dict in
  let scan_dict := <["intensity_array" := VArr intensity_array]> scan_dict in
  let scan_dict := <["total_ion_current" := VFloat (Fl (py_sum intensity_array))]> scan_dict in
  m ← np_max intensity_array;
  let base_peak_index := np_where_eq intensity_array m in
  bp_mz ← take_indices mz_array base_peak_index ≫= first;
  let scan_dict := <["base_peak_mz" := VFloat (Fl bp_mz)]> scan_dict in
  bp_int ← take_indices intensity_array base_peak_index ≫= first;
  let scan_dict := <["base_peak_intensity" := VFloat (Fl bp_int)]> scan_dict in
  hi ← np_max mz_array;
  let scan_dict := <["high_mz" := VFloat (Fl hi)]> scan_dict in
  lo ← np_min mz_array;
  let scan_dict := <["low_mz" := VFloat (Fl lo)]> scan_dict in
  Ok scan_dict.

Definition populate_scan_dict_w_ms1 (scan_dict : ScanDict) (frame : Z) : ScanDict :=
  <["frame" := VInt frame]>
    (<["ms_level" := VInt 1]> (<["scan_type" := VStr "MS1 spectrum"]> scan_dict)).

(** [populate_scan_dict_w_bbcid_iscid_ms2] for the schema ['TDF'], where the
    collision energy is read from [framemsmsinfo_dict]. *)
Definition populate_scan_dict_w_bbcid_iscid_ms2
    (scan_dict : ScanDict) (frame : Z) (framemsmsinfo_dict : FrameMsMsInfoRow) : ScanDict :=
  <["ms2_no_precursor" := VBool true]>
    (<["frame" := VInt frame]>
      (<["collision_energy" := VFloat (Fl (fm_CollisionEnergy framemsmsinfo_dict))]>
        (<["ms_level" := VInt 2]> (<["scan_type" := VStr "MSn spectrum"]> scan_dict)))).

Definition populate_scan_dict_w_lcms_tsf_tdf_metadata
    (scan_dict : ScanDict) (frames_dict : FramesRow) (mode : string)
    (exclude_mobility : option bool) : result ScanDict :=
  let scan_dict := <["polarity" := VStr (fr_Polarity frames_dict)]> scan_dict in
  '(centroided, _) ← get_centroid_status mode exclude_mobility;
  let scan_dict := <["centroided" := VBool centroided]> scan_dict in
  Ok (<["retention_time" := VFloat (Fl (fr_Time frames_dict / 60))]> scan_dict).

Definition is_nan (x : pyfloat) : bool :=
  match x with NaN => true | Fl _ => false end.

(** [int(x)]: raises [ValueError] on NaN. *)
Definition py_int (x : pyfloat) : result Z :=
  match x with NaN => Raise ValueError | Fl q => Ok (int_of_Q q) end.

Definition populate_scan_dict_w_ddapasef_ms2
    (scan_dict : ScanDict) (tdf_data : TdfData) (precursor_dict : PrecursorsRow)
    (pasefframemsmsinfo_dicts : list PasefFrameMsMsInfoRow) : result ScanDict :=
  let scan_dict := <["scan_type" := VStr "MSn spectrum"]> scan_dict in
  let scan_dict := <["ms_level" := VInt 2]> scan_dict in
  let scan_dict := <["target_mz" := VFloat (Fl (pr_AverageMz precursor_dict))]> scan_dict in
  p0 ← first pasefframemsmsinfo_dicts;
  let scan_dict := <["isolation_lower_offset" := VFloat (Fl (pf_IsolationWidth p0 / 2))]> scan_dict in
  let scan_dict := <["isolation_upper_offset" := VFloat (Fl (pf_IsolationWidth p0 / 2))]> scan_dict in
  let scan_dict := <["selected_ion_mz" := VFloat (Fl (pr_LargestPeakMz precursor_dict))]> scan_dict in
  let scan_dict := <["selected_ion_intensity" := VFloat (Fl (pr_Intensity precursor_dict))]> scan_dict in
  let mobility := tims_scannum_to_oneoverk0 tdf_data (pr_Parent precursor_dict)
                    (int_of_Q (pr_ScanNumber precursor_dict)) in
  let scan_dict := <["selected_ion_mobility" := VFloat (Fl mobility)]> scan_dict in
  let scan_dict := <["charge_state" := VFloat (pr_Charge precursor_dict)]> scan_dict in
  let scan_dict := <["collision_energy" := VFloat (Fl (pf_CollisionEnergy p0))]> scan_dict in
  let scan_dict := <["parent_frame" := VInt (pr_Parent precursor_dict)]> scan_dict in
  let scan_dict := <["parent_scan" := VInt (int_of_Q (pr_ScanNumber precursor_dict))]> scan_dict in
  if negb (is_nan (pr_Charge precursor_dict)) then
    charge ← py_int (pr_Charge precursor_dict);
    Ok (<["selected_ion_ccs" :=
            VFloat (Fl (tims_oneoverk0_to_ccs_for_mz tdf_data mobility charge
                          (pr_LargestPeakMz precursor_dict)))]> scan_dict)
  else Ok scan_dict.

Definition populate_scan_dict_w_diapasef_ms2
    (scan_dict : ScanDict) (diaframemsmswindows_dict : DiaFrameMsMsWindowsRow) : ScanDict :=
  let w := diaframemsmswindows_dict in
  <["collision_energy" := VFloat (Fl (dw_CollisionEnergy w))]>
    (<["selected_ion_mz" := VFloat (Fl (dw_IsolationMz w))]>
      (<["isolation_upper_offset" := VFloat (Fl (dw_IsolationWidth w / 2))]>
        (<["isolation_lower_offset" := VFloat (Fl (dw_IsolationWidth w / 2))]>
          (<["target_mz" := VFloat (Fl (dw_IsolationMz w))]>
            (<["ms_level" := VInt 2]> (<["scan_type" := VStr "MSn spectrum"]> scan_dict)))))).

Definition populate_scan_dict_w_prmpasef_ms2
    (tdf_data : TdfData) (scan_dict : ScanDict)
    (prmframemsmsinfo_dict : PrmFrameMsMsInfoRow) (prmtargets_dict : PrmTargetsRow)
  : result ScanDict :=
  let scan_dict := <["scan_type" := VStr "MSn spectrum"]> scan_dict in
  let scan_dict := <["ms_level" := VInt 2]> scan_dict in
  let scan_dict := <["target_mz" := VFloat (Fl (pm_IsolationMz prmframemsmsinfo_dict))]> scan_dict in
  let scan_dict := <["isolation_lower_offset" :=
                       VFloat (Fl (pm_IsolationWidth prmframemsmsinfo_dict / 2))]> scan_dict in
  let scan_dict := <["isolation_upper_offset" :=
                       VFloat (Fl (pm_IsolationWidth prmframemsmsinfo_dict / 2))]> scan_dict in
  let scan_dict := <["selected_ion_mz" := VFloat (Fl (pm_IsolationMz prmframemsmsinfo_dict))]> scan_dict in
  let mobility := pt_OneOverK0 prmtargets_dict in
  let scan_dict := <["selected_ion_mobility" := VFloat (Fl mobility)]> scan_dict in
  let scan_dict := <["charge_state" := VFloat (pt_Charge prmtargets_dict)]> scan_dict in
  let scan_dict := <["collision_energy" :=
                       VFloat (Fl (pm_CollisionEnergy prmframemsmsinfo_dict))]> scan_dict in
  if negb (is_nan (pt_Charge prmtargets_dict)) then
    charge ← py_int (pt_Charge prmtargets_dict);
    Ok (<["selected_ion_ccs" :=
            VFloat (Fl (tims_oneoverk0_to_ccs_for_mz tdf_data mobility charge
                          (pm_IsolationMz prmframemsmsinfo_dict)))]> scan_dict)
  else Ok scan_dict.

Definition populate_scan_dict_w_tsf_ms2
    (scan_dict : ScanDict) (framemsmsinfo_dict : FrameMsMsInfoRow) (lcms : bool) : ScanDict :=
  let f := framemsmsinfo_dict in
  let scan_dict :=
    <["collision_energy" := VFloat (Fl (fm_CollisionEnergy f))]>
      (<["charge_state" := VFloat (fm_PrecursorCharge f)]>
        (<["selected_ion_mz" := VFloat (Fl (fm_TriggerMass f))]>
          (<["isolation_upper_offset" := VFloat (Fl (fm_IsolationWidth f / 2))]>
            (<["isolation_lower_offset" := VFloat (Fl (fm_IsolationWidth f / 2))]>
              (<["target_mz" := VFloat (Fl (fm_TriggerMass f))]>
                (<["ms_level" := VInt 2]> (<["scan_type" := VStr "MSn spectrum"]> scan_dict))))))) in
  if lcms then <["parent_frame" := VInt (fm_Parent f)]> scan_dict else scan_dict.

(** ** numpy helpers of the binner and of the sub-scan merge *)

Definition last_item {A} (l : list A) : result A :=
  match last l with
  | Some x => Ok x
  | None => Raise IndexError
  end.

(** [np.linspace(lo, hi, num)]: [num] evenly spaced values, the last one set
    to [hi]; a negative [num] raises. *)
Definition np_linspace (lo hi : Q) (num : Z) : result (list Q) :=
  if decide (num < 0) then Raise ValueError
  else if decide (num = 0) then Ok []
  else if decide (num = 1) then Ok [lo]
  else
    let step := ((hi - lo) / inject_Z (num - 1))%Q in
    Ok (((λ i : nat, lo + inject_Z (Z.of_nat i) * step)%Q <$> seq 0 (Z.to_nat (num - 1)))
          ++ [hi]).

(** [np.arange(lo, hi, step)] for a positive step. *)
Definition np_arange (lo hi step : Q) : list Q :=
  (λ i : nat, lo + inject_Z (Z.of_nat i) * step)%Q
    <$> seq 0 (Z.to_nat (Qceiling ((hi - lo) / step))).

Fixpoint nondecreasing (l : list Q) : bool :=
  match l with
  | x :: (y :: _) as l' => Qle_bool x y && nondecreasing l'
  | _ => true
  end.

Fixpoint nonincreasing (l : list Q) : bool :=
  match l with
  | x :: (y :: _) as l' => Qle_bool y x && nonincreasing l'
  | _ => true
  end.

Definition Qlt_bool (x y : Q) : bool := negb (Qle_bool y x).

Definition count_le (bins : list Q) (x : Q) : nat :=
  length (List.filter (λ b, Qle_bool b x) bins).

Definition count_lt (bins : list Q) (x : Q) : nat :=
  length (List.filter (λ b, Qlt_bool b x) bins).

(** [np.digitize(xs, bins)] with [right=False]: for increasing bins the index
    [i] with [bins[i-1] <= x < bins[i]], that is the number of edges at or
    below [x]; decreasing bins are searched from the other end; bins that are
    not monotonic raise. *)
Definition np_digitize (xs bins : list Q) : result (list nat) :=
  if nondecreasing bins then Ok (count_le bins <$> xs)
  else if nonincreasing bins then Ok ((λ x, length bins - count_lt bins x)%nat <$> xs)
  else Raise ValueError.

(** Removal of adjacent duplicates, the second half of [np.unique]. *)
Fixpoint dedup_adjacent {A} (eqb : A → A → bool) (l : list A) : list A :=
  match l with
  | [] => []
  | x :: l' =>
      match l' with
      | y :: _ => if eqb x y then dedup_adjacent eqb l' else x :: dedup_adjacent eqb l'
      | [] => [x]
      end
  end.

Fixpoint index_of (k : nat) (u : list nat) : nat :=
  match u with
  | [] => 0
  | x :: u' => if Nat.eqb x k then 0 else S (index_of k u')
  end.

(** [np.unique(a, return_inverse=True)] on an array of bin numbers. *)
Definition np_unique_inverse (a : list nat) : list nat * list nat :=
  let unique_indices := dedup_adjacent Nat.eqb (merge_sort Nat.le a) in
  (unique_indices, (λ k, index_of k unique_indices) <$> a).

(** [np.bincount(x)] and [np.bincount(x, weights=w)]: an array of
    [max(x) + 1] cells, cell [i] accumulating over the positions where
    [x == i]; weights of another length raise. *)
Definition bincount_len (x : list nat) : nat :=
  match x with
  | [] => 0
  | _ => S (max_list x)
  end.

Definition np_bincount (x : list nat) : list nat :=
  fold_left (λ acc i, alter S i acc) x (replicate (bincount_len x) 0%nat).

Definition np_bincount_w (x : list nat) (w : list Q) : result (list Q) :=
  if decide (length x = length w) then
    Ok (fold_left (λ acc iw, alter (λ s, s + iw.2)%Q iw.1 acc) (zip x w)
          (replicate (bincount_len x) 0%Q))
  else Raise ValueError.

(** [np.place(counts, counts < 1, [1])]. *)
Definition np_place_lt1 (counts : list nat) : list nat :=
  (λ c, if (c <? 1)%nat then 1%nat else c) <$> counts.

Definition np_divide (a : list Q) (counts : list nat) : list Q :=
  zip_with (λ s c, s / inject_Z (Z.of_nat c))%Q a counts.

(** ** parse.py: the binner *)

Definition bin_profile_spectrum
    (mz_array intensity_array : list Q) (profile_bins : Z) (encoding : Z)
  : result (list Q * list Q) :=
  mz_acq_range_lower ← first mz_array;
  mz_acq_range_upper ← last_item mz_array;
  bins ← np_linspace mz_acq_range_lower mz_acq_range_upper profile_bins;
  digitized ← np_digitize mz_array bins;
  let '(unique_indices, inverse_indices) := np_unique_inverse digitized in
  let bin_counts := np_place_lt1 (np_bincount inverse_indices) in
  mz_sums ← np_bincount_w inverse_indices mz_array;
  let mz_array := np_divide mz_sums bin_counts in
  intensity_array ← np_bincount_w inverse_indices intensity_array;
  Ok (mz_array, intensity_array).

(** ** Rows of a stacked array and [np.unique(..., axis=0)] *)

(** [np.stack(cols, axis=-1)]: the columns must have one length. *)
Definition np_stack (cols : list (list Q)) : result (list (list Q)) :=
  match cols with
  | [] => Raise ValueError
  | c0 :: _ =>
      if forallb (λ c, Nat.eqb (length c) (length c0)) cols
      then Ok ((λ i, (λ c, nth i c 0%Q) <$> cols) <$> seq 0 (length c0))
      else Raise ValueError
  end.

(** [a[:, k]] *)
Definition column (k : nat) (rows : list (list Q)) : list Q :=
  (λ r, nth k r 0%Q) <$> rows.

(** Lexicographic comparison of two rows. *)
Fixpoint row_compare (r1 r2 : list Q) : comparison :=
  match r1, r2 with
  | [], [] => Eq
  | [], _ :: _ => Lt
  | _ :: _, [] => Gt
  | x :: r1', y :: r2' =>
      match (x ?= y)%Q with
      | Eq => row_compare r1' r2'
      | c => c
      end
  end.

Definition row_le (r1 r2 : list Q) : Prop := row_compare r1 r2 ≠ Gt.
Definition row_lt (r1 r2 : list Q) : Prop := row_compare r1 r2 = Lt.
Definition row_eqb (r1 r2 : list Q) : bool :=
  match row_compare r1 r2 with Eq => true | _ => false end.

Global Instance row_le_dec : RelDecision row_le.
Proof. intros r1 r2. unfold row_le. destruct (row_compare r1 r2); [left|left|right]; congruence. Defined.

Definition key_le (r1 r2 : list Q) : Prop := (nth 0 r1 0 <= nth 0 r2 0)%Q.

Global Instance key_le_dec : RelDecision key_le.
Proof.
  intros r1 r2. unfold key_le.
  destruct (Qlt_le_dec (nth 0 r2 0%Q) (nth 0 r1 0%Q)); [right|left]; [|done].
  by apply Qlt_not_le.
Defined.

(** [a[np.argsort(a[:, 0])]]: the rows ordered by their first column. *)
Definition argsort_rows (rows : list (list Q)) : list (list Q) :=
  merge_sort key_le rows.

(** [np.unique(rows, axis=0)]: the rows sorted lexicographically, equal rows
    kept once. *)
Definition np_unique_rows (rows : list (list Q)) : list (list Q) :=
  dedup_adjacent row_eqb (merge_sort row_le rows).

(** ** parse.py: array extraction *)

(** A [for] loop whose body may raise, threading the loop's variables. *)
Fixpoint for_each {A S} (body : S → A → result S) (l : list A) (s : S) : result S :=
  match l with
  | [] => Ok s
  | x :: l' => s' ← body s x; for_each body l' s'
  end.

(** [l[i]] on a Python list. *)
Definition list_item {A} (l : list A) (i : nat) : result A :=
  match l !! i with
  | Some x => Ok x
  | None => Raise IndexError
  end.

(** The test guarding every append of a decoded sub-scan. *)
Definition scan_usable (scan : list Q * list Q) : bool :=
  negb (Nat.eqb (length scan.1) 0) && negb (Nat.eqb (length scan.2) 0)
  && Nat.eqb (length scan.1) (length scan.2).

Definition nonempty {A} (l : list A) : bool :=
  match l with [] => false | _ => true end.

Definition extract_2d_tdf_spectrum
    (tdf_data : TdfData) (mode : string) (frame : Z) (scan_begin scan_end : nat)
    (profile_bins encoding : Z) : result (option (list Q) * option (list Q)) :=
  if decide (mode = "raw") then
    let list_of_scans := tims_read_scans_v2 tdf_data frame scan_begin scan_end in
    '(frame_mz_arrays, frame_intensity_arrays) ←
      for_each (λ '(mzs, ints) scan_num,
          scan ← list_item list_of_scans scan_num;
          if scan_usable scan then
            let mz_array := tims_index_to_mz tdf_data frame scan.1 in
            let intensity_array := scan.2 in
            Ok (mzs ++ [mz_array], ints ++ [intensity_array])
          else Ok (mzs, ints))
        (range scan_begin scan_end) ([], []);
    if nonempty frame_mz_arrays && nonempty frame_intensity_arrays then
      frames_array ← np_stack [concat frame_mz_arrays; concat frame_intensity_arrays];
      let frames_array := np_unique_rows (argsort_rows frames_array) in
      Ok (Some (column 0 frames_array), Some (column 1 frames_array))
    else Ok (None, None)
  else if decide (mode = "profile") then
    let '(index_buf, intensity_array) :=
      tims_extract_profile_for_frame tdf_data frame scan_begin scan_end in
    let mz_array := tims_index_to_mz tdf_data frame index_buf in
    if decide (profile_bins ≠ 0) then
      '(mz_array, intensity_array) ←
        bin_profile_spectrum mz_array intensity_array profile_bins encoding;
      Ok (Some mz_array, Some intensity_array)
    else Ok (Some mz_array, Some intensity_array)
  else if decide (mode = "centroid") then
    let '(mz_array, intensity_array) :=
      tims_extract_centroided_spectrum_for_frame_v2 tdf_data frame scan_begin scan_end in
    Ok (Some mz_array, Some intensity_array)
  else Raise UnboundLocalError.

Definition extract_3d_tdf_spectrum
    (tdf_data : TdfData) (frame : Z) (scan_begin scan_end : nat)
  : result (option (list Q) * option (list Q) * option (list Q)) :=
  let list_of_scans := tims_read_scans_v2 tdf_data frame scan_begin scan_end in
  let '(scan_begin, scan_end) :=
    if decide (scan_begin ≠ 0%nat) then (0, scan_end - scan_begin)%nat
    else (scan_begin, scan_end) in
  '(frame_mz_arrays, frame_intensity_arrays, frame_mobility_arrays) ←
    for_each (λ '(mzs, ints, mobs) scan_num,
        scan ← list_item list_of_scans scan_num;
        if scan_usable scan then
          let mz_array := tims_index_to_mz tdf_data frame scan.1 in
          let intensity_array := scan.2 in
          let mobility := tims_scannum_to_oneoverk0 tdf_data frame (Z.of_nat scan_num) in
          let mobility_array := replicate (length mz_array) mobility in
          Ok (mzs ++ [mz_array], ints ++ [intensity_array], mobs ++ [mobility_array])
        else Ok (mzs, ints, mobs))
      (range scan_begin scan_end) ([], [], []);
  if nonempty frame_mz_arrays && nonempty frame_intensity_arrays
     && nonempty frame_mobility_arrays then
    frames_array ← np_stack [concat frame_mz_arrays; concat frame_intensity_arrays;
                             concat frame_mobility_arrays];
    let frames_array := np_unique_rows (argsort_rows frames_array) in
    Ok (Some (column 0 frames_array), Some (column 1 frames_array),
        Some (column 2 frames_array))
  else Ok (None, None, None).

Definition extract_ddapasef_precursor_spectrum
    (tdf_data : TdfData) (pasefframemsmsinfo_dicts : list PasefFrameMsMsInfoRow)
    (mode : string) (profile_bins encoding : Z)
  : result (option (list Q) * option (list Q)) :=
  '(pasef_mz_arrays, pasef_intensity_arrays) ←
    for_each (λ '(mzs, ints) pasef_dict,
        let scan_begin := pf_ScanNumBegin pasef_dict in
        let scan_end := pf_ScanNumEnd pasef_dict in
        '(mz_array, intensity_array) ←
          extract_2d_tdf_spectrum tdf_data mode (pf_Frame pasef_dict) scan_begin scan_end
            profile_bins encoding;
        n ← size mz_array;
        if decide (n = 0%nat) then Ok (mzs, ints) else
        m ← size intensity_array;
        if decide (m = 0%nat) then Ok (mzs, ints) else
        if decide (n = m) then
          Ok (mzs ++ [default [] mz_array], ints ++ [default [] intensity_array])
        else Ok (mzs, ints))
      pasefframemsmsinfo_dicts ([], []);
  if nonempty pasef_mz_arrays && nonempty pasef_intensity_arrays then
    pasef_array ← np_stack [concat pasef_mz_arrays; concat pasef_intensity_arrays];
    let pasef_array := np_unique_rows (argsort_rows pasef_array) in
    let mz_acq_range_lower := MzAcqRangeLower tdf_data in
    let mz_acq_range_upper := MzAcqRangeUpper tdf_data in
    let bin_size := (5 # 1000)%Q in
    let bins := np_arange mz_acq_range_lower mz_acq_range_upper bin_size in
    digitized ← np_digitize (column 0 pasef_array) bins;
    let '(unique_indices, inverse_indices) := np_unique_inverse digitized in
    let bin_counts := np_place_lt1 (np_bincount inverse_indices) in
    mz_sums ← np_bincount_w inverse_indices (column 0 pasef_array);
    let mz_array := np_divide mz_sums bin_counts in
    intensity_array ← np_bincount_w inverse_indices (column 1 pasef_array);
    Ok (Some mz_array, Some intensity_array)
  else Ok (None, None).

(** ** parse.py: [parse_lcms_tdf] *)

(** The test [mz_array.size != 0 and intensity_array.size != 0 and
    mz_array.size == intensity_array.size and mz_array is not None and
    intensity_array is not None], evaluated left to right: [.size] is read
    before the [is not None] tests. *)
Definition arrays_usable (mz_array intensity_array : option (list Q)) : result bool :=
  n ← size mz_array;
  if decide (n = 0%nat) then Ok false else
  m ← size intensity_array;
  if decide (m = 0%nat) then Ok false else
  Ok (bool_decide (n = m) && bool_decide (is_Some mz_array)
      && bool_decide (is_Some intensity_array)).

(** The test [not exclude_mobility and mobility_array.size != 0 and
    mobility_array is not None]. *)
Definition mobility_usable (exclude_mobility : option bool)
    (mobility_array : option (list Q)) : result bool :=
  if truthy exclude_mobility then Ok false else
  n ← size mobility_array;
  if decide (n = 0%nat) then Ok false else Ok (bool_decide (is_Some mobility_array)).

(** The recurring block [if not exclude_mobility: extract_3d ... elif
    exclude_mobility: extract_2d ...]; in the second case [mobility_array] is
    not assigned, and it is not read afterwards. *)
Definition extract_frame_arrays
    (tdf_data : TdfData) (mode : string) (frame : Z) (scan_begin scan_end : nat)
    (exclude_mobility : option bool) (profile_bins encoding : Z)
  : result (option (list Q) * option (list Q) * option (list Q)) :=
  if negb (truthy exclude_mobility) then
    extract_3d_tdf_spectrum tdf_data frame scan_begin scan_end
  else
    '(mz_array, intensity_array) ←
      extract_2d_tdf_spectrum tdf_data mode frame scan_begin scan_end profile_bins encoding;
    Ok (mz_array, intensity_array, @None (list Q)).

(** The recurring block that stores the arrays, and the mobility array when
    it is usable. *)
Definition store_arrays (scan_dict : ScanDict) (exclude_mobility : option bool)
    (mz_array intensity_array mobility_array : option (list Q)) : result ScanDict :=
  scan_dict ← populate_scan_dict_w_spectrum_data scan_dict
                 (default [] mz_array) (default [] intensity_array);
  mobility_usable exclude_mobility mobility_array ≫= λ keep : bool,
  if keep then Ok (<["mobility_array" := VArr (default [] mobility_array)]> scan_dict)
  else Ok scan_dict.

Section parse_lcms_tdf.
Context (MSMS_TYPE_CATEGORY : MsMsTypeCategory) (tdf_data : TdfData).
Context (frame_start frame_stop : Z) (mode : string) (ms2_only : bool).
Context (exclude_mobility : option bool) (profile_bins encoding : Z).

(** Body of the loop over the precursors of a ddaPASEF MS1 frame. *)
Definition parse_ddapasef_precursor (frames_dict : FramesRow)
    (list_of_product_scans : list ScanDict) (precursor_dict : PrecursorsRow)
  : result (list ScanDict) :=
  scan_dict ← populate_scan_dict_w_lcms_tsf_tdf_metadata init_scan_dict frames_dict
                 mode exclude_mobility;
  let pasefframemsmsinfo_dicts :=
    rows_where pf_Precursor (pr_Id precursor_dict) (PasefFrameMsMsInfo tdf_data) in
  '(mz_array, intensity_array) ←
    extract_ddapasef_precursor_spectrum tdf_data pasefframemsmsinfo_dicts mode
      profile_bins encoding;
  match mz_array, intensity_array with
  | Some mz_array, Some intensity_array =>
      scan_dict ← populate_scan_dict_w_ddapasef_ms2 scan_dict tdf_data precursor_dict
                     pasefframemsmsinfo_dicts;
      scan_dict ← populate_scan_dict_w_spectrum_data scan_dict mz_array intensity_array;
      Ok (list_of_product_scans ++ [scan_dict])
  | _, _ => Ok list_of_product_scans
  end.

(** Body of the loop over the windows of a diaPASEF frame. *)
Definition parse_diapasef_window (frames_dict : FramesRow) (frame : Z)
    (list_of_parent_scans : list ScanDict)
    (diaframemsmswindows_dict : DiaFrameMsMsWindowsRow) : result (list ScanDict) :=
  scan_dict ← populate_scan_dict_w_lcms_tsf_tdf_metadata init_scan_dict frames_dict
                 mode exclude_mobility;
  '(mz_array, intensity_array, mobility_array) ←
    extract_frame_arrays tdf_data mode frame
      (dw_ScanNumBegin diaframemsmswindows_dict) (dw_ScanNumEnd diaframemsmswindows_dict)
      exclude_mobility profile_bins encoding;
  arrays_usable mz_array intensity_array ≫= λ usable : bool,
  if usable then
    let scan_dict := populate_scan_dict_w_diapasef_ms2 scan_dict diaframemsmswindows_dict in
    scan_dict ← store_arrays scan_dict exclude_mobility mz_array intensity_array
                   mobility_array;
    Ok (list_of_parent_scans ++ [scan_dict])
  else Ok list_of_parent_scans.

(** Body of the loop over the frames of the window; [exclude_mobility] is
    the flag as [get_centroid_status] returned it. *)
Definition parse_lcms_tdf_frame (st : list ScanDict * list ScanDict) (frame : Z)
  : result (list ScanDict * list ScanDict) :=
  let '(list_of_parent_scans, list_of_product_scans) := st in
  frames_dict ← first (rows_where fr_Id frame (Frames tdf_data));
  let MsMsType := fr_MsMsType frames_dict in
  let ScanMode := fr_ScanMode frames_dict in
  if bool_decide (MsMsType ∈ cat_ms1 MSMS_TYPE_CATEGORY) && negb ms2_only then
    scan_dict ← populate_scan_dict_w_lcms_tsf_tdf_metadata init_scan_dict frames_dict
                   mode exclude_mobility;
    let scan_dict := populate_scan_dict_w_ms1 scan_dict frame in
    '(mz_array, intensity_array, mobility_array) ←
      extract_frame_arrays tdf_data mode frame 0 (fr_NumScans frames_dict)
        exclude_mobility profile_bins encoding;
    arrays_usable mz_array intensity_array ≫= λ usable : bool,
    list_of_parent_scans ←
      (if usable then
         scan_dict ← store_arrays scan_dict exclude_mobility mz_array intensity_array
                        mobility_array;
         Ok (list_of_parent_scans ++ [scan_dict])
       else Ok list_of_parent_scans);
    if decide (frame_stop - frame_start > 1) then
      if decide (ScanMode = 8 ∧ MsMsType = 0) then
        let precursor_dicts := rows_where pr_Parent frame (Precursors tdf_data) in
        list_of_product_scans ←
          for_each (parse_ddapasef_precursor frames_dict) precursor_dicts
            list_of_product_scans;
        Ok (list_of_parent_scans, list_of_product_scans)
      else Ok (list_of_parent_scans, list_of_product_scans)
    else Ok (list_of_parent_scans, list_of_product_scans)
  else if decide (ScanMode = 9 ∧ MsMsType = 9) then
    diaframemsmsinfo_dict ← first (rows_where di_Frame frame (DiaFrameMsMsInfo tdf_data));
    let diaframemsmswindows_dicts :=
      rows_where dw_WindowGroup (di_WindowGroup diaframemsmsinfo_dict)
        (DiaFrameMsMsWindows tdf_data) in
    list_of_parent_scans ←
      for_each (parse_diapasef_window frames_dict frame) diaframemsmswindows_dicts
        list_of_parent_scans;
    Ok (list_of_parent_scans, list_of_product_scans)
  else if decide (ScanMode = 4 ∧ MsMsType = 2) then
    scan_dict ← populate_scan_dict_w_lcms_tsf_tdf_metadata init_scan_dict frames_dict
                   mode exclude_mobility;
    framemsmsinfo_dict ← first (rows_where fm_Frame frame (FrameMsMsInfo tdf_data));
    let scan_dict :=
      populate_scan_dict_w_bbcid_iscid_ms2 scan_dict frame framemsmsinfo_dict in
    '(mz_array, intensity_array, mobility_array) ←
      extract_frame_arrays tdf_data mode frame 0 (fr_NumScans frames_dict)
        exclude_mobility profile_bins encoding;
    arrays_usable mz_array intensity_array ≫= λ usable : bool,
    if usable then
      scan_dict ← store_arrays scan_dict exclude_mobility mz_array intensity_array
                     mobility_array;
      Ok (list_of_parent_scans ++ [scan_dict], list_of_product_scans)
    else Ok (list_of_parent_scans, list_of_product_scans)
  else if decide (ScanMode = 2 ∧ MsMsType = 2) then
    scan_dict ← populate_scan_dict_w_lcms_tsf_tdf_metadata init_scan_dict frames_dict
                   mode exclude_mobility;
    framemsmsinfo_dict ← first (rows_where fm_Frame frame (FrameMsMsInfo tdf_data));
    '(mz_array, intensity_array) ←
      extract_2d_tdf_spectrum tdf_data mode frame 0 (fr_NumScans frames_dict)
        profile_bins encoding;
    arrays_usable mz_array intensity_array ≫= λ usable : bool,
    if usable then
      let scan_dict := populate_scan_dict_w_tsf_ms2 scan_dict framemsmsinfo_dict false in
      scan_dict ← populate_scan_dict_w_spectrum_data scan_dict
                     (default [] mz_array) (default [] intensity_array);
      Ok (list_of_parent_scans ++ [scan_dict], list_of_product_scans)
    else Ok (list_of_parent_scans, list_of_product_scans)
  else if decide (ScanMode = 10 ∧ MsMsType = 10) then
    scan_dict ← populate_scan_dict_w_lcms_tsf_tdf_metadata init_scan_dict frames_dict
                   mode exclude_mobility;
    prmframemsmsinfo_dict ←
      first (rows_where pm_Frame frame (PrmFrameMsMsInfo tdf_data));
    prmtargets_dict ←
      first (rows_where pt_Id (pm_Target prmframemsmsinfo_dict) (PrmTargets tdf_data));
    '(mz_array, intensity_array) ←
      extract_2d_tdf_spectrum tdf_data mode frame
        (pm_ScanNumBegin prmframemsmsinfo_dict) (pm_ScanNumEnd prmframemsmsinfo_dict)
        profile_bins encoding;
    arrays_usable mz_array intensity_array ≫= λ usable : bool,
    if usable then
      scan_dict ← populate_scan_dict_w_prmpasef_ms2 tdf_data scan_dict
                     prmframemsmsinfo_dict prmtargets_dict;
      scan_dict ← populate_scan_dict_w_spectrum_data scan_dict
                     (default [] mz_array) (default [] intensity_array);
      Ok (list_of_parent_scans ++ [scan_dict], list_of_product_scans)
    else Ok (list_of_parent_scans, list_of_product_scans)
  else Ok (list_of_parent_scans, list_of_product_scans).

End parse_lcms_tdf.

Definition parse_lcms_tdf (MSMS_TYPE_CATEGORY : MsMsTypeCategory) (tdf_data : TdfData)
    (frame_start frame_stop : Z) (mode : string) (ms2_only : bool)
    (exclude_mobility : option bool) (profile_bins encoding : Z)
  : result (list ScanDict * list ScanDict) :=
  '(_, exclude_mobility) ← get_centroid_status mode exclude_mobility;
  for_each
    (parse_lcms_tdf_frame MSMS_TYPE_CATEGORY tdf_data frame_start frame_stop mode
       ms2_only exclude_mobility profile_bins encoding)
    (seqZ frame_start (frame_stop - frame_start)) ([], []).

(** ** write.py: the sink *)

(** [precursor_information] of a [write_spectrum] call.  An identifier
    ['scan=' + str(n)] is kept as the value [n] it is printed from. *)
Record PrecursorInfo := {
  pi_mz : pyval;
  pi_collision_energy : pyval;
  pi_target : pyval;
  pi_upper : pyval;
  pi_lower : pyval;
  pi_params : list (string * pyval);
  pi_intensity : option pyval;
  pi_charge : option pyval;
  pi_spectrum_reference : option pyval }.

(** One call of [writer.write_spectrum]. *)
Record SpectrumCall := {
  call_mz_array : pyval;
  call_intensity_array : pyval;
  call_id : pyval;
  call_polarity : pyval;
  call_centroided : pyval;
  call_scan_start_time : pyval;
  call_other_arrays : option pyval;
  call_params : list (string * pyval);
  call_precursor_information : option PrecursorInfo }.

(** The sink is the sequence of calls it has received.  A computation on it
    may raise after some calls were made; they stay written. *)
Definition Sink (A : Type) : Type := list SpectrumCall → result A * list SpectrumCall.

Global Instance sink_ret : MRet Sink := λ A a w, (Ok a, w).
Global Instance sink_bind : MBind Sink := λ A B f m w,
  match m w with
  | (Ok a, w') => f a w'
  | (Raise e, w') => (Raise e, w')
  end.

Definition lift {A} (r : result A) : Sink A := λ w, (r, w).

Definition write_spectrum (c : SpectrumCall) : Sink () := λ w, (Ok (), w ++ [c]).

Fixpoint for_each_sink {A S} (body : S → A → Sink S) (l : list A) (s : S) : Sink S :=
  match l with
  | [] => mret s
  | x :: l' => s' ← body s x; for_each_sink body l' s'
  end.

(** [k in d.keys()] *)
Definition has_key (d : ScanDict) (k : string) : bool := bool_decide (is_Some (d !! k)).

(** The numpy dtype chosen from [encoding]; any other width leaves
    [encoding_dtype] unassigned. *)
Definition encoding_dtype (encoding : Z) : result Z :=
  match get_encoding_dtype encoding with
  | Some w => Ok w
  | None => Raise UnboundLocalError
  end.

(** The arguments [write_lcms_ms1_spectrum] evaluates before it calls
    [writer.write_spectrum]. *)
Definition ms1_spectrum_call (parent_scan : ScanDict) (encoding : Z) : result SpectrumCall :=
  params ← (
    scan_type ← getitem parent_scan "scan_type";
    ms_level ← getitem parent_scan "ms_level";
    tic ← getitem parent_scan "total_ion_current";
    bp_mz ← getitem parent_scan "base_peak_mz";
    bp_int ← getitem parent_scan "base_peak_intensity";
    high_mz ← getitem parent_scan "high_mz";
    low_mz ← getitem parent_scan "low_mz";
    Ok [("scan_type", scan_type); ("ms level", ms_level); ("total ion current", tic);
        ("base peak m/z", bp_mz); ("base peak intensity", bp_int);
        ("highest observed m/z", high_mz); ("lowest observed m/z", low_mz)]);
  let other_arrays :=
    match parent_scan !! "mobility_array" with
    | Some VNone | None => None
    | Some a => Some a
    end in
  _ ← encoding_dtype encoding;
  mz_array ← getitem parent_scan "mz_array";
  intensity_array ← getitem parent_scan "intensity_array";
  scan_number ← getitem parent_scan "scan_number";
  polarity ← getitem parent_scan "polarity";
  centroided ← getitem parent_scan "centroided";
  retention_time ← getitem parent_scan "retention_time";
  Ok {| call_mz_array := mz_array; call_intensity_array := intensity_array;
        call_id := scan_number; call_polarity := polarity;
        call_centroided := centroided; call_scan_start_time := retention_time;
        call_other_arrays := other_arrays; call_params := params;
        call_precursor_information := None |}.

Definition write_lcms_ms1_spectrum (parent_scan : ScanDict) (encoding : Z) : Sink () :=
  args ← lift (ms1_spectrum_call parent_scan encoding);
  write_spectrum args.

(** [not np.isnan(c) and int(c) != 0] on the stored charge state. *)
Definition charge_is_set (c : pyval) : result bool :=
  match c with
  | VFloat NaN => Ok false
  | VFloat (Fl q) => Ok (negb (Z.eqb (int_of_Q q) 0))
  | VInt z => Ok (negb (Z.eqb z 0))
  | VBool b => Ok b
  | VNone | VStr _ => Raise TypeError
  | VArr _ => Raise ValueError
  end.

(** The arguments [write_lcms_ms2_spectrum] evaluates before it calls
    [writer.write_spectrum]. *)
Definition ms2_spectrum_call (parent_scan : option ScanDict) (encoding : Z)
    (product_scan : ScanDict) : result SpectrumCall :=
  spectrum_params ← (
    scan_type ← getitem product_scan "scan_type";
    ms_level ← getitem product_scan "ms_level";
    tic ← getitem product_scan "total_ion_current";
    let p := [("scan_type", scan_type); ("ms level", ms_level); ("total ion current", tic)] in
    p ← (if has_key product_scan "base_peak_mz" && has_key product_scan "base_peak_intensity"
         then bp_mz ← getitem product_scan "base_peak_mz";
              bp_int ← getitem product_scan "base_peak_intensity";
              Ok (p ++ [("base peak m/z", bp_mz); ("base peak intensity", bp_int)])
         else Ok p);
    if has_key product_scan "high_mz" && has_key product_scan "low_mz"
    then high_mz ← getitem product_scan "high_mz";
         low_mz ← getitem product_scan "low_mz";
         Ok (p ++ [("highest observed m/z", high_mz); ("lowest observed m/z", low_mz)])
    else Ok p);
  precursor_info ← (
    mz ← getitem product_scan "selected_ion_mz";
    ce ← getitem product_scan "collision_energy";
    target ← getitem product_scan "target_mz";
    upper ← getitem product_scan "isolation_upper_offset";
    lower ← getitem product_scan "isolation_lower_offset";
    let intensity := product_scan !! "selected_ion_intensity" in
    let params :=
      match product_scan !! "selected_ion_mobility" with
      | Some v => [("inverse reduced ion mobility", v)]
      | None => []
      end ++
      match product_scan !! "selected_ion_ccs" with
      | Some v => [("collisional cross sectional area", v)]
      | None => []
      end in
    charge_state ← getitem product_scan "charge_state";
    charge_is_set charge_state ≫= λ set : bool,
    let charge := if set then Some charge_state else None in
    reference ←
      match parent_scan with
      | Some parent_scan => n ← getitem parent_scan "scan_number"; Ok (Some n)
      | None => Ok None
      end;
    Ok {| pi_mz := mz; pi_collision_energy := ce; pi_target := target;
          pi_upper := upper; pi_lower := lower; pi_params := params;
          pi_intensity := intensity; pi_charge := charge;
          pi_spectrum_reference := reference |});
  _ ← encoding_dtype encoding;
  mz_array ← getitem product_scan "mz_array";
  intensity_array ← getitem product_scan "intensity_array";
  scan_number ← getitem product_scan "scan_number";
  polarity ← getitem product_scan "polarity";
  centroided ← getitem product_scan "centroided";
  retention_time ← getitem product_scan "retention_time";
  Ok {| call_mz_array := mz_array; call_intensity_array := intensity_array;
        call_id := scan_number; call_polarity := polarity;
        call_centroided := centroided; call_scan_start_time := retention_time;
        call_other_arrays := None; call_params := spectrum_params;
        call_precursor_information := Some precursor_info |}.

Definition write_lcms_ms2_spectrum (parent_scan : option ScanDict) (encoding : Z)
    (product_scan : ScanDict) : Sink () :=
  args ← lift (ms2_spectrum_call parent_scan encoding product_scan);
  write_spectrum args.

(** ** write.py: expected count and its correction *)

(** Truth value of a float, as [filter(None, ...)] tests it. *)
Definition float_truthy (x : pyfloat) : bool :=
  match x with
  | NaN => true
  | Fl q => negb (Qeq_bool q 0)
  end.

(** [get_spectra_count], schema [TDF]. *)
Definition get_spectra_count (data : TdfData) : Z :=
  let ms1_count := length (filter (λ r, fr_MsMsType r = 0) (frames data)) in
  let ms2_count := length (List.filter float_truthy (pr_MonoisotopicMz <$> precursors data)) in
  Z.of_nat (ms1_count + ms2_count).

(** [s.replace(old, new)]: the occurrences of [old] found from left to
    right, not overlapping.  [skip] counts the characters of a match that are
    still to be passed over.  [old] is not empty in the calls below. *)
Fixpoint replace_from (old new : string) (skip : nat) (s : string) : string :=
  match s with
  | EmptyString => EmptyString
  | String c s' =>
      match skip with
      | S k => replace_from old new k s'
      | O =>
          if String.prefix old s
          then new +:+ replace_from old new (String.length old - 1) s'
          else String c (replace_from old new 0 s')
      end
  end.

Definition str_replace (old new s : string) : string := replace_from old new 0 s.

(** The line of the [spectrumList] element as [update_spectra_count] spells
    it; [str(n)] of an integer is [pretty n]. *)
Definition dquote : string := String (Ascii.ascii_of_nat 34) EmptyString.

Definition spectrum_list_line (count : Z) : string :=
  "      <spectrumList count=" +:+ dquote +:+ pretty count +:+ dquote
    +:+ " defaultDataProcessingRef=" +:+ dquote +:+ "exportation" +:+ dquote +:+ ">".

(** [update_spectra_count]: the lines of the temporary file, copied to the
    output file with the declared count replaced. *)
Definition update_spectra_count (tmp_lines : list string) (num_of_spectra scan_count : Z)
  : list string :=
  (λ line, str_replace (spectrum_list_line num_of_spectra)
             (spectrum_list_line scan_count) line) <$> tmp_lines.

(** ** write.py: the chunk writer and the run *)

(** [a == b] on the scalar values a frame number can take. *)
Definition py_eqb (a b : pyval) : bool :=
  match a, b with
  | VNone, VNone => true
  | VBool x, VBool y => Bool.eqb x y
  | VInt x, VInt y => Z.eqb x y
  | VStr x, VStr y => String.eqb x y
  | VFloat (Fl x), VFloat (Fl y) => Qeq_bool x y
  | VInt x, VFloat (Fl y) | VFloat (Fl y), VInt x => Qeq_bool (inject_Z x) y
  | VBool x, VInt y | VInt y, VBool x => Z.eqb (if x then 1 else 0) y
  | _, _ => false
  end.

(** [[i for i in product_scans if i['parent_frame'] == parent['frame']]] *)
Fixpoint select_products (product_scans : list ScanDict) (parent : ScanDict)
  : result (list ScanDict) :=
  match product_scans with
  | [] => Ok []
  | i :: rest =>
      parent_frame ← getitem i "parent_frame";
      frame ← getitem parent "frame";
      rest ← select_products rest parent;
      Ok (if py_eqb parent_frame frame then i :: rest else rest)
  end.

Definition is_nil {A} (l : list A) : bool :=
  match l with [] => true | _ => false end.

Section serializer.
(** The parser the schema selects, applied to the run's data and options:
    [parse_lcms_tdf] for [TDF], [parse_lcms_baf] for [Baf2Sql]. *)
Context (parse_lcms : Z → Z → result (list ScanDict * list ScanDict)).
Context (ms2_only : bool) (encoding : Z).

(** Body of the loops over products.  The assignment to
    [product['scan_number']] changes the dictionary held in
    [product_scans]; no later step reads that key before it is assigned
    again, so the update is local here. *)
Definition write_product (parent : option ScanDict) (scan_count : Z)
    (product : ScanDict) : Sink Z :=
  let scan_count := scan_count + 1 in
  let product := <["scan_number" := VInt scan_count]> product in
  _ ← write_lcms_ms2_spectrum parent encoding product;
  mret scan_count.

(** Body of the loop over parents. *)
Definition write_parent (product_scans : list ScanDict) (scan_count : Z)
    (parent : ScanDict) : Sink Z :=
  products ← lift (select_products product_scans parent);
  let scan_count := scan_count + 1 in
  let parent := <["scan_number" := VInt scan_count]> parent in
  _ ← write_lcms_ms1_spectrum parent encoding;
  for_each_sink (write_product (Some parent)) products scan_count.

Definition write_lcms_chunk_to_mzml (frame_start frame_stop : Z) (scan_count : Z)
  : Sink Z :=
  '(parent_scans, product_scans) ← lift (parse_lcms frame_start frame_stop);
  if negb ms2_only then
    for_each_sink (write_parent product_scans) parent_scans scan_count
  else if ms2_only || is_nil parent_scans then
    for_each_sink (write_product None) product_scans scan_count
  else mret scan_count.

Definition write_chunk_list (chunk_list : list (Z * Z)) (scan_count : Z) : Sink Z :=
  for_each_sink (λ scan_count '(frame_start, frame_stop),
                   write_lcms_chunk_to_mzml frame_start frame_stop scan_count)
    chunk_list scan_count.

(** The value [j] holds after a [for i, j in pairs] loop. *)
Definition loop_variable (pairs : list (Z * Z)) (j : option Z) : option Z :=
  match last pairs with
  | Some (_, j') => Some j'
  | None => j
  end.

(** The [while ... else] over [ms1_frames].  [j] is the loop variable of
    the inner [for], unassigned until a pair has been seen; reading it
    unassigned raises.  [fuel] bounds the number of iterations; [None]
    stands for its exhaustion. *)
Fixpoint write_chunks (ms1_frames : list Z) (frames_shape_0 : nat) (chunk_size : nat)
    (fuel : nat) (chunk : nat) (j : option Z) (scan_count : Z) : Sink (option Z) :=
  match fuel with
  | O => mret None
  | S fuel' =>
      if decide (chunk + chunk_size + 1 ≤ length ms1_frames)%nat then
        let chunk_list :=
          zip (take chunk_size (drop chunk ms1_frames))
              (take chunk_size (drop (chunk + 1) ms1_frames)) in
        let j := loop_variable chunk_list j in
        _ ← lift (first chunk_list);
        scan_count ← write_chunk_list chunk_list scan_count;
        write_chunks ms1_frames frames_shape_0 chunk_size fuel'
          (chunk + chunk_size) j scan_count
      else
        let pairs :=
          zip (drop chunk (take (length ms1_frames - 1) ms1_frames))
              (drop (chunk + 1) ms1_frames) in
        match loop_variable pairs j with
        | None => lift (Raise UnboundLocalError)
        | Some j =>
            let chunk_list := pairs ++ [(j, Z.of_nat frames_shape_0 + 1)] in
            scan_count ← write_chunk_list chunk_list scan_count;
            mret (Some scan_count)
        end
  end.

(** The files a finished run leaves: the temporary file, and the output
    file once [update_spectra_count] has run. *)
Record Files := { tmp_file : option (list string); out_file : option (list string) }.

(** The sink's rendering: the lines before the spectrum list, one line
    for the list's opening, the lines of each spectrum and the closing. *)
Context (preamble closing : list string) (render : SpectrumCall → list string).

Definition tmp_lines (num_of_spectra : Z) (calls : list SpectrumCall) : list string :=
  preamble ++ [spectrum_list_line num_of_spectra] ++ (calls ≫= render) ++ closing.

Definition write_lcms_mzml (ms1_frames : list Z) (frames_shape_0 : nat)
    (chunk_size : nat) (num_of_spectra : Z)
  : option (result Files * list SpectrumCall) :=
  match write_chunks ms1_frames frames_shape_0 chunk_size (S (length ms1_frames))
          0%nat None 0 [] with
  | (Ok None, _) => None
  | (Raise e, calls) => Some (Raise e, calls)
  | (Ok (Some scan_count), calls) =>
      let tmp := tmp_lines num_of_spectra calls in
      if decide (num_of_spectra ≠ scan_count) then
        Some (Ok {| tmp_file := None;
                    out_file := Some (update_spectra_count tmp num_of_spectra scan_count) |},
              calls)
      else Some (Ok {| tmp_file := Some tmp; out_file := None |}, calls)
  end.

End serializer.

(** * Predicates the properties are stated with *)

(** The record carries no mobility array. *)
Definition no_mobility (d : ScanDict) : Prop := d !! "mobility_array" = Some VNone.

(** The sum of an array, as the specification means it. *)
Definition Qsum (l : list Q) : Q := foldr Qplus 0%Q l.

(** The identifiers the sink received, in order. *)
Definition scan_ids (calls : list SpectrumCall) : list pyval := call_id <$> calls.

(** The identifiers are 1, 2, 3, ... *)
Definition numbered_from_one (calls : list SpectrumCall) : Prop :=
  scan_ids calls = (λ i : nat, VInt (Z.of_nat i)) <$> seq 1 (length calls).

(** The counter agrees with the sink. *)
Definition counted (scan_count : Z) (calls : list SpectrumCall) : Prop :=
  scan_count = Z.of_nat (length calls) ∧ numbered_from_one calls.

(** Outcome of a computation on the sink: [I] after a normal return, [E]
    after an exception. *)
Definition post {A} (m : result A * list SpectrumCall)
    (I : A → list SpectrumCall → Prop) (E : list SpectrumCall → Prop) : Prop :=
  match m with
  | (Ok a, w) => I a w
  | (Raise _, w) => E w
  end.

(** The chunk loop ended normally, with a count that agrees with the sink. *)
Definition finished (o : option Z) (w : list SpectrumCall) : Prop :=
  ∃ c, o = Some c ∧ counted c w.

(** The keys of a record made by [init_scan_dict]. *)
Definition scan_keys : list string :=
  ["scan_number"; "scan_type"; "ms_level"; "mz_array"; "intensity_array";
   "mobility_array"; "polarity"; "centroided"; "retention_time"; "coord";
   "total_ion_current"; "base_peak_mz"; "base_peak_intensity"; "high_mz";
   "low_mz"; "target_mz"; "isolation_lower_offset"; "isolation_upper_offset";
   "selected_ion_mz"; "selected_ion_intensity"; "selected_ion_mobility";
   "selected_ion_ccs"; "charge_state"; "collision_energy"; "frame";
   "parent_frame"; "parent_scan"; "ms2_no_precursor"].

(** The record has every key of [init_scan_dict]. *)
Definition complete (d : ScanDict) : bool := forallb (has_key d) scan_keys.

(** The charge state is a number (NaN included), as the precursor tables
    give it. *)
Definition charge_readable (d : ScanDict) : bool :=
  match d !! "charge_state" with
  | Some (VFloat _) | Some (VInt _) | Some (VBool _) => true
  | _ => false
  end.

(** [product['parent_frame'] == parent['frame']] *)
Definition linked (parent product : ScanDict) : bool :=
  match product !! "parent_frame", parent !! "frame" with
  | Some a, Some b => py_eqb a b
  | _, _ => false
  end.

(** The record with its scan number assigned. *)
Definition numbered (n : Z) (d : ScanDict) : ScanDict := <["scan_number" := VInt n]> d.

(** An entry of the emission order: the number given to the record, the
    record and, for a product written under a parent, the parent and its
    number. *)
Definition Emission : Type := Z * ScanDict * option (Z * ScanDict).

(** The products of one parent, numbered after [n]. *)
Fixpoint children_emission (n : Z) (parent : Z * ScanDict) (children : list ScanDict)
  : list Emission :=
  match children with
  | [] => []
  | child :: rest => (n + 1, child, Some parent) :: children_emission (n + 1) parent rest
  end.

(** The order the specification describes for one window: every parent,
    each followed by the products whose [parent_frame] is its [frame],
    numbered consecutively after [scan_count]. *)
Fixpoint linked_emission (scan_count : Z) (parents products : list ScanDict)
  : list Emission :=
  match parents with
  | [] => []
  | parent :: parents' =>
      let children := List.filter (linked parent) products in
      (scan_count + 1, parent, None)
        :: children_emission (scan_count + 1) (scan_count + 1, parent) children
        ++ linked_emission (scan_count + 1 + Z.of_nat (length children)) parents' products
  end.

(** The [spectrum_reference] of a call, if it has one. *)
Definition spectrum_reference (call : SpectrumCall) : option pyval :=
  call_precursor_information call ≫= pi_spectrum_reference.

(** The call is the emission of the entry: an MS1 write for a parent, an MS2
    write referring to the parent for a product; it carries the entry's
    number, and a product refers to its parent's number. *)
Definition emitted_as (encoding : Z) (entry : Emission) (call : SpectrumCall) : Prop :=
  match entry with
  | (n, d, None) =>
      ms1_spectrum_call (numbered n d) encoding = Ok call ∧
      call_id call = VInt n ∧ spectrum_reference call = None
  | (n, d, Some (m, p)) =>
      ms2_spectrum_call (Some (numbered m p)) encoding (numbered n d) = Ok call ∧
      call_id call = VInt n ∧ spectrum_reference call = Some (VInt m)
  end.

(** A product the MS2 writer can read: every key, and a numeric charge. *)
Definition writable_product (d : ScanDict) : Prop :=
  complete d = true ∧ charge_readable d = true.

(** * Sample acquisitions *)

Module Samples.

(** [MSMS_TYPE_CATEGORY] with MS1 frames of type 0 and MS/MS frames of
    types 2, 8 and 9. *)
Definition categories : MsMsTypeCategory := {| cat_ms1 := [0]; cat_ms2 := [2; 8; 9] |}.

Definition frame_row (id msms_type scan_mode : Z) (num_scans : nat) : FramesRow :=
  {| fr_Id := id; fr_MsMsType := msms_type; fr_ScanMode := scan_mode;
     fr_NumScans := num_scans; fr_Polarity := "+"; fr_Time := inject_Z id |}.

(** An acquisition given by its tables and, per frame, its sub-scans and
    its centroided (or profile) spectrum.  The calibration is the identity,
    scan [s] has mobility [1 + s/10], the acquisition range is 100-101. *)
Definition acquisition (frames_table : list FramesRow)
    (precursors_table : list PrecursorsRow) (pasef_table : list PasefFrameMsMsInfoRow)
    (msms_table : list FrameMsMsInfoRow) (ms1 : list Z)
    (scans : Z → list (list Q * list Q)) (spectrum : Z → list Q * list Q) : TdfData :=
  {| Frames := frames_table; Precursors := precursors_table;
     PasefFrameMsMsInfo := pasef_table; DiaFrameMsMsInfo := [];
     DiaFrameMsMsWindows := []; FrameMsMsInfo := msms_table;
     PrmFrameMsMsInfo := []; PrmTargets := [];
     MzAcqRangeLower := 100; MzAcqRangeUpper := 101;
     frames := frames_table; precursors := precursors_table; ms1_frames := ms1;
     tims_read_scans_v2 := λ f b e, take (e - b) (drop b (scans f));
     tims_index_to_mz := λ _ index, index;
     tims_scannum_to_oneoverk0 := λ _ s, (1 + inject_Z s / 10)%Q;
     tims_oneoverk0_to_ccs_for_mz := λ k z mz, (k * inject_Z z)%Q;
     tims_extract_profile_for_frame := λ f _ _, spectrum f;
     tims_extract_centroided_spectrum_for_frame_v2 := λ f _ _, spectrum f |}.

(** Three MS1 frames; frame 2 decodes to empty arrays. *)
Definition three_ms1 : TdfData :=
  acquisition [frame_row 1 0 0 1; frame_row 2 0 0 1; frame_row 3 0 0 1] [] [] []
    [1; 2; 3]
    (λ f, if decide (f = 2) then [([], [])] else [([100; 200]%Q, [5; 7]%Q)])
    (λ f, if decide (f = 2) then ([], []) else ([100; 200]%Q, [5; 7]%Q)).

(** One frame with two sub-scans that hold the same m/z at two
    mobilities. *)
Definition two_mobilities : TdfData :=
  acquisition [frame_row 1 0 0 2] [] [] [] [1]
    (λ _, [([100]%Q, [5]%Q); ([100]%Q, [7]%Q)])
    (λ _, ([100]%Q, [12]%Q)).

(** A bbCID acquisition: MS1 frames 1 and 3, bbCID frames 2 and 4. *)
Definition msms_row (frame : Z) : FrameMsMsInfoRow :=
  {| fm_Frame := frame; fm_Parent := 0; fm_TriggerMass := 0; fm_IsolationWidth := 0;
     fm_PrecursorCharge := NaN; fm_CollisionEnergy := 30 |}.

Definition bbcid : TdfData :=
  acquisition [frame_row 1 0 4 1; frame_row 2 2 4 1; frame_row 3 0 4 1; frame_row 4 2 4 1]
    [] [] [msms_row 2; msms_row 4] [1; 3]
    (λ _, [([100; 200]%Q, [5; 7]%Q)])
    (λ _, ([100; 200]%Q, [5; 7]%Q)).

(** A ddaPASEF window: MS1 frame 10 with the spectrum [parent_spectrum],
    PASEF frame 11 and two precursors found in frame 10. *)
Definition precursor_row (id : Z) (charge : pyfloat) : PrecursorsRow :=
  {| pr_Id := id; pr_Parent := 10; pr_ScanNumber := 1; pr_AverageMz := (1005 # 10);
     pr_LargestPeakMz := (1004 # 10); pr_MonoisotopicMz := Fl (1004 # 10);
     pr_Intensity := 50; pr_Charge := charge |}.

Definition pasef_row (precursor : Z) : PasefFrameMsMsInfoRow :=
  {| pf_Frame := 11; pf_ScanNumBegin := 0; pf_ScanNumEnd := 1; pf_IsolationWidth := 2;
     pf_CollisionEnergy := 30; pf_Precursor := precursor |}.

Definition dda_window (parent_spectrum : list Q * list Q) : TdfData :=
  acquisition [frame_row 10 0 8 1; frame_row 11 8 8 1]
    [precursor_row 1 (Fl 2); precursor_row 2 NaN] [pasef_row 1; pasef_row 2] [] [10]
    (λ _, [([1002 # 10; 1006 # 10]%Q, [5; 7]%Q)])
    (λ f, if decide (f = 10) then parent_spectrum
          else ([1002 # 10; 1006 # 10]%Q, [5; 7]%Q)).

(** The parser of a run on [data], as the chunk writer calls it. *)
Definition parser (data : TdfData) (mode : string) (ms2_only : bool)
    (exclude_mobility : option bool) (frame_start frame_stop : Z)
  : result (list ScanDict * list ScanDict) :=
  parse_lcms_tdf categories data frame_start frame_stop mode ms2_only exclude_mobility
    0 64.

(** A run on [data] with 64-bit encoding and no re-binning; the sink
    renders one line per spectrum. *)
Definition run (data : TdfData) (mode : string) (ms2_only : bool)
    (exclude_mobility : option bool) (chunk_size : nat)
  : option (result Files * list SpectrumCall) :=
  write_lcms_mzml (parser data mode ms2_only exclude_mobility) ms2_only 64
    ["<mzML>"] ["</mzML>"] (λ _, ["<spectrum/>"])
    (ms1_frames data) (length (frames data)) chunk_size (get_spectra_count data).

(** The records of a window, empty when the parser raises. *)
Definition window (data : TdfData) (mode : string) (ms2_only : bool)
    (exclude_mobility : option bool) (frame_start frame_stop : Z)
  : list ScanDict * list ScanDict :=
  match parser data mode ms2_only exclude_mobility frame_start frame_stop with
  | Ok r => r
  | Raise _ => ([], [])
  end.

(** Whether the parser returns normally on a window. *)
Definition parses (data : TdfData) (mode : string) (ms2_only : bool)
    (exclude_mobility : option bool) (frame_start frame_stop : Z) : bool :=
  match parser data mode ms2_only exclude_mobility frame_start frame_stop with
  | Ok _ => true
  | Raise _ => false
  end.

End Samples.

(** ** The binner as the specification words it *)

(** Right-open digitisation over increasing edges: the bin of [x] is the
    number of edges at or below [x]. *)
Definition bin_of (edges : list Q) (x : Q) : nat := count_le edges x.

(** The points (m/z, intensity) that fall into bin [k]. *)
Definition bin_members (edges : list Q) (k : nat) (points : list (Q * Q)) : list (Q * Q) :=
  List.filter (λ p, Nat.eqb (bin_of edges p.1) k) points.

(** The arithmetic mean. *)
Definition mean (l : list Q) : Q := (Qsum l / inject_Z (Z.of_nat (length l)))%Q.

(** The mean weighted by intensity, as the specification has it. *)
Definition weighted_mean (points : list (Q * Q)) : Q :=
  (Qsum ((λ p, p.1 * p.2) <$> points) / Qsum (snd <$> points))%Q.

(** The output point of bin [k]: the mean m/z and the summed intensity of
    its members. *)
Definition binned_point (edges : list Q) (points : list (Q * Q)) (k : nat) : Q * Q :=
  let members := bin_members edges k points in
  (mean (fst <$> members), Qsum (snd <$> members)).

(** Two points that agree as rationals. *)
Definition point_eq (p q : Q * Q) : Prop := (p.1 == q.1)%Q ∧ (p.2 == q.2)%Q.

(** ** The windows of a run *)

(** The pairs of neighbours of a list of frame ids. *)
Definition consecutive (frame_ids : list Z) : list (Z * Z) := zip frame_ids (drop 1 frame_ids).

(** The windows of a run over [frame_ids]: from each id to the next one, and
    from the last id to one past the number of frames. *)
Definition run_windows (frame_ids : list Z) (frames_shape_0 : nat) : list (Z * Z) :=
  match last frame_ids with
  | Some j => consecutive frame_ids ++ [(j, Z.of_nat frames_shape_0 + 1)]
  | None => []
  end.

(** ** Provenance of the records of a window *)

(** The product record [d] was parsed from a precursor of the ddaPASEF MS1
    frame described by the row [row] of the Frames table: it is an MS2
    record that names the frame as its parent and carries the frame's
    polarity and retention time. *)
Definition product_of_frame (row : FramesRow) (d : ScanDict) : Prop :=
  fr_MsMsType row = 0 ∧ fr_ScanMode row = 8 ∧
  d !! "ms_level" = Some (VInt 2) ∧
  d !! "parent_frame" = Some (VInt (fr_Id row)) ∧
  d !! "polarity" = Some (VStr (fr_Polarity row)) ∧
  d !! "retention_time" = Some (VFloat (Fl (fr_Time row / 60))).

(** The frame of an MS1 record; [None] for the records of other levels. *)
Definition ms1_frame_of (d : ScanDict) : option Z :=
  match d !! "ms_level", d !! "frame" with
  | Some (VInt 1), Some (VInt f) => Some f
  | _, _ => None
  end.

(** The record holds non-empty m/z and intensity arrays of one length. *)
Definition holds_spectrum (d : ScanDict) : Prop :=
  ∃ mz_array intensity_array,
    d !! "mz_array" = Some (VArr mz_array) ∧
    d !! "intensity_array" = Some (VArr intensity_array) ∧
    mz_array ≠ [] ∧ length mz_array = length intensity_array.

(** ** Sub-scan extraction *)

(** State of the sub-scan loop of [extract_3d_tdf_spectrum] after the scans
    below [k]: one array per usable sub-scan in each of the three lists, and
    arrays of one length per sub-scan. *)
Definition extract_3d_state (list_of_scans : list (list Q * list Q)) (k : nat)
    (st : list (list Q) * list (list Q) * list (list Q)) : Prop :=
  length st.1.1 = length (List.filter scan_usable (take k list_of_scans)) ∧
  length st.1.2 = length st.1.1 ∧ length st.2 = length st.1.1 ∧
  length (concat st.1.2) = length (concat st.1.1) ∧
  length (concat st.2) = length (concat st.1.1) ∧
  (st.1.1 ≠ [] → concat st.1.1 ≠ []).

(** ** Occurrence of a text in a line *)

(** [old in s] *)
Definition occurs (old s : string) : Prop := ∃ a b, s = a +:+ old +:+ b.

(** ** parse.py: BAF data *)

(** Rows of the tables of [analysis.sqlite].  Columns that the code passes
    through [int(...)] and that the database may leave empty are floats, as
    pandas reads them. *)
Record SpectraRow := {
  sp_Id : Z; sp_AcquisitionKey : Z; sp_Rt : Q; sp_Parent : pyfloat;
  sp_LineMzId : pyfloat; sp_LineIntensityId : pyfloat;
  sp_ProfileMzId : pyfloat; sp_ProfileIntensityId : pyfloat }.

Record AcquisitionKeysRow := { ak_Id : Z; ak_Polarity : Z; ak_ScanMode : Z }.

Record VariablesRow := { va_Spectrum : Z; va_Variable : Z; va_Value : pyfloat }.

Record StepsRow := { st_TargetSpectrum : Z; st_Mass : Q }.

(** [baf_data]: the tables of [baf_data.analysis] and the SDK function
    [read_double] applied to the file's handle. *)
Record BafData := {
  Spectra : list SpectraRow;
  AcquisitionKeys : list AcquisitionKeysRow;
  Variables : list VariablesRow;
  Steps : list StepsRow;
  read_double : Z → list Q }.

Definition get_baf_spectrum_polarity (acquisitionkey_dict : AcquisitionKeysRow)
  : result string :=
  if decide (ak_Polarity acquisitionkey_dict = 0) then Ok "+"
  else if decide (ak_Polarity acquisitionkey_dict = 1) then Ok "-"
  else Raise UnboundLocalError.

Definition populate_scan_dict_w_baf_metadata
    (scan_dict : ScanDict) (frames_dict : SpectraRow)
    (acquisitionkey_dict : AcquisitionKeysRow) (mode : string) : result ScanDict :=
  polarity ← get_baf_spectrum_polarity acquisitionkey_dict;
  let scan_dict := <["polarity" := VStr polarity]> scan_dict in
  '(centroided, _) ← get_centroid_status mode None;
  let scan_dict := <["centroided" := VBool centroided]> scan_dict in
  Ok (<["retention_time" := VFloat (Fl (sp_Rt frames_dict / 60))]> scan_dict).

(** [baf_data.analysis['Variables'][(Spectrum == frame) & (Variable == v)]
    .to_dict(orient='records')[0]['Value']] *)
Definition baf_variable (baf_data : BafData) (frame variable : Z) : result pyfloat :=
  row ← first (filter (λ r, va_Spectrum r = frame ∧ va_Variable r = variable)
                 (Variables baf_data));
  Ok (va_Value row).

(** [x / 2] on a float. *)
Definition half (x : pyfloat) : pyfloat :=
  match x with NaN => NaN | Fl q => Fl (q / 2) end.

(** [populate_scan_dict_w_bbcid_iscid_ms2] for the schema ['BAF'], where the
    collision energy is variable 5 of the spectrum. *)
Definition populate_scan_dict_w_bbcid_iscid_ms2_baf
    (scan_dict : ScanDict) (frame : Z) (baf_data : BafData) : result ScanDict :=
  let scan_dict := <["scan_type" := VStr "MSn spectrum"]> scan_dict in
  let scan_dict := <["ms_level" := VInt 2]> scan_dict in
  collision_energy ← baf_variable baf_data frame 5;
  let scan_dict := <["collision_energy" := VFloat collision_energy]> scan_dict in
  let scan_dict := <["frame" := VInt frame]> scan_dict in
  Ok (<["ms2_no_precursor" := VBool true]> scan_dict).

Definition populate_scan_dict_w_baf_ms2
    (scan_dict : ScanDict) (baf_data : BafData) (frames_dict : SpectraRow) (frame : Z)
  : result ScanDict :=
  let scan_dict := <["scan_type" := VStr "MSn spectrum"]> scan_dict in
  let scan_dict := <["ms_level" := VInt 2]> scan_dict in
  target_mz ← baf_variable baf_data frame 7;
  let scan_dict := <["target_mz" := VFloat target_mz]> scan_dict in
  isolation_width ← baf_variable baf_data frame 8;
  let scan_dict := <["isolation_lower_offset" := VFloat (half isolation_width)]> scan_dict in
  let scan_dict := <["isolation_upper_offset" := VFloat (half isolation_width)]> scan_dict in
  steps_dict ← first (rows_where st_TargetSpectrum frame (Steps baf_data));
  let scan_dict := <["selected_ion_mz" := VFloat (Fl (st_Mass steps_dict))]> scan_dict in
  charge_state ← baf_variable baf_data frame 6;
  let scan_dict := <["charge_state" := VFloat charge_state]> scan_dict in
  collision_energy ← baf_variable baf_data frame 5;
  let scan_dict := <["collision_energy" := VFloat collision_energy]> scan_dict in
  parent ← py_int (sp_Parent frames_dict);
  Ok (<["parent_frame" := VInt parent]> scan_dict).

Definition extract_baf_spectrum
    (baf_data : BafData) (frames_dict : SpectraRow) (mode : string)
    (profile_bins encoding : Z) : result (list Q * list Q) :=
  if decide (mode = "raw" ∨ mode = "centroid") then
    mz_id ← py_int (sp_LineMzId frames_dict);
    let mz_array := read_double baf_data mz_id in
    intensity_id ← py_int (sp_LineIntensityId frames_dict);
    let intensity_array := read_double baf_data intensity_id in
    Ok (mz_array, intensity_array)
  else if decide (mode = "profile") then
    mz_id ← py_int (sp_ProfileMzId frames_dict);
    let mz_array := read_double baf_data mz_id in
    intensity_id ← py_int (sp_ProfileIntensityId frames_dict);
    let intensity_array := read_double baf_data intensity_id in
    if decide (profile_bins ≠ 0) then
      bin_profile_spectrum mz_array intensity_array profile_bins encoding
    else Ok (mz_array, intensity_array)
  else Raise UnboundLocalError.

(** Body of the loop of [parse_lcms_baf] over the frames of the window. *)
Definition parse_lcms_baf_frame (baf_data : BafData) (mode : string) (ms2_only : bool)
    (profile_bins encoding : Z) (st : list ScanDict * list ScanDict) (frame : Z)
  : result (list ScanDict * list ScanDict) :=
  let '(list_of_parent_scans, list_of_product_scans) := st in
  let scan_dict := init_scan_dict in
  frames_dict ← first (rows_where sp_Id frame (Spectra baf_data));
  acquisitionkey_dict ←
    first (rows_where ak_Id (sp_AcquisitionKey frames_dict) (AcquisitionKeys baf_data));
  scan_dict ← populate_scan_dict_w_baf_metadata scan_dict frames_dict acquisitionkey_dict
                 mode;
  '(mz_array, intensity_array) ←
    extract_baf_spectrum baf_data frames_dict mode profile_bins encoding;
  if scan_usable (mz_array, intensity_array) then
    scan_dict ← populate_scan_dict_w_spectrum_data scan_dict mz_array intensity_array;
    if bool_decide (ak_ScanMode acquisitionkey_dict = 0) && negb ms2_only then
      let scan_dict := populate_scan_dict_w_ms1 scan_dict frame in
      Ok (list_of_parent_scans ++ [scan_dict], list_of_product_scans)
    else if decide (ak_ScanMode acquisitionkey_dict = 2) then
      scan_dict ← populate_scan_dict_w_baf_ms2 scan_dict baf_data frames_dict frame;
      Ok (list_of_parent_scans, list_of_product_scans ++ [scan_dict])
    else if decide (ak_ScanMode acquisitionkey_dict = 4) then
      scan_dict ← populate_scan_dict_w_bbcid_iscid_ms2_baf scan_dict frame baf_data;
      Ok (list_of_parent_scans ++ [scan_dict], list_of_product_scans)
    else if decide (ak_ScanMode acquisitionkey_dict = 5) then
      scan_dict ← populate_scan_dict_w_bbcid_iscid_ms2_baf scan_dict frame baf_data;
      Ok (list_of_parent_scans ++ [scan_dict], list_of_product_scans)
    else Ok (list_of_parent_scans, list_of_product_scans)
  else Ok (list_of_parent_scans, list_of_product_scans).

Definition parse_lcms_baf (baf_data : BafData) (frame_start frame_stop : Z)
    (mode : string) (ms2_only : bool) (profile_bins encoding : Z)
  : result (list ScanDict * list ScanDict) :=
  for_each (parse_lcms_baf_frame baf_data mode ms2_only profile_bins encoding)
    (seqZ frame_start (frame_stop - frame_start)) ([], []).

(** ** A sample BAF acquisition *)

Module BafSamples.

Definition spectrum_row (id key : Z) (parent : pyfloat) : SpectraRow :=
  {| sp_Id := id; sp_AcquisitionKey := key; sp_Rt := inject_Z id; sp_Parent := parent;
     sp_LineMzId := Fl (inject_Z (2 * id)); sp_LineIntensityId := Fl (inject_Z (2 * id + 1));
     sp_ProfileMzId := NaN; sp_ProfileIntensityId := NaN |}.

(** An Auto MS/MS acquisition: MS1 spectra 1 and 3 (acquisition key 1,
    scan mode 0), MS/MS spectrum 2 (key 2, scan mode 2) with parent 1. *)
Definition auto_msms : BafData :=
  {| Spectra := [spectrum_row 1 1 NaN; spectrum_row 2 2 (Fl 1); spectrum_row 3 1 NaN];
     AcquisitionKeys := [ {| ak_Id := 1; ak_Polarity := 0; ak_ScanMode := 0 |};
                          {| ak_Id := 2; ak_Polarity := 0; ak_ScanMode := 2 |} ];
     Variables := [ {| va_Spectrum := 2; va_Variable := 5; va_Value := Fl 30 |};
                    {| va_Spectrum := 2; va_Variable := 6; va_Value := Fl 2 |};
                    {| va_Spectrum := 2; va_Variable := 7; va_Value := Fl 500 |};
                    {| va_Spectrum := 2; va_Variable := 8; va_Value := Fl 4 |} ];
     Steps := [ {| st_TargetSpectrum := 2; st_Mass := 500 |} ];
     read_double := λ id, if Z.even id then [100; 200]%Q else [5; 7]%Q |}.

Definition parser (data : BafData) (mode : string) (ms2_only : bool)
    (frame_start frame_stop : Z) : result (list ScanDict * list ScanDict) :=
  parse_lcms_baf data frame_start frame_stop mode ms2_only 0 64.

(** The records of a window, empty when the parser raises. *)
Definition window (data : BafData) (mode : string) (ms2_only : bool)
    (frame_start frame_stop : Z) : list ScanDict * list ScanDict :=
  match parser data mode ms2_only frame_start frame_stop with
  | Ok r => r
  | Raise _ => ([], [])
  end.

(** Whether the parser returns normally on a window. *)
Definition parses (data : BafData) (mode : string) (ms2_only : bool)
    (frame_start frame_stop : Z) : bool :=
  match parser data mode ms2_only frame_start frame_stop with
  | Ok _ => true
  | Raise _ => false
  end.

End BafSamples.

(** ** parse.py: TSF data and MALDI metadata *)

(** [tsf_data]: the tables of [tsf_data.analysis] the parsers read, the view
    [frames] the writers read (a field of its own, as for [TdfData]), and the
    SDK functions applied to the file's handle. *)
Record TsfData := {
  tsf_Frames : list FramesRow;
  tsf_FrameMsMsInfo : list FrameMsMsInfoRow;
  tsf_frames : list FramesRow;
  tsf_read_line_spectrum_v2 : Z → list Q * list Q;
  tsf_read_profile_spectrum_v2 : Z → list Q * list Q;
  tsf_index_to_mz : Z → list Q → list Q }.

Record MaldiFrameInfoRow := {
  mf_Frame : Z; mf_SpotName : string;
  mf_XIndexPos : Z; mf_YIndexPos : Z; mf_ZIndexPos : Z }.

(** What the MALDI parsers read besides the frames: the application type of
    [GlobalMetadata], the table [MaldiFrameInfo] and whether it has a column
    [ZIndexPos]. *)
Record MaldiInfo := {
  MaldiApplicationType : string;
  MaldiFrameInfo : list MaldiFrameInfoRow;
  has_ZIndexPos : bool }.

(** The spot name, or the tuple of pixel indices, kept as the array of its
    components. *)
Definition get_maldi_coords (data : MaldiInfo) (maldiframeinfo_dict : MaldiFrameInfoRow)
  : result pyval :=
  if decide (MaldiApplicationType data = "SingleSpectra") then
    Ok (VStr (mf_SpotName maldiframeinfo_dict))
  else if decide (MaldiApplicationType data = "Imaging") then
    let coords := [mf_XIndexPos maldiframeinfo_dict; mf_YIndexPos maldiframeinfo_dict] in
    let coords :=
      if has_ZIndexPos data then coords ++ [mf_ZIndexPos maldiframeinfo_dict]
      else coords in
    Ok (VArr (inject_Z <$> coords))
  else Raise UnboundLocalError.

Definition populate_scan_dict_w_maldi_metadata
    (scan_dict : ScanDict) (data : MaldiInfo) (frames_dict : FramesRow)
    (maldiframeinfo_dict : MaldiFrameInfoRow) (frame : Z) (mode : string)
  : result ScanDict :=
  coord ← get_maldi_coords data maldiframeinfo_dict;
  let scan_dict := <["coord" := coord]> scan_dict in
  let scan_dict := <["polarity" := VStr (fr_Polarity frames_dict)]> scan_dict in
  '(centroided, _) ← get_centroid_status mode None;
  let scan_dict := <["centroided" := VBool centroided]> scan_dict in
  let scan_dict := <["retention_time" := VInt 0]> scan_dict in
  Ok (<["frame" := VInt frame]> scan_dict).

Definition extract_tsf_spectrum
    (tsf_data : TsfData) (mode : string) (frame : Z) (profile_bins encoding : Z)
  : result (list Q * list Q) :=
  if decide (mode = "raw" ∨ mode = "centroid") then
    let '(index_buf, intensity_array) := tsf_read_line_spectrum_v2 tsf_data frame in
    let mz_array := tsf_index_to_mz tsf_data frame index_buf in
    Ok (mz_array, intensity_array)
  else if decide (mode = "profile") then
    let '(index_buf, intensity_array) := tsf_read_profile_spectrum_v2 tsf_data frame in
    let mz_array := tsf_index_to_mz tsf_data frame index_buf in
    if decide (profile_bins ≠ 0) then
      bin_profile_spectrum mz_array intensity_array profile_bins encoding
    else Ok (mz_array, intensity_array)
  else Raise UnboundLocalError.

Section parse_tsf.
Context (MSMS_TYPE_CATEGORY : MsMsTypeCategory) (tsf_data : TsfData).
Context (mode : string) (ms2_only : bool) (profile_bins encoding : Z).

(** Body of the loop of [parse_lcms_tsf]. *)
Definition parse_lcms_tsf_frame (st : list ScanDict * list ScanDict) (frame : Z)
  : result (list ScanDict * list ScanDict) :=
  let '(list_of_parent_scans, list_of_product_scans) := st in
  let scan_dict := init_scan_dict in
  frames_dict ← first (rows_where fr_Id frame (tsf_Frames tsf_data));
  scan_dict ← populate_scan_dict_w_lcms_tsf_tdf_metadata scan_dict frames_dict mode None;
  '(mz_array, intensity_array) ←
    extract_tsf_spectrum tsf_data mode frame profile_bins encoding;
  if scan_usable (mz_array, intensity_array) then
    scan_dict ← populate_scan_dict_w_spectrum_data scan_dict mz_array intensity_array;
    if bool_decide (fr_MsMsType frames_dict ∈ cat_ms1 MSMS_TYPE_CATEGORY) && negb ms2_only
    then
      let scan_dict := populate_scan_dict_w_ms1 scan_dict frame in
      Ok (list_of_parent_scans ++ [scan_dict], list_of_product_scans)
    else if bool_decide (fr_MsMsType frames_dict ∈ cat_ms2 MSMS_TYPE_CATEGORY) then
      framemsmsinfo_dict ←
        first (rows_where fm_Frame frame (tsf_FrameMsMsInfo tsf_data));
      if decide (fr_ScanMode frames_dict = 1) then
        let scan_dict := populate_scan_dict_w_tsf_ms2 scan_dict framemsmsinfo_dict true in
        Ok (list_of_parent_scans, list_of_product_scans ++ [scan_dict])
      else if decide (fr_ScanMode frames_dict = 4) then
        let scan_dict :=
          populate_scan_dict_w_bbcid_iscid_ms2 scan_dict frame framemsmsinfo_dict in
        Ok (list_of_parent_scans ++ [scan_dict], list_of_product_scans)
      else if decide (fr_ScanMode frames_dict = 2) then
        let scan_dict := populate_scan_dict_w_tsf_ms2 scan_dict framemsmsinfo_dict false in
        Ok (list_of_parent_scans ++ [scan_dict], list_of_product_scans)
      else Ok (list_of_parent_scans, list_of_product_scans)
    else Ok (list_of_parent_scans, list_of_product_scans)
  else Ok (list_of_parent_scans, list_of_product_scans).

Definition parse_lcms_tsf (frame_start frame_stop : Z)
  : result (list ScanDict * list ScanDict) :=
  for_each parse_lcms_tsf_frame (seqZ frame_start (frame_stop - frame_start)) ([], []).

Context (maldi : MaldiInfo).

(** Body of the loop of [parse_maldi_tsf]. *)
Definition parse_maldi_tsf_frame (list_of_scan_dicts : list ScanDict) (frame : Z)
  : result (list ScanDict) :=
  let scan_dict := init_scan_dict in
  frames_dict ← first (rows_where fr_Id frame (tsf_Frames tsf_data));
  maldiframeinfo_dict ← first (rows_where mf_Frame frame (MaldiFrameInfo maldi));
  scan_dict ← populate_scan_dict_w_maldi_metadata scan_dict maldi frames_dict
                 maldiframeinfo_dict frame mode;
  '(mz_array, intensity_array) ←
    extract_tsf_spectrum tsf_data mode frame profile_bins encoding;
  if scan_usable (mz_array, intensity_array) then
    scan_dict ← populate_scan_dict_w_spectrum_data scan_dict mz_array intensity_array;
    if bool_decide (fr_MsMsType frames_dict ∈ cat_ms1 MSMS_TYPE_CATEGORY) && negb ms2_only
    then
      let scan_dict := populate_scan_dict_w_ms1 scan_dict frame in
      Ok (list_of_scan_dicts ++ [scan_dict])
    else if bool_decide (fr_MsMsType frames_dict ∈ cat_ms2 MSMS_TYPE_CATEGORY) then
      framemsmsinfo_dict ←
        first (rows_where fm_Frame (mf_Frame maldiframeinfo_dict)
                 (tsf_FrameMsMsInfo tsf_data));
      let scan_dict := populate_scan_dict_w_tsf_ms2 scan_dict framemsmsinfo_dict false in
      Ok (list_of_scan_dicts ++ [scan_dict])
    else Ok list_of_scan_dicts
  else Ok list_of_scan_dicts.

Definition parse_maldi_tsf (frame_start frame_stop : Z) : result (list ScanDict) :=
  for_each parse_maldi_tsf_frame (seqZ frame_start (frame_stop - frame_start)) [].

End parse_tsf.

Section parse_maldi_tdf.
Context (MSMS_TYPE_CATEGORY : MsMsTypeCategory) (tdf_data : TdfData) (maldi : MaldiInfo).
Context (mode : string) (ms2_only : bool).
Context (exclude_mobility : option bool) (profile_bins encoding : Z).

(** Body of the loop of [parse_maldi_tdf]; [exclude_mobility] is the flag
    as [get_centroid_status] returned it. *)
Definition parse_maldi_tdf_frame (list_of_scan_dicts : list ScanDict) (frame : Z)
  : result (list ScanDict) :=
  let scan_dict := init_scan_dict in
  frames_dict ← first (rows_where fr_Id frame (Frames tdf_data));
  maldiframeinfo_dict ← first (rows_where mf_Frame frame (MaldiFrameInfo maldi));
  scan_dict ← populate_scan_dict_w_maldi_metadata scan_dict maldi frames_dict
                 maldiframeinfo_dict frame mode;
  if bool_decide (fr_MsMsType frames_dict ∈ cat_ms1 MSMS_TYPE_CATEGORY) && negb ms2_only
  then
    let scan_dict := <["scan_type" := VStr "MS1 spectrum"]> scan_dict in
    let scan_dict := <["ms_level" := VInt 1]> scan_dict in
    '(mz_array, intensity_array, mobility_array) ←
      extract_frame_arrays tdf_data mode frame 0 (fr_NumScans frames_dict)
        exclude_mobility profile_bins encoding;
    arrays_usable mz_array intensity_array ≫= λ usable : bool,
    if usable then
      scan_dict ← store_arrays scan_dict exclude_mobility mz_array intensity_array
                     mobility_array;
      Ok (list_of_scan_dicts ++ [scan_dict])
    else Ok list_of_scan_dicts
  else if bool_decide (fr_MsMsType frames_dict ∈ cat_ms2 MSMS_TYPE_CATEGORY) then
    framemsmsinfo_dict ←
      first (rows_where fm_Frame (mf_Frame maldiframeinfo_dict) (FrameMsMsInfo tdf_data));
    '(mz_array, intensity_array, mobility_array) ←
      extract_frame_arrays tdf_data mode frame 0 (fr_NumScans frames_dict)
        exclude_mobility profile_bins encoding;
    arrays_usable mz_array intensity_array ≫= λ usable : bool,
    if usable then
      scan_dict ← store_arrays scan_dict exclude_mobility mz_array intensity_array
                     mobility_array;
      let scan_dict := populate_scan_dict_w_tsf_ms2 scan_dict framemsmsinfo_dict false in
      Ok (list_of_scan_dicts ++ [scan_dict])
    else Ok list_of_scan_dicts
  else Ok list_of_scan_dicts.

End parse_maldi_tdf.

Definition parse_maldi_tdf (MSMS_TYPE_CATEGORY : MsMsTypeCategory) (tdf_data : TdfData)
    (maldi : MaldiInfo) (frame_start frame_stop : Z) (mode : string) (ms2_only : bool)
    (exclude_mobility : option bool) (profile_bins encoding : Z)
  : result (list ScanDict) :=
  '(_, exclude_mobility) ← get_centroid_status mode exclude_mobility;
  for_each
    (parse_maldi_tdf_frame MSMS_TYPE_CATEGORY tdf_data maldi mode ms2_only
       exclude_mobility profile_bins encoding)
    (seqZ frame_start (frame_stop - frame_start)) [].

(** ** write.py: MALDI dried-droplet spectra *)

(** [x is not None] on a stored value, as an optional argument. *)
Definition not_None (v : pyval) : option pyval :=
  match v with VNone => None | _ => Some v end.

(** The arguments [write_maldi_dd_ms1_spectrum] evaluates before it calls
    [writer.write_spectrum]; [schema_tdf] is [data.meta_data['SchemaType'] ==
    'TDF']. *)
Definition maldi_ms1_spectrum_call (schema_tdf : bool) (scan : ScanDict) (encoding : Z)
    (title : pyval) : result SpectrumCall :=
  params ← (
    scan_type ← getitem scan "scan_type";
    ms_level ← getitem scan "ms_level";
    tic ← getitem scan "total_ion_current";
    bp_mz ← getitem scan "base_peak_mz";
    bp_int ← getitem scan "base_peak_intensity";
    high_mz ← getitem scan "high_mz";
    low_mz ← getitem scan "low_mz";
    coord ← getitem scan "coord";
    Ok [("scan_type", scan_type); ("ms level", ms_level); ("total ion current", tic);
        ("base peak m/z", bp_mz); ("base peak intensity", bp_int);
        ("highest observed m/z", high_mz); ("lowest observed m/z", low_mz);
        ("maldi spot identifier", coord); ("spectrum title", title)]);
  other_arrays ← (
    if schema_tdf then
      ms_level ← getitem scan "ms_level";
      if py_eqb ms_level (VInt 1) then
        mobility_array ← getitem scan "mobility_array";
        Ok (not_None mobility_array)
      else Ok None
    else Ok None);
  _ ← encoding_dtype encoding;
  mz_array ← getitem scan "mz_array";
  intensity_array ← getitem scan "intensity_array";
  scan_number ← getitem scan "scan_number";
  polarity ← getitem scan "polarity";
  centroided ← getitem scan "centroided";
  retention_time ← getitem scan "retention_time";
  Ok {| call_mz_array := mz_array; call_intensity_array := intensity_array;
        call_id := scan_number; call_polarity := polarity;
        call_centroided := centroided; call_scan_start_time := retention_time;
        call_other_arrays := other_arrays; call_params := params;
        call_precursor_information := None |}.

Definition write_maldi_dd_ms1_spectrum (schema_tdf : bool) (scan : ScanDict)
    (encoding : Z) (title : pyval) : Sink () :=
  args ← lift (maldi_ms1_spectrum_call schema_tdf scan encoding title);
  write_spectrum args.

(** The arguments [write_maldi_dd_ms2_spectrum] evaluates before it calls
    [writer.write_spectrum].  Its precursor information has no ['params'] and
    no ['intensity'] entry, and no [spectrum_reference]. *)
Definition maldi_ms2_spectrum_call (scan : ScanDict) (encoding : Z) (title : pyval)
  : result SpectrumCall :=
  params ← (
    scan_type ← getitem scan "scan_type";
    ms_level ← getitem scan "ms_level";
    tic ← getitem scan "total_ion_current";
    let p := [("scan_type", scan_type); ("ms level", ms_level); ("total ion current", tic);
              ("spectrum title", title)] in
    p ← (if has_key scan "base_peak_mz" && has_key scan "base_peak_intensity"
         then bp_mz ← getitem scan "base_peak_mz";
              bp_int ← getitem scan "base_peak_intensity";
              Ok (p ++ [("base peak m/z", bp_mz); ("base peak intensity", bp_int)])
         else Ok p);
    if has_key scan "high_mz" && has_key scan "low_mz"
    then high_mz ← getitem scan "high_mz";
         low_mz ← getitem scan "low_mz";
         Ok (p ++ [("highest observed m/z", high_mz); ("lowest observed m/z", low_mz)])
    else Ok p);
  precursor_info ← (
    mz ← getitem scan "selected_ion_mz";
    ce ← getitem scan "collision_energy";
    target ← getitem scan "target_mz";
    upper ← getitem scan "isolation_upper_offset";
    lower ← getitem scan "isolation_lower_offset";
    charge_state ← getitem scan "charge_state";
    Ok {| pi_mz := mz; pi_collision_energy := ce; pi_target := target;
          pi_upper := upper; pi_lower := lower; pi_params := [];
          pi_intensity := None; pi_charge := not_None charge_state;
          pi_spectrum_reference := None |});
  _ ← encoding_dtype encoding;
  mz_array ← getitem scan "mz_array";
  intensity_array ← getitem scan "intensity_array";
  scan_number ← getitem scan "scan_number";
  polarity ← getitem scan "polarity";
  centroided ← getitem scan "centroided";
  retention_time ← getitem scan "retention_time";
  Ok {| call_mz_array := mz_array; call_intensity_array := intensity_array;
        call_id := scan_number; call_polarity := polarity;
        call_centroided := centroided; call_scan_start_time := retention_time;
        call_other_arrays := None; call_params := params;
        call_precursor_information := Some precursor_info |}.

Definition write_maldi_dd_ms2_spectrum (scan : ScanDict) (encoding : Z) (title : pyval)
  : Sink () :=
  args ← lift (maldi_ms2_spectrum_call scan encoding title);
  write_spectrum args.

(** ** write.py: [write_maldi_dd_mzml], all spectra combined in one file *)

(** The data of a MALDI run: a TSF or a TDF file with its MALDI metadata;
    for another schema [list_of_scan_dicts] stays unassigned. *)
Inductive MaldiData :=
  | MaldiTsf (tsf_data : TsfData) (maldi : MaldiInfo)
  | MaldiTdf (tdf_data : TdfData) (maldi : MaldiInfo)
  | MaldiOther.

Definition schema_tdf (data : MaldiData) : bool :=
  match data with MaldiTdf _ _ => true | _ => false end.

(** [data.frames.shape[0]], which is also [len(list(data.frames['Id'].values))]. *)
Definition maldi_frames_shape_0 (data : MaldiData) : nat :=
  match data with
  | MaldiTsf tsf_data _ => length (tsf_frames tsf_data)
  | MaldiTdf tdf_data _ => length (frames tdf_data)
  | MaldiOther => 0
  end.

Section maldi_dd.
Context (MSMS_TYPE_CATEGORY : MsMsTypeCategory) (data : MaldiData).
Context (mode : string) (ms2_only : bool) (exclude_mobility : option bool).
Context (profile_bins encoding : Z).

(** The parser the schema selects, on all frames. *)
Definition parse_maldi (num_frames : Z) : result (list ScanDict) :=
  match data with
  | MaldiTsf tsf_data maldi =>
      parse_maldi_tsf MSMS_TYPE_CATEGORY tsf_data mode ms2_only profile_bins encoding
        maldi 1 num_frames
  | MaldiTdf tdf_data maldi =>
      parse_maldi_tdf MSMS_TYPE_CATEGORY tdf_data maldi 1 num_frames mode ms2_only
        exclude_mobility profile_bins encoding
  | MaldiOther => Raise UnboundLocalError
  end.

(** Body of the loop over [list_of_scan_dicts]. *)
Definition write_maldi_dd_scan (title : pyval) (scan_count : Z) (scan_dict : ScanDict)
  : Sink Z :=
  skip ← lift (if ms2_only then
                 ms_level ← getitem scan_dict "ms_level"; Ok (py_eqb ms_level (VInt 1))
               else Ok false);
  if (skip : bool) then mret scan_count
  else
    let scan_count := scan_count + 1 in
    let scan_dict := <["scan_number" := VInt scan_count]> scan_dict in
    ms_level ← lift (getitem scan_dict "ms_level");
    if py_eqb ms_level (VInt 1) then
      _ ← write_maldi_dd_ms1_spectrum (schema_tdf data) scan_dict encoding title;
      mret scan_count
    else if py_eqb ms_level (VInt 2) then
      _ ← write_maldi_dd_ms2_spectrum scan_dict encoding title;
      mret scan_count
    else mret scan_count.

(** The body of the [with writer] block of the mode ['combined']: the
    declared count and the count after the loop. *)
Definition write_maldi_dd_spectra (title : pyval) : Sink (Z * Z) :=
  let scan_count := 0 in
  let num_of_spectra := Z.of_nat (maldi_frames_shape_0 data) in
  let num_frames := Z.of_nat (maldi_frames_shape_0 data) + 1 in
  list_of_scan_dicts ← lift (parse_maldi num_frames);
  scan_count ← for_each_sink (write_maldi_dd_scan title) list_of_scan_dicts scan_count;
  mret (num_of_spectra, scan_count).

Context (preamble closing : list string) (render : SpectrumCall → list string).

(** [write_maldi_dd_mzml] with [maldi_output_file == 'combined']: the
    temporary file is written, then [update_spectra_count] copies it to the
    output file, whether or not the counts differ. *)
Definition write_maldi_dd_mzml_combined (title : pyval)
  : result Files * list SpectrumCall :=
  match write_maldi_dd_spectra title [] with
  | (Raise e, calls) => (Raise e, calls)
  | (Ok (num_of_spectra, scan_count), calls) =>
      let tmp := tmp_lines preamble closing render num_of_spectra calls in
      (Ok {| tmp_file := None;
             out_file := Some (update_spectra_count tmp num_of_spectra scan_count) |},
       calls)
  end.

End maldi_dd.

(** ** The records of a MALDI run *)

(** A record the MALDI parsers return for the frame [frame]: it has every
    key, holds a spectrum, carries the frame number and its spot or pixel, and
    is an MS1 record (only without [ms2_only]) or an MS2 record with a float
    charge state. *)
Definition maldi_record (ms2_only : bool) (frame : Z) (d : ScanDict) : Prop :=
  complete d = true ∧ holds_spectrum d ∧ d !! "frame" = Some (VInt frame) ∧
  (∃ coord, d !! "coord" = Some coord ∧ coord ≠ VNone) ∧
  (d !! "ms_level" = Some (VInt 1) ∧ ms2_only = false ∨
   d !! "ms_level" = Some (VInt 2) ∧ ∃ c, d !! "charge_state" = Some (VFloat c)).

(** At most one record per frame of [frame_start, frame_stop), in frame
    order. *)
Definition maldi_records (ms2_only : bool) (frame_start frame_stop : Z)
    (records : list ScanDict) : Prop :=
  ∃ frames_read,
    StronglySorted Z.lt frames_read ∧
    Forall (λ f, frame_start ≤ f < frame_stop) frames_read ∧
    Forall2 (maldi_record ms2_only) frames_read records.

(** The parameter [key] of a call, if it has one. *)
Definition call_param (key : string) (call : SpectrumCall) : option pyval :=
  snd <$> List.find (λ p, String.eqb p.1 key) (call_params call).

(** The call is the spectrum of the record, written under the number [n]:
    an MS1 record with its spot or pixel and no precursor, an MS2 record
    without a spot, with the charge state it holds. *)
Definition maldi_written (n : Z) (d : ScanDict) (call : SpectrumCall) : Prop :=
  call_id call = VInt n ∧
  d !! "mz_array" = Some (call_mz_array call) ∧
  d !! "intensity_array" = Some (call_intensity_array call) ∧
  (d !! "ms_level" = Some (VInt 1) →
     call_param "maldi spot identifier" call = d !! "coord" ∧
     call_precursor_information call = None) ∧
  (d !! "ms_level" = Some (VInt 2) →
     call_param "maldi spot identifier" call = None ∧
     call_precursor_information call ≫= pi_charge = d !! "charge_state").

(** The records with the numbers 1, 2, ... the run gives them. *)
Definition numbered_records (records : list ScanDict) : list (Z * ScanDict) :=
  zip (Z.of_nat <$> seq 1 (length records)) records.

(** ** A sample MALDI acquisition *)

Module MaldiSamples.

Definition spot (frame : Z) (name : string) : MaldiFrameInfoRow :=
  {| mf_Frame := frame; mf_SpotName := name;
     mf_XIndexPos := 0; mf_YIndexPos := 0; mf_ZIndexPos := 0 |}.

Definition spots : MaldiInfo :=
  {| MaldiApplicationType := "SingleSpectra";
     MaldiFrameInfo := [spot 1 "A1"; spot 2 "A2"; spot 3 "B1"];
     has_ZIndexPos := false |}.

(** Three frames of a TSF file: an MS1 spectrum, an MS/MS spectrum whose
    precursor charge is missing, and a frame that decodes to empty arrays. *)
Definition tsf : TsfData :=
  {| tsf_Frames := [Samples.frame_row 1 0 0 1; Samples.frame_row 2 2 0 1;
                    Samples.frame_row 3 0 0 1];
     tsf_FrameMsMsInfo := [Samples.msms_row 2];
     tsf_frames := [Samples.frame_row 1 0 0 1; Samples.frame_row 2 2 0 1;
                    Samples.frame_row 3 0 0 1];
     tsf_read_line_spectrum_v2 :=
       λ f, if decide (f = 3) then ([], []) else ([100; 200]%Q, [5; 7]%Q);
     tsf_read_profile_spectrum_v2 :=
       λ f, if decide (f = 3) then ([], []) else ([100; 200]%Q, [5; 7]%Q);
     tsf_index_to_mz := λ _ index, index |}.

Definition dried_droplet : MaldiData := MaldiTsf tsf spots.

Definition parser (data : MaldiData) (mode : string) (ms2_only : bool)
  : result (list ScanDict) :=
  parse_maldi Samples.categories data mode ms2_only None 0 64
    (Z.of_nat (maldi_frames_shape_0 data) + 1).

(** The records of the run, none when the parser raises. *)
Definition records (data : MaldiData) (mode : string) (ms2_only : bool)
  : list ScanDict :=
  match parser data mode ms2_only with
  | Ok r => r
  | Raise _ => []
  end.

(** Whether the parser returns normally. *)
Definition parses (data : MaldiData) (mode : string) (ms2_only : bool) : bool :=
  match parser data mode ms2_only with
  | Ok _ => true
  | Raise _ => false
  end.

End MaldiSamples.

Module TsfSamples.

(** An Auto MS/MS acquisition (scan mode 1): MS1 frames 1 and 3, MS/MS frame 2
    with parent 1 and precursor charge 2. *)
Definition auto_msms : TsfData :=
  {| tsf_Frames := [Samples.frame_row 1 0 1 1; Samples.frame_row 2 2 1 1;
                    Samples.frame_row 3 0 1 1];
     tsf_FrameMsMsInfo :=
       [ {| fm_Frame := 2; fm_Parent := 1; fm_TriggerMass := 500; fm_IsolationWidth := 4;
            fm_PrecursorCharge := Fl 2; fm_CollisionEnergy := 30 |} ];
     tsf_frames := [Samples.frame_row 1 0 1 1; Samples.frame_row 2 2 1 1;
                    Samples.frame_row 3 0 1 1];
     tsf_read_line_spectrum_v2 := λ _, ([100; 200]%Q, [5; 7]%Q);
     tsf_read_profile_spectrum_v2 := λ _, ([100; 200]%Q, [5; 7]%Q);
     tsf_index_to_mz := λ _ index, index |}.

Definition parser (data : TsfData) (mode : string) (ms2_only : bool)
    (frame_start frame_stop : Z) : result (list ScanDict * list ScanDict) :=
  parse_lcms_tsf Samples.categories data mode ms2_only 0 64 frame_start frame_stop.

(** The records of a window, empty when the parser raises. *)
Definition window (data : TsfData) (mode : string) (ms2_only : bool)
    (frame_start frame_stop : Z) : list ScanDict * list ScanDict :=
  match parser data mode ms2_only frame_start frame_stop with
  | Ok r => r
  | Raise _ => ([], [])
  end.

(** Whether the parser returns normally on a window. *)
Definition parses (data : TsfData) (mode : string) (ms2_only : bool)
    (frame_start frame_stop : Z) : bool :=
  match parser data mode ms2_only frame_start frame_stop with
  | Ok _ => true
  | Raise _ => false
  end.

End TsfSamples.

(** ** write.py: MALDI imaging runs, imzML *)

(** One call of [imzml_file.addSpectrum]: the three positional arguments and
    the keyword argument [mobilities], when it is given. *)
Record AddSpectrumCall := {
  add_mzs : pyval;
  add_intensities : pyval;
  add_coords : pyval;
  add_mobilities : option pyval }.

(** The imzML writer is the sequence of the spectra added to it; a
    computation may raise after some were added. *)
Definition ImzSink (A : Type) : Type :=
  list AddSpectrumCall → result A * list AddSpectrumCall.

Global Instance imz_ret : MRet ImzSink := λ A a w, (Ok a, w).
Global Instance imz_bind : MBind ImzSink := λ A B f m w,
  match m w with
  | (Ok a, w') => f a w'
  | (Raise e, w') => (Raise e, w')
  end.

Definition imz_lift {A} (r : result A) : ImzSink A := λ w, (r, w).

Definition addSpectrum (c : AddSpectrumCall) : ImzSink () := λ w, (Ok (), w ++ [c]).

Fixpoint for_each_imz {A} (body : A → ImzSink ()) (l : list A) : ImzSink () :=
  match l with
  | [] => mret ()
  | x :: l' => _ ← body x; for_each_imz body l'
  end.

(** The arguments of one [addSpectrum] call, read from the record. *)
Definition add_spectrum_args (with_mobilities : bool) (scan_dict : ScanDict)
  : result AddSpectrumCall :=
  mz_array ← getitem scan_dict "mz_array";
  intensity_array ← getitem scan_dict "intensity_array";
  coord ← getitem scan_dict "coord";
  mobilities ← (if with_mobilities then
                  mobility_array ← getitem scan_dict "mobility_array";
                  Ok (Some mobility_array)
                else Ok None);
  Ok {| add_mzs := mz_array; add_intensities := intensity_array; add_coords := coord;
        add_mobilities := mobilities |}.

Definition add_scan (with_mobilities : bool) (scan_dict : ScanDict) : ImzSink () :=
  args ← imz_lift (add_spectrum_args with_mobilities scan_dict);
  addSpectrum args.

Section maldi_ims.
Context (MSMS_TYPE_CATEGORY : MsMsTypeCategory) (data : MaldiData).
Context (mode : string) (exclude_mobility : bool) (profile_bins encoding : Z).

Definition write_maldi_ims_chunk_to_imzml (frame_start frame_stop : Z) : ImzSink () :=
  match data with
  | MaldiTsf tsf_data maldi =>
      list_of_scan_dicts ←
        imz_lift (parse_maldi_tsf MSMS_TYPE_CATEGORY tsf_data mode false profile_bins
                    encoding maldi frame_start frame_stop);
      for_each_imz (add_scan false) list_of_scan_dicts
  | MaldiTdf tdf_data maldi =>
      list_of_scan_dicts ←
        imz_lift (parse_maldi_tdf MSMS_TYPE_CATEGORY tdf_data maldi frame_start frame_stop
                    mode false (Some exclude_mobility) profile_bins encoding);
      let exclude_mobility :=
        if decide (mode = "profile") then true else exclude_mobility in
      if negb exclude_mobility then for_each_imz (add_scan true) list_of_scan_dicts
      else for_each_imz (add_scan false) list_of_scan_dicts
  | MaldiOther => mret ()
  end.

Definition write_ims_chunk_list (chunk_list : list (Z * Z)) : ImzSink () :=
  for_each_imz (λ '(frame_start, frame_stop),
                  write_maldi_ims_chunk_to_imzml frame_start frame_stop)
    chunk_list.

(** The [while ... else] over [frames] of [write_maldi_ims_imzml], with the
    loop variable [j] of the inner [for] as in [write_chunks]. *)
Fixpoint write_ims_chunks (frames : list Z) (frames_shape_0 : nat) (chunk_size : nat)
    (fuel : nat) (chunk : nat) (j : option Z) : ImzSink (option ()) :=
  match fuel with
  | O => mret None
  | S fuel' =>
      if decide (chunk + chunk_size + 1 ≤ length frames)%nat then
        let chunk_list :=
          zip (take chunk_size (drop chunk frames))
              (take chunk_size (drop (chunk + 1) frames)) in
        let j := loop_variable chunk_list j in
        _ ← imz_lift (first chunk_list);
        _ ← write_ims_chunk_list chunk_list;
        write_ims_chunks frames frames_shape_0 chunk_size fuel' (chunk + chunk_size) j
      else
        let pairs :=
          zip (drop chunk (take (length frames - 1) frames)) (drop (chunk + 1) frames) in
        match loop_variable pairs j with
        | None => imz_lift (Raise UnboundLocalError)
        | Some j =>
            let chunk_list := pairs ++ [(j, Z.of_nat frames_shape_0 + 1)] in
            _ ← write_ims_chunk_list chunk_list;
            mret (Some ())
        end
  end.

End maldi_ims.

(** [data.frames] of a MALDI run. *)
Definition maldi_frames (data : MaldiData) : list FramesRow :=
  match data with
  | MaldiTsf tsf_data _ => tsf_frames tsf_data
  | MaldiTdf tdf_data _ => frames tdf_data
  | MaldiOther => []
  end.

Inductive Compression := ZlibCompression | NoCompression.

(** The arguments [ImzMLWriter] is built with. *)
Record ImzMLWriterArgs := {
  iw_polarity : option string;
  iw_mode : string;
  iw_spec_type : bool;
  iw_dtype : Z;
  iw_compression : Compression;
  iw_include_mobility : bool }.

(** A local variable that only some branches assign. *)
Definition assigned {A} (x : option A) : result A :=
  match x with
  | Some a => Ok a
  | None => Raise UnboundLocalError
  end.

(** The polarity of the run: that of the frames when they all share it. *)
Definition imzml_polarity (frames_table : list FramesRow) : option string :=
  match remove_dups (fr_Polarity <$> frames_table) with
  | [p] => if decide (p = "+") then Some "positive"
           else if decide (p = "-") then Some "negative"
           else None
  | _ => None
  end.

(** The writer [write_maldi_ims_imzml] builds, with [exclude_mobility] as the
    chunks are written with; for a schema other than TSF and TDF [writer]
    stays unassigned. *)
Definition imzml_writer (data : MaldiData) (mode : string) (exclude_mobility : bool)
    (imzml_mode : string) (encoding : Z) (compression : string)
  : result (ImzMLWriterArgs * bool) :=
  let polarity := imzml_polarity (maldi_frames data) in
  let centroided :=
    if decide (mode = "profile") then Some false
    else if decide (mode = "centroid" ∨ mode = "raw") then Some true
    else None in
  let compression_object :=
    if decide (compression = "zlib") then Some ZlibCompression
    else if decide (compression = "none") then Some NoCompression
    else None in
  match data with
  | MaldiTsf _ _ =>
      centroided ← assigned centroided;
      dtype ← encoding_dtype encoding;
      compression_object ← assigned compression_object;
      Ok ({| iw_polarity := polarity; iw_mode := imzml_mode; iw_spec_type := centroided;
             iw_dtype := dtype; iw_compression := compression_object;
             iw_include_mobility := false |}, exclude_mobility)
  | MaldiTdf _ _ =>
      let exclude_mobility :=
        if decide (mode = "profile") then true else exclude_mobility in
      centroided ← assigned centroided;
      dtype ← encoding_dtype encoding;
      compression_object ← assigned compression_object;
      Ok ({| iw_polarity := polarity; iw_mode := imzml_mode; iw_spec_type := centroided;
             iw_dtype := dtype; iw_compression := compression_object;
             iw_include_mobility := negb exclude_mobility |}, exclude_mobility)
  | MaldiOther => Raise UnboundLocalError
  end.

(** [write_maldi_ims_imzml]: the writer's arguments and the spectra added
    to it; [None] stands for the exhaustion of the loop's fuel. *)
Definition write_maldi_ims_imzml (MSMS_TYPE_CATEGORY : MsMsTypeCategory)
    (data : MaldiData) (mode : string) (exclude_mobility : bool) (profile_bins : Z)
    (imzml_mode : string) (encoding : Z) (compression : string) (chunk_size : nat)
  : option (result ImzMLWriterArgs * list AddSpectrumCall) :=
  match imzml_writer data mode exclude_mobility imzml_mode encoding compression with
  | Raise e => Some (Raise e, [])
  | Ok (writer, exclude_mobility) =>
      let frame_ids := fr_Id <$> maldi_frames data in
      match write_ims_chunks MSMS_TYPE_CATEGORY data mode exclude_mobility profile_bins
              encoding frame_ids (length (maldi_frames data)) chunk_size
              (S (length frame_ids)) 0%nat None [] with
      | (Ok None, _) => None
      | (Ok (Some _), calls) => Some (Ok writer, calls)
      | (Raise e, calls) => Some (Raise e, calls)
      end
  end.

(** ** The spectra of an imaging run *)

(** The records of the window [frame_start, frame_stop) of an imaging run,
    parsed in one pass. *)
Definition ims_window_records (MSMS_TYPE_CATEGORY : MsMsTypeCategory) (data : MaldiData)
    (mode : string) (exclude_mobility : bool) (profile_bins encoding : Z)
    (frame_start frame_stop : Z) : result (list ScanDict) :=
  match data with
  | MaldiTsf tsf_data maldi =>
      parse_maldi_tsf MSMS_TYPE_CATEGORY tsf_data mode false profile_bins encoding maldi
        frame_start frame_stop
  | MaldiTdf tdf_data maldi =>
      parse_maldi_tdf MSMS_TYPE_CATEGORY tdf_data maldi frame_start frame_stop mode false
        (Some exclude_mobility) profile_bins encoding
  | MaldiOther => Ok []
  end.

(** Whether the spectra of the run are added with their mobility arrays. *)
Definition ims_mobility (data : MaldiData) (mode : string) (exclude_mobility : bool)
  : bool :=
  match data with
  | MaldiTdf _ _ => negb (if decide (mode = "profile") then true else exclude_mobility)
  | _ => false
  end.

(** The call adds the spectrum of the record [d] at its spot or pixel, with
    its mobility array exactly when the writer includes mobilities. *)
Definition added (include_mobility : bool) (d : ScanDict) (call : AddSpectrumCall) : Prop :=
  d !! "mz_array" = Some (add_mzs call) ∧
  d !! "intensity_array" = Some (add_intensities call) ∧
  d !! "coord" = Some (add_coords call) ∧
  add_mobilities call = if include_mobility then d !! "mobility_array" else None.

(** The record holds a mobility value for every m/z value. *)
Definition holds_mobilities (d : ScanDict) : Prop :=
  ∃ mz_array mobility_array,
    d !! "mz_array" = Some (VArr mz_array) ∧
    d !! "mobility_array" = Some (VArr mobility_array) ∧
    length mobility_array = length mz_array.

Module ImsSamples.

Definition pixel (frame x y : Z) : MaldiFrameInfoRow :=
  {| mf_Frame := frame; mf_SpotName := EmptyString;
     mf_XIndexPos := x; mf_YIndexPos := y; mf_ZIndexPos := 0 |}.

Definition pixels : MaldiInfo :=
  {| MaldiApplicationType := "Imaging";
     MaldiFrameInfo := [pixel 1 0 0; pixel 2 1 0; pixel 3 2 0];
     has_ZIndexPos := false |}.

(** An image of three pixels in a TSF file; the third frame decodes to empty
    arrays. *)
Definition tsf_image : MaldiData := MaldiTsf MaldiSamples.tsf pixels.

(** An image of one pixel in a TSF file. *)
Definition one_pixel : MaldiData :=
  MaldiTsf {| tsf_Frames := [Samples.frame_row 1 0 0 1];
              tsf_FrameMsMsInfo := [];
              tsf_frames := [Samples.frame_row 1 0 0 1];
              tsf_read_line_spectrum_v2 := λ _, ([100; 200]%Q, [5; 7]%Q);
              tsf_read_profile_spectrum_v2 := λ _, ([100; 200]%Q, [5; 7]%Q);
              tsf_index_to_mz := λ _ index, index |} pixels.

(** A pixel of a TDF file whose frame has two sub-scans, at two
    mobilities. *)
Definition tdf_image : MaldiData := MaldiTdf Samples.two_mobilities pixels.

Definition run (data : MaldiData) (mode : string) (exclude_mobility : bool)
    (chunk_size : nat) : option (result ImzMLWriterArgs * list AddSpectrumCall) :=
  write_maldi_ims_imzml Samples.categories data mode exclude_mobility 0 "processed" 64
    "zlib" chunk_size.

Definition records (data : MaldiData) (mode : string) (exclude_mobility : bool)
    (frame_start frame_stop : Z) : list ScanDict :=
  match ims_window_records Samples.categories data mode exclude_mobility 0 64
          frame_start frame_stop with
  | Ok r => r
  | Raise _ => []
  end.

Definition parses (data : MaldiData) (mode : string) (exclude_mobility : bool)
    (frame_start frame_stop : Z) : bool :=
  match ims_window_records Samples.categories data mode exclude_mobility 0 64
          frame_start frame_stop with
  | Ok _ => true
  | Raise _ => false
  end.

End ImsSamples.

(** * Properties *)

(** ** The error monad *)

Lemma bind_Ok {A B} (m : result A) (f : A → result B) b :
  m ≫= f = Ok b ↔ ∃ a, m = Ok a ∧ f a = Ok b.
Proof.
  destruct m as [a|e]; simpl; split.
  - intros H. by exists a.
  - by intros (a' & [= ->] & H).
  - discriminate.
  - by intros (a' & [=] & _).
Qed.

Ltac inv_result :=
  repeat match goal with
  | H : _ ≫= _ = Ok _ |- _ => apply bind_Ok in H as (? & ? & H)
  | H : Ok _ = Ok _ |- _ => injection H as H; try subst
  | H : Raise _ = Ok _ |- _ => discriminate H
  | H : (let '(_, _) := ?p in _) = Ok _ |- _ => destruct p
  | H : (if ?c then _ else _) = Ok _ |- _ => destruct c eqn:?
  | H : match ?c with _ => _ end = Ok _ |- _ => destruct c eqn:?
  end.

Lemma for_each_inv {A S} (P : S → Prop) (body : S → A → result S) l : ∀ s s',
  (∀ s x s', P s → body s x = Ok s' → P s') →
  P s → for_each body l s = Ok s' → P s'.
Proof.
  induction l as [|x l IH]; simpl; intros s s' Hb Hs H.
  - by injection H as <-.
  - apply bind_Ok in H as (s1 & H1 & H2). eauto.
Qed.

Lemma Forall_snoc {A} (P : A → Prop) l x : Forall P l → P x → Forall P (l ++ [x]).
Proof. intros. apply Forall_app. auto. Qed.

(** ** Keys a populating step leaves alone *)

Ltac keeps_key f :=
  unfold f; intros; inv_result; rewrite ?lookup_insert_ne by done; done.

Lemma metadata_mobility d fr mode e d' :
  populate_scan_dict_w_lcms_tsf_tdf_metadata d fr mode e = Ok d' →
  d' !! "mobility_array" = d !! "mobility_array".
Proof. keeps_key populate_scan_dict_w_lcms_tsf_tdf_metadata. Qed.

Lemma spectrum_data_mobility d mz it d' :
  populate_scan_dict_w_spectrum_data d mz it = Ok d' →
  d' !! "mobility_array" = d !! "mobility_array".
Proof. keeps_key populate_scan_dict_w_spectrum_data. Qed.

Lemma ddapasef_mobility d data p ps d' :
  populate_scan_dict_w_ddapasef_ms2 d data p ps = Ok d' →
  d' !! "mobility_array" = d !! "mobility_array".
Proof. keeps_key populate_scan_dict_w_ddapasef_ms2. Qed.

Lemma prmpasef_mobility d data p t d' :
  populate_scan_dict_w_prmpasef_ms2 data d p t = Ok d' →
  d' !! "mobility_array" = d !! "mobility_array".
Proof. keeps_key populate_scan_dict_w_prmpasef_ms2. Qed.

Lemma store_arrays_excluded d mz it mob d' :
  store_arrays d (Some true) mz it mob = Ok d' →
  d' !! "mobility_array" = d !! "mobility_array".
Proof.
  unfold store_arrays. intros H. apply bind_Ok in H as (d1 & H1 & H).
  simpl in H. injection H as <-. by eapply spectrum_data_mobility.
Qed.

(** ** Profile mode excludes mobility *)

Section profile_mode.
Context (C : MsMsTypeCategory) (data : TdfData) (a b : Z) (mode : string).
Context (ms2_only : bool) (bins enc : Z).

Lemma precursor_no_mobility fr l p l' :
  Forall no_mobility l →
  parse_ddapasef_precursor data mode (Some true) bins enc fr l p = Ok l' →
  Forall no_mobility l'.
Proof.
  unfold parse_ddapasef_precursor. intros Hl H. inv_result; try done.
  apply Forall_snoc; [done|]. unfold no_mobility.
  erewrite spectrum_data_mobility by eassumption.
  erewrite ddapasef_mobility by eassumption.
  by erewrite metadata_mobility by eassumption.
Qed.

Lemma window_no_mobility fr f l w l' :
  Forall no_mobility l →
  parse_diapasef_window data mode (Some true) bins enc fr f l w = Ok l' →
  Forall no_mobility l'.
Proof.
  unfold parse_diapasef_window. intros Hl H. inv_result; try done.
  apply Forall_snoc; [done|]. unfold no_mobility.
  erewrite store_arrays_excluded by eassumption.
  unfold populate_scan_dict_w_diapasef_ms2. rewrite !lookup_insert_ne by done.
  by erewrite metadata_mobility by eassumption.
Qed.

Lemma frame_no_mobility st f st' :
  Forall no_mobility st.1 ∧ Forall no_mobility st.2 →
  parse_lcms_tdf_frame C data a b mode ms2_only (Some true) bins enc st f = Ok st' →
  Forall no_mobility st'.1 ∧ Forall no_mobility st'.2.
Proof.
  destruct st as [ps qs]. unfold parse_lcms_tdf_frame. simpl. intros [Hp Hq] H.
  inv_result; simpl; try (split; done).
  all: repeat match goal with
    | |- _ ∧ _ => split
    | |- Forall no_mobility ?l => assumption
    | H : for_each (parse_ddapasef_precursor _ _ _ _ _ _) _ _ = Ok ?l
      |- Forall no_mobility ?l =>
        eapply (for_each_inv (Forall no_mobility)); [|exact Hq|exact H];
        intros; by eapply precursor_no_mobility
    | H : for_each (parse_diapasef_window _ _ _ _ _ _ _) _ _ = Ok ?l
      |- Forall no_mobility ?l =>
        eapply (for_each_inv (Forall no_mobility)); [|exact Hp|exact H];
        intros; by eapply window_no_mobility
    | |- Forall no_mobility (_ ++ [_]) => apply Forall_snoc; [done|unfold no_mobility]
    end.
  all: repeat first
    [ erewrite store_arrays_excluded by eassumption
    | erewrite spectrum_data_mobility by eassumption
    | erewrite prmpasef_mobility by eassumption ].
  all: unfold populate_scan_dict_w_ms1, populate_scan_dict_w_bbcid_iscid_ms2,
         populate_scan_dict_w_tsf_ms2; rewrite ?lookup_insert_ne by done.
  all: by erewrite metadata_mobility by eassumption.
Qed.
End profile_mode.

(** C10. In profile mode [get_centroid_status] returns the exclude-mobility
    flag [True] whatever the caller passed, and no record [parse_lcms_tdf]
    returns in profile mode carries a mobility array; in centroid and raw
    mode the caller's flag comes back unchanged. *)
Theorem profile_mode_excludes_mobility :
  (∀ exclude_mobility,
     get_centroid_status "profile" exclude_mobility = Ok (false, Some true)) ∧
  (∀ C data frame_start frame_stop ms2_only exclude_mobility profile_bins encoding
     parent_scans product_scans,
     parse_lcms_tdf C data frame_start frame_stop "profile" ms2_only exclude_mobility
       profile_bins encoding = Ok (parent_scans, product_scans) →
     ∀ scan_dict, scan_dict ∈ parent_scans ++ product_scans →
       scan_dict !! "mobility_array" = Some VNone) ∧
  (∀ mode exclude_mobility, mode = "centroid" ∨ mode = "raw" →
     get_centroid_status mode exclude_mobility = Ok (true, exclude_mobility)).
Proof.
  split; [done|split].
  - intros C data a b ms2 e bins enc ps qs H d Hd.
    unfold parse_lcms_tdf in H. simpl in H.
    eapply (for_each_inv (λ st, Forall no_mobility st.1 ∧ Forall no_mobility st.2))
      in H as [Hp Hq]; simpl in *.
    + apply elem_of_app in Hd as [Hd|Hd];
        [eapply Forall_forall in Hp|eapply Forall_forall in Hq]; eauto.
    + intros st f st'. apply frame_no_mobility.
    + by split.
  - intros mode e [-> | ->]; reflexivity.
Qed.

(** ** Charge state and collision cross-section *)

(** C9. With a NaN charge state, the ddaPASEF and prmPASEF population steps
    leave [selected_ion_ccs] as they found it (unset in a record made by
    [init_scan_dict]); they still succeed and fill the mobility, the charge
    state and the other precursor fields. *)
Theorem nan_charge_leaves_ccs_unset :
  (∀ scan_dict tdf_data precursor_dict p0 pasef,
     pr_Charge precursor_dict = NaN →
     ∃ scan_dict',
       populate_scan_dict_w_ddapasef_ms2 scan_dict tdf_data precursor_dict (p0 :: pasef)
         = Ok scan_dict' ∧
       scan_dict' !! "selected_ion_ccs" = scan_dict !! "selected_ion_ccs" ∧
       scan_dict' !! "selected_ion_mobility" =
         Some (VFloat (Fl (tims_scannum_to_oneoverk0 tdf_data (pr_Parent precursor_dict)
                             (int_of_Q (pr_ScanNumber precursor_dict))))) ∧
       scan_dict' !! "charge_state" = Some (VFloat NaN) ∧
       scan_dict' !! "ms_level" = Some (VInt 2) ∧
       scan_dict' !! "selected_ion_mz" = Some (VFloat (Fl (pr_LargestPeakMz precursor_dict))) ∧
       scan_dict' !! "parent_frame" = Some (VInt (pr_Parent precursor_dict))) ∧
  (∀ scan_dict tdf_data prmframemsmsinfo_dict prmtargets_dict,
     pt_Charge prmtargets_dict = NaN →
     ∃ scan_dict',
       populate_scan_dict_w_prmpasef_ms2 tdf_data scan_dict prmframemsmsinfo_dict
         prmtargets_dict = Ok scan_dict' ∧
       scan_dict' !! "selected_ion_ccs" = scan_dict !! "selected_ion_ccs" ∧
       scan_dict' !! "selected_ion_mobility" =
         Some (VFloat (Fl (pt_OneOverK0 prmtargets_dict))) ∧
       scan_dict' !! "charge_state" = Some (VFloat NaN) ∧
       scan_dict' !! "ms_level" = Some (VInt 2) ∧
       scan_dict' !! "selected_ion_mz" =
         Some (VFloat (Fl (pm_IsolationMz prmframemsmsinfo_dict)))) ∧
  init_scan_dict !! "selected_ion_ccs" = Some VNone.
Proof.
  split; [|split; [|done]].
  - intros d data p p0 ps Hnan. eexists.
    unfold populate_scan_dict_w_ddapasef_ms2. rewrite Hnan. simpl.
    split; [reflexivity|]. repeat split; by simplify_map_eq.
  - intros d data p t Hnan. eexists.
    unfold populate_scan_dict_w_prmpasef_ms2. rewrite Hnan. simpl.
    split; [reflexivity|]. repeat split; by simplify_map_eq.
Qed.

(** ** Derived statistics of a spectrum *)

Lemma fold_left_Qplus l : ∀ a, (fold_left Qplus l a == a + Qsum l)%Q.
Proof.
  induction l as [|x l IH]; intros a; simpl.
  - ring.
  - rewrite IH. ring.
Qed.

Lemma py_sum_Qsum l : (py_sum l == Qsum l)%Q.
Proof. unfold py_sum. rewrite fold_left_Qplus. ring. Qed.

Lemma Qmaxb_cases a b : (Qmaxb a b = a ∨ Qmaxb a b = b) ∧ (a <= Qmaxb a b)%Q ∧ (b <= Qmaxb a b)%Q.
Proof.
  unfold Qmaxb. destruct (Qle_bool a b) eqn:E.
  - apply Qle_bool_iff in E. repeat split; auto. apply Qle_refl.
  - repeat split; auto; [apply Qle_refl|].
    destruct (Qlt_le_dec a b) as [Hlt|Hle]; [|done].
    apply Qlt_le_weak, Qle_bool_iff in Hlt. congruence.
Qed.

Lemma fold_max_spec l : ∀ x,
  fold_left Qmaxb l x ∈ x :: l ∧ Forall (λ y, (y <= fold_left Qmaxb l x)%Q) (x :: l).
Proof.
  induction l as [|y l IH]; intros x; simpl.
  - split; [left|]. repeat constructor. apply Qle_refl.
  - destruct (IH (Qmaxb x y)) as [Hin Hall].
    destruct (Qmaxb_cases x y) as (Hc & Hx & Hy).
    apply Forall_cons in Hall as [Hm Hall]. split.
    + apply elem_of_cons in Hin as [Hin|Hin].
      * rewrite Hin. destruct Hc as [-> | ->]; [left|right; left].
      * do 2 right. exact Hin.
    + repeat constructor; [by eapply Qle_trans | by eapply Qle_trans | done].
Qed.

Lemma where_bounds a : ∀ k v, Forall (λ i, (k ≤ i < k + length a)%nat) (np_where_eq_from k a v).
Proof.
  induction a as [|x a IH]; intros k v; simpl; [constructor|].
  specialize (IH (S k) v).
  assert (Forall (λ i : nat, (k ≤ i < k + S (length a))%nat) (np_where_eq_from (S k) a v)).
  { eapply Forall_impl; [exact IH|]. simpl. lia. }
  destruct (Qeq_bool x v); [constructor; [lia|done]|done].
Qed.

Lemma where_first a : ∀ k v x, x ∈ a → (x == v)%Q →
  ∃ i rest y, np_where_eq_from k a v = (k + i)%nat :: rest ∧ a !! i = Some y ∧ (y == v)%Q ∧
    ∀ j z, (j < i)%nat → a !! j = Some z → ¬ (z == v)%Q.
Proof.
  induction a as [|h a IH]; intros k v x Hin Hx; [by apply elem_of_nil in Hin|].
  simpl. destruct (Qeq_bool h v) eqn:E.
  - apply Qeq_bool_iff in E. exists 0%nat, (np_where_eq_from (S k) a v), h.
    rewrite Nat.add_0_r. repeat split; auto. intros; lia.
  - assert (¬ (h == v)%Q) as Hne by (intros Hq; apply Qeq_bool_iff in Hq; congruence).
    apply elem_of_cons in Hin as [-> | Hin]; [done|].
    destruct (IH (S k) v x Hin Hx) as (i & rest & y & -> & Hy & Hyv & Hmin).
    exists (S i), rest, y. repeat split; auto.
    + f_equal. lia.
    + intros [|j] z Hj Hz; simpl in Hz; [by injection Hz as <-|].
      eapply Hmin; [|done]. lia.
Qed.

Lemma take_indices_head a i rest y :
  a !! i = Some y → Forall (λ j, (j < length a)%nat) rest →
  take_indices a (i :: rest) ≫= first = Ok y.
Proof.
  intros Hi Hall. unfold take_indices.
  assert (∃ ys, mapM (λ i, match a !! i with Some x => Ok x | None => Raise IndexError end) rest = Ok ys) as [ys Hys].
  { induction Hall as [|j rest Hj _ [ys IH]]; [by exists []|].
    apply lookup_lt_is_Some in Hj as [z Hz]. exists (z :: ys).
    simpl. rewrite Hz. simpl. by rewrite IH. }
  simpl. rewrite Hi. simpl.
  change (mapM _ rest) with (mapM (λ i, match a !! i with Some x => Ok x | None => Raise IndexError end) rest).
  by rewrite Hys.
Qed.


(** ** Scan numbers *)

Lemma post_bind {A B} (m : Sink A) (f : A → Sink B) w I1 I2 E :
  post (m w) I1 E → (∀ a w', I1 a w' → post (f a w') I2 E) → post ((m ≫= f) w) I2 E.
Proof.
  unfold mbind, sink_bind. intros H1 H2.
  destruct (m w) as [[a|e] w']; simpl in *; auto.
Qed.

Lemma post_lift {A} (r : result A) w (I : A → list SpectrumCall → Prop) (E : list SpectrumCall → Prop) :
  E w → (∀ a, r = Ok a → I a w) → post (lift r w) I E.
Proof. unfold lift, post. destruct r; auto. Qed.

Lemma post_mono {A} (m : result A * list SpectrumCall) (I I' : A → _ → Prop) (E E' : _ → Prop) :
  post m I E → (∀ a w, I a w → I' a w) → (∀ w, E w → E' w) → post m I' E'.
Proof. unfold post. destruct m as [[a|e] w]; auto. Qed.

Lemma for_each_sink_post {A S} (I : S → list SpectrumCall → Prop) (E : list SpectrumCall → Prop)
    (body : S → A → Sink S) l :
  (∀ s x w, I s w → post (body s x w) I E) →
  ∀ s w, I s w → post (for_each_sink body l s w) I E.
Proof.
  intros Hbody. induction l as [|x l IH]; intros s w Hs; simpl.
  - exact Hs.
  - eapply post_bind; [by apply Hbody|]. intros s' w' Hs'. by apply IH.
Qed.

Lemma counted_snoc c w x :
  counted c w → call_id x = VInt (c + 1) → counted (c + 1) (w ++ [x]).
Proof.
  intros [-> Hn] Hx. unfold counted, numbered_from_one, scan_ids in *.
  rewrite length_app. simpl. split; [lia|].
  rewrite fmap_app, Hn, Nat.add_1_r, seq_S, fmap_app. simpl.
  rewrite Hx. do 3 f_equal. lia.
Qed.

Lemma ms1_call_id d enc c :
  ms1_spectrum_call d enc = Ok c → d !! "scan_number" = Some (call_id c).
Proof.
  unfold ms1_spectrum_call, getitem. intros H. inv_result; simpl; congruence.
Qed.

Lemma ms2_call_id p d enc c :
  ms2_spectrum_call p enc d = Ok c → d !! "scan_number" = Some (call_id c).
Proof.
  unfold ms2_spectrum_call. intros H.
  repeat (apply bind_Ok in H as (? & ? & H)).
  injection H as <-. simpl. unfold getitem in *.
  destruct (d !! "scan_number"); congruence.
Qed.

Lemma write_ms1_cases d enc w :
  (∃ e, write_lcms_ms1_spectrum d enc w = (Raise e, w)) ∨
  (∃ c, ms1_spectrum_call d enc = Ok c ∧ write_lcms_ms1_spectrum d enc w = (Ok (), w ++ [c])).
Proof.
  unfold write_lcms_ms1_spectrum, mbind, sink_bind, lift, write_spectrum.
  destruct (ms1_spectrum_call d enc) as [c|e]; [right|left]; eauto.
Qed.

Lemma write_ms2_cases p enc d w :
  (∃ e, write_lcms_ms2_spectrum p enc d w = (Raise e, w)) ∨
  (∃ c, ms2_spectrum_call p enc d = Ok c ∧
        write_lcms_ms2_spectrum p enc d w = (Ok (), w ++ [c])).
Proof.
  unfold write_lcms_ms2_spectrum, mbind, sink_bind, lift, write_spectrum.
  destruct (ms2_spectrum_call p enc d) as [c|e]; [right|left]; eauto.
Qed.

Section serializer_facts.
Context (parse_lcms : Z → Z → result (list ScanDict * list ScanDict)).
Context (ms2_only : bool) (encoding : Z).

Lemma write_product_counted parent c product w :
  counted c w →
  post (write_product encoding parent c product w) counted numbered_from_one.
Proof.
  intros Hc. unfold write_product.
  destruct (write_ms2_cases parent encoding
              (<["scan_number" := VInt (c + 1)]> product) w) as [[e H]|(x & Hx & H)];
    unfold mbind, sink_bind; rewrite H; simpl; [apply Hc|].
  apply counted_snoc; [done|].
  apply ms2_call_id in Hx. rewrite lookup_insert_eq in Hx. congruence.
Qed.

Lemma write_parent_counted products c parent w :
  counted c w →
  post (write_parent encoding products c parent w) counted numbered_from_one.
Proof.
  intros Hc. unfold write_parent.
  eapply post_bind.
  { apply (post_lift _ _ (λ _ w', w' = w) numbered_from_one); [apply Hc|done]. }
  intros sel w' ->.
  destruct (write_ms1_cases (<["scan_number" := VInt (c + 1)]> parent) encoding w)
    as [[e H]|(x & Hx & H)];
    unfold mbind at 1, sink_bind at 1; rewrite H; simpl; [apply Hc|].
  apply for_each_sink_post; [intros; by apply write_product_counted|].
  apply counted_snoc; [done|].
  apply ms1_call_id in Hx. rewrite lookup_insert_eq in Hx. congruence.
Qed.

Lemma write_chunk_counted a b c w :
  counted c w →
  post (write_lcms_chunk_to_mzml parse_lcms ms2_only encoding a b c w)
    counted numbered_from_one.
Proof.
  intros Hc. unfold write_lcms_chunk_to_mzml.
  eapply post_bind.
  { apply (post_lift _ _ (λ _ w', w' = w) numbered_from_one); [apply Hc|done]. }
  intros [ps qs] w' ->.
  destruct ms2_only; simpl.
  - apply for_each_sink_post; [|done]. intros. by apply write_product_counted.
  - apply for_each_sink_post; [|done]. intros. by apply write_parent_counted.
Qed.

Lemma write_chunk_list_counted l c w :
  counted c w →
  post (write_chunk_list parse_lcms ms2_only encoding l c w) counted numbered_from_one.
Proof.
  intros Hc. unfold write_chunk_list. apply for_each_sink_post; [|done].
  intros s [a b] w' Hs. by apply write_chunk_counted.
Qed.
End serializer_facts.

Section run_facts.
Context (parse_lcms : Z → Z → result (list ScanDict * list ScanDict)).
Context (ms2_only : bool) (encoding : Z).
Context (ms1_frames : list Z) (frames_shape_0 chunk_size : nat).

Lemma write_chunks_post fuel : ∀ chunk j c w,
  (chunk ≤ length ms1_frames)%nat → (length ms1_frames + 1 ≤ chunk + fuel)%nat →
  counted c w →
  post (write_chunks parse_lcms ms2_only encoding ms1_frames frames_shape_0 chunk_size
          fuel chunk j c w) finished numbered_from_one.
Proof.
  induction fuel as [|fuel IH]; intros chunk j c w Hchunk Hfuel Hc; [lia|].
  simpl. destruct (decide _) as [Hcond|Hcond].
  - set (chunk_list := zip _ _).
    eapply post_bind.
    { apply (post_lift _ _ (λ _ w', w' = w ∧ chunk_list ≠ []) numbered_from_one);
        [apply Hc|]. intros a Ha. split; [done|]. intros E. by rewrite E in Ha. }
    intros _ w' [-> Hne].
    assert (chunk_size ≠ 0%nat) as Hcs.
    { intros E. apply Hne. unfold chunk_list. by rewrite E. }
    eapply post_bind; [by apply write_chunk_list_counted|].
    intros c' w' Hc'. apply IH; [lia|lia|done].
  - destruct (loop_variable _ j) as [j'|]; [|apply Hc].
    eapply post_bind; [by apply write_chunk_list_counted|].
    intros c' w' Hc'. by exists c'.
Qed.

Lemma write_chunks_run :
  post (write_chunks parse_lcms ms2_only encoding ms1_frames frames_shape_0 chunk_size
          (S (length ms1_frames)) 0 None 0 []) finished numbered_from_one.
Proof. apply write_chunks_post; [lia|lia|]. by split. Qed.
End run_facts.

(** C1. Every run ends (normally or with an exception), and the identifiers
    of the spectra it handed to the sink are 1, 2, 3, ... in order: scan
    numbers start at 1 and grow by one per emitted record, whatever the
    parser dropped. *)
Theorem scan_numbers_contiguous parse_lcms ms2_only encoding preamble closing render
    ms1_frames frames_shape_0 chunk_size num_of_spectra :
  ∃ outcome calls,
    write_lcms_mzml parse_lcms ms2_only encoding preamble closing render
      ms1_frames frames_shape_0 chunk_size num_of_spectra = Some (outcome, calls) ∧
    scan_ids calls = (λ i : nat, VInt (Z.of_nat i)) <$> seq 1 (length calls).
Proof.
  unfold write_lcms_mzml.
  pose proof (write_chunks_run parse_lcms ms2_only encoding ms1_frames frames_shape_0
                chunk_size) as H.
  destruct (write_chunks _ _ _ _ _ _ _ _ _ _ _) as [[[c|]|e] calls]; simpl in H.
  - destruct H as (c' & [= <-] & Hc & Hn). destruct (decide _); eauto.
  - by destruct H as (c' & [=] & _).
  - eauto.
Qed.

(** ** Emission order within a window *)

Lemma complete_key d k : complete d = true → In k scan_keys → ∃ v, d !! k = Some v.
Proof.
  unfold complete. rewrite forallb_forall. intros H Hk.
  specialize (H k Hk). unfold has_key in H. apply bool_decide_eq_true in H.
  destruct H as [v Hv]. eauto.
Qed.

Lemma complete_numbered n d : complete d = true → complete (numbered n d) = true.
Proof.
  unfold complete. rewrite !forallb_forall. intros H k Hk.
  specialize (H k Hk). unfold has_key, numbered in *.
  apply bool_decide_eq_true in H. apply bool_decide_eq_true.
  destruct (decide (k = "scan_number")) as [->|Hne].
  - rewrite lookup_insert_eq. eauto.
  - by rewrite lookup_insert_ne.
Qed.

Ltac read_keys Hd :=
  repeat match goal with
  | |- context [getitem ?d ?k] =>
      let v := fresh "v" in let E := fresh "E" in
      destruct (complete_key d k Hd) as [v E]; [simpl; tauto|];
      unfold getitem at 1; rewrite E; simpl
  end.

Lemma ms1_call_exists d n enc :
  complete d = true → enc = 32 ∨ enc = 64 →
  ∃ call, ms1_spectrum_call (numbered n d) enc = Ok call.
Proof.
  intros Hd Henc. apply (complete_numbered n) in Hd.
  unfold ms1_spectrum_call.
  assert (encoding_dtype enc = Ok enc) as ->.
  { unfold encoding_dtype, get_encoding_dtype. destruct Henc as [-> | ->]; reflexivity. }
  read_keys Hd. eauto.
Qed.

Lemma complete_has_key d k : complete d = true → In k scan_keys → has_key d k = true.
Proof. unfold complete. rewrite forallb_forall. auto. Qed.

Lemma charge_readable_set d :
  charge_readable d = true →
  ∃ v b, d !! "charge_state" = Some v ∧ charge_is_set v = Ok b.
Proof.
  unfold charge_readable. destruct (d !! "charge_state") as [[| | |[]| |]|]; try done;
    intros _; eexists _, _; (split; [reflexivity|]); reflexivity.
Qed.

Lemma ms2_call_exists p m d n enc :
  complete p = true → complete d = true → charge_readable d = true →
  enc = 32 ∨ enc = 64 →
  ∃ call, ms2_spectrum_call (Some (numbered m p)) enc (numbered n d) = Ok call ∧
          spectrum_reference call = Some (VInt m).
Proof.
  intros Hp Hd Hc Henc.
  apply charge_readable_set in Hc as (c & b & Hc & Hb).
  apply (complete_numbered n) in Hd.
  unfold ms2_spectrum_call.
  assert (encoding_dtype enc = Ok enc) as ->.
  { unfold encoding_dtype, get_encoding_dtype. destruct Henc as [-> | ->]; reflexivity. }
  assert (getitem (numbered n d) "charge_state" = Ok c) as ->.
  { unfold getitem, numbered. by rewrite lookup_insert_ne, Hc. }
  assert (getitem (numbered m p) "scan_number" = Ok (VInt m)) as ->.
  { unfold getitem, numbered. by rewrite lookup_insert_eq. }
  rewrite !(complete_has_key (numbered n d)) by (done || (simpl; tauto)).
  simpl andb. cbv iota.
  read_keys Hd. rewrite Hb. simpl.
  eexists. split; reflexivity.
Qed.

Lemma ms2_standalone_exists d n enc :
  complete d = true → charge_readable d = true → enc = 32 ∨ enc = 64 →
  ∃ call, ms2_spectrum_call None enc (numbered n d) = Ok call ∧
          call_id call = VInt n ∧ spectrum_reference call = None.
Proof.
  intros Hd Hc Henc.
  apply charge_readable_set in Hc as (c & b & Hc & Hb).
  apply (complete_numbered n) in Hd.
  unfold ms2_spectrum_call.
  assert (encoding_dtype enc = Ok enc) as ->.
  { unfold encoding_dtype, get_encoding_dtype. destruct Henc as [-> | ->]; reflexivity. }
  assert (getitem (numbered n d) "charge_state" = Ok c) as ->.
  { unfold getitem, numbered. by rewrite lookup_insert_ne, Hc. }
  assert (getitem (numbered n d) "scan_number" = Ok (VInt n)) as ->.
  { unfold getitem, numbered. by rewrite lookup_insert_eq. }
  rewrite !(complete_has_key (numbered n d)) by (done || (simpl; tauto)).
  simpl andb. cbv iota.
  read_keys Hd. rewrite Hb. simpl.
  eexists. repeat split; reflexivity.
Qed.

Lemma ms1_call_reference d enc c :
  ms1_spectrum_call d enc = Ok c → spectrum_reference c = None.
Proof.
  unfold ms1_spectrum_call, getitem. intros H. inv_result; reflexivity.
Qed.

Lemma select_products_filter products parent :
  complete parent = true → Forall (λ d, complete d = true) products →
  select_products products parent = Ok (List.filter (linked parent) products).
Proof.
  intros Hp. induction 1 as [|d products Hd _ IH]; [done|].
  simpl. rewrite IH. unfold linked.
  destruct (complete_key d "parent_frame" Hd) as [v Ev]; [simpl; tauto|].
  destruct (complete_key parent "frame" Hp) as [u Eu]; [simpl; tauto|].
  unfold getitem. rewrite Ev, Eu. simpl. by destruct (py_eqb v u).
Qed.

Section emission.
Context (encoding : Z) (Henc : encoding = 32 ∨ encoding = 64).

Lemma children_written m p children : ∀ c w,
  complete p = true → Forall writable_product children →
  ∃ calls,
    for_each_sink (write_product encoding (Some (numbered m p))) children c w
      = (Ok (c + Z.of_nat (length calls)), w ++ calls) ∧
    Forall2 (emitted_as encoding) (children_emission c (m, p) children) calls.
Proof.
  intros c w Hp Hall. revert c w.
  induction Hall as [|d children [Hd Hc] _ IH]; intros c w.
  - exists []. simpl. rewrite Z.add_0_r, app_nil_r. split; [done|constructor].
  - destruct (ms2_call_exists p m d (c + 1) encoding Hp Hd Hc Henc) as (call & Hcall & Href).
    destruct (IH (c + 1) (w ++ [call])) as (calls & Hrun & Hem).
    exists (call :: calls). split.
    + simpl. unfold mbind at 1, sink_bind at 1, write_product at 1.
      unfold write_lcms_ms2_spectrum, mbind at 1, sink_bind at 1.
      unfold mbind at 1, sink_bind at 1, lift at 1.
      change (<["scan_number" := VInt (c + 1)]> d) with (numbered (c + 1) d).
      rewrite Hcall. simpl. rewrite Hrun. f_equal; [f_equal; lia|].
      by rewrite <- app_assoc.
    + simpl. constructor; [|done]. simpl. split; [done|]. split; [|done].
      apply ms2_call_id in Hcall. unfold numbered in Hcall at 1.
      rewrite lookup_insert_eq in Hcall. congruence.
Qed.

Lemma parents_written products parents : ∀ c w,
  Forall (λ d, complete d = true) parents → Forall writable_product products →
  ∃ calls,
    for_each_sink (write_parent encoding products) parents c w
      = (Ok (c + Z.of_nat (length calls)), w ++ calls) ∧
    Forall2 (emitted_as encoding) (linked_emission c parents products) calls.
Proof.
  intros c w Hparents Hproducts. revert c w.
  induction Hparents as [|p parents Hp _ IH]; intros c w.
  - exists []. simpl. rewrite Z.add_0_r, app_nil_r. split; [done|constructor].
  - destruct (ms1_call_exists p (c + 1) encoding Hp Henc) as [call Hcall].
    set (children := List.filter (linked p) products).
    assert (Forall writable_product children) as Hch.
    { apply Forall_forall. intros d Hd. apply list_elem_of_In, filter_In in Hd as [Hd _].
      eapply Forall_forall in Hproducts; [done|by apply list_elem_of_In]. }
    destruct (children_written (c + 1) p children (c + 1) (w ++ [call]) Hp Hch)
      as (calls1 & Hrun1 & Hem1).
    destruct (IH (c + 1 + Z.of_nat (length calls1)) ((w ++ [call]) ++ calls1))
      as (calls2 & Hrun2 & Hem2).
    assert (length calls1 = length children) as Hlen.
    { apply Forall2_length in Hem1. rewrite <- Hem1. clear.
      generalize (c + 1) at 1. induction children; intros; simpl; auto. }
    exists (call :: calls1 ++ calls2). split.
    + simpl. unfold mbind at 1, sink_bind at 1, write_parent at 1.
      unfold mbind at 1, sink_bind at 1, lift at 1.
      rewrite select_products_filter
        by (done || (eapply Forall_impl; [exact Hproducts|]; by intros ? [? ?])).
      unfold write_lcms_ms1_spectrum, mbind at 1, sink_bind at 1.
      unfold mbind at 1, sink_bind at 1, lift at 1.
      change (<["scan_number" := VInt (c + 1)]> p) with (numbered (c + 1) p).
      rewrite Hcall. simpl. fold children. rewrite Hrun1, Hrun2.
      f_equal; [f_equal; rewrite length_app; lia|].
      by rewrite <- !app_assoc.
    + simpl. fold children. constructor.
      * simpl. split; [done|]. split; [|by eapply ms1_call_reference].
        apply ms1_call_id in Hcall. unfold numbered in Hcall at 1.
        rewrite lookup_insert_eq in Hcall. congruence.
      * apply Forall2_app; [done|]. by rewrite <- Hlen.
Qed.
End emission.

(** C6. When MS1 records are written ([ms2_only] false), a window whose
    records the writers can read is emitted in the linked order: every
    parent, each immediately followed by the products whose [parent_frame]
    equals its [frame], with consecutive scan numbers, every product
    referring to its parent's number. *)
Theorem linked_products_follow_parent parse_lcms encoding frame_start frame_stop
    scan_count calls0 parent_scans product_scans :
  encoding = 32 ∨ encoding = 64 →
  parse_lcms frame_start frame_stop = Ok (parent_scans, product_scans) →
  Forall (λ d, complete d = true) parent_scans →
  Forall writable_product product_scans →
  ∃ calls,
    write_lcms_chunk_to_mzml parse_lcms false encoding frame_start frame_stop
      scan_count calls0 = (Ok (scan_count + Z.of_nat (length calls)), calls0 ++ calls) ∧
    Forall2 (emitted_as encoding) (linked_emission scan_count parent_scans product_scans)
      calls.
Proof.
  intros Henc Hparse Hps Hqs.
  destruct (parents_written encoding Henc product_scans parent_scans scan_count calls0
              Hps Hqs) as (calls & Hrun & Hem).
  exists calls. split; [|done].
  unfold write_lcms_chunk_to_mzml, mbind at 1, sink_bind at 1, lift.
  rewrite Hparse. exact Hrun.
Qed.

(** ** Order of merged sub-scans *)

Lemma Qcompare_Eq_l x y z : (x ?= y)%Q = Eq → (x ?= z)%Q = (y ?= z)%Q.
Proof. intros H. apply Qeq_alt in H. by rewrite H. Qed.

Lemma Qcompare_Eq_r x y z : (y ?= z)%Q = Eq → (x ?= y)%Q = (x ?= z)%Q.
Proof. intros H. apply Qeq_alt in H. by rewrite H. Qed.

Lemma Qcompare_Lt_trans x y z : (x ?= y)%Q = Lt → (y ?= z)%Q = Lt → (x ?= z)%Q = Lt.
Proof. rewrite <- !Qlt_alt. apply Qlt_trans. Qed.

Lemma row_compare_antisym r1 : ∀ r2, row_compare r2 r1 = CompOpp (row_compare r1 r2).
Proof.
  induction r1 as [|x r1 IH]; intros [|y r2]; simpl; try done.
  rewrite <- (Qcompare_antisym x y). destruct (x ?= y)%Q; simpl; auto.
Qed.

Lemma row_compare_Eq_l r1 : ∀ r2 r3,
  row_compare r1 r2 = Eq → row_compare r1 r3 = row_compare r2 r3.
Proof.
  induction r1 as [|x r1 IH]; intros [|y r2] [|z r3]; simpl; try done.
  destruct (x ?= y)%Q eqn:E; try done. intros H.
  rewrite (Qcompare_Eq_l x y z E). destruct (y ?= z)%Q; auto.
Qed.

Lemma row_compare_Eq_r r1 r2 r3 :
  row_compare r2 r3 = Eq → row_compare r1 r2 = row_compare r1 r3.
Proof.
  intros H. rewrite (row_compare_antisym r2 r1), (row_compare_antisym r3 r1).
  f_equal. symmetry. apply row_compare_Eq_l.
  rewrite row_compare_antisym, H. done.
Qed.

Lemma row_compare_Lt_trans r1 : ∀ r2 r3,
  row_compare r1 r2 = Lt → row_compare r2 r3 = Lt → row_compare r1 r3 = Lt.
Proof.
  induction r1 as [|x r1 IH]; intros [|y r2] [|z r3]; simpl; try done.
  destruct (x ?= y)%Q eqn:E1; try done; destruct (y ?= z)%Q eqn:E2; try done; intros H1 H2.
  - rewrite (Qcompare_Eq_l x y z E1), E2. eauto.
  - by rewrite (Qcompare_Eq_l x y z E1), E2.
  - by rewrite <- (Qcompare_Eq_r x y z E2), E1.
  - by rewrite (Qcompare_Lt_trans x y z E1 E2).
Qed.

Lemma row_lt_le_trans r1 r2 r3 : row_lt r1 r2 → row_le r2 r3 → row_lt r1 r3.
Proof.
  unfold row_lt, row_le. intros H1 H2.
  destruct (row_compare r2 r3) eqn:E; [| |done].
  - by rewrite <- (row_compare_Eq_r r1 r2 r3 E).
  - by eapply row_compare_Lt_trans.
Qed.

Global Instance row_le_trans : Transitive row_le.
Proof.
  intros r1 r2 r3 H1 H2. unfold row_le in *.
  destruct (row_compare r1 r2) eqn:E; [| |done].
  - by rewrite (row_compare_Eq_l r1 r2 r3 E).
  - by rewrite (row_lt_le_trans r1 r2 r3 E H2).
Qed.

Global Instance row_le_total : Total row_le.
Proof.
  intros r1 r2. unfold row_le. rewrite (row_compare_antisym r1 r2).
  destruct (row_compare r1 r2); simpl; [left|left|right]; done.
Qed.

Lemma dedup_adjacent_subseteq {A} (eqb : A → A → bool) l : dedup_adjacent eqb l ⊆ l.
Proof.
  induction l as [|x [|y l] IH]; [done|done|].
  change (dedup_adjacent eqb (x :: y :: l)) with
    (if eqb x y then dedup_adjacent eqb (y :: l) else x :: dedup_adjacent eqb (y :: l)).
  destruct (eqb x y).
  - intros z Hz. right. by apply IH.
  - intros z Hz. apply elem_of_cons in Hz as [->|Hz]; [left|right; by apply IH].
Qed.

Lemma dedup_adjacent_sorted l :
  StronglySorted row_le l → StronglySorted row_lt (dedup_adjacent row_eqb l).
Proof.
  induction l as [|x [|y l] IH]; intros Hs.
  - constructor.
  - repeat constructor.
  - change (dedup_adjacent row_eqb (x :: y :: l)) with
      (if row_eqb x y then dedup_adjacent row_eqb (y :: l)
       else x :: dedup_adjacent row_eqb (y :: l)).
    apply StronglySorted_inv in Hs as [Hs Hx].
    specialize (IH Hs). destruct (row_eqb x y) eqn:E; [done|].
    constructor; [done|].
    apply Forall_forall. intros z Hz. apply dedup_adjacent_subseteq in Hz.
    apply Forall_cons in Hx as [Hxy Hxl].
    assert (row_lt x y) as Hlt.
    { unfold row_lt, row_le, row_eqb in *. by destruct (row_compare x y). }
    apply elem_of_cons in Hz as [->|Hz]; [done|].
    eapply row_lt_le_trans; [exact Hlt|].
    apply StronglySorted_inv in Hs as [_ Hy].
    eapply Forall_forall in Hy; eauto.
Qed.

Lemma np_unique_rows_sorted rows : StronglySorted row_lt (np_unique_rows rows).
Proof. apply dedup_adjacent_sorted, StronglySorted_merge_sort; apply _. Qed.

Lemma np_unique_rows_subseteq rows : np_unique_rows rows ⊆ rows.
Proof.
  intros r Hr. apply dedup_adjacent_subseteq in Hr.
  by rewrite merge_sort_Permutation in Hr.
Qed.

Lemma row_lt_key r1 r2 :
  r1 ≠ [] → r2 ≠ [] → row_lt r1 r2 → (nth 0 r1 0 <= nth 0 r2 0)%Q.
Proof.
  destruct r1 as [|x r1], r2 as [|y r2]; try done. intros _ _. unfold row_lt. simpl.
  destruct (x ?= y)%Q eqn:E; try done; intros _.
  - apply Qeq_alt in E. rewrite E. apply Qle_refl.
  - apply Qlt_alt in E. by apply Qlt_le_weak.
Qed.

Lemma column0_sorted rows :
  Forall (λ r, r ≠ []) rows → StronglySorted row_lt rows →
  StronglySorted Qle (column 0 rows).
Proof.
  intros Hne. induction 1 as [|r rows Hs IH Hr]; [constructor|].
  apply Forall_cons in Hne as [Hr0 Hne]. simpl. constructor; [by apply IH|].
  unfold column. apply Forall_fmap, Forall_forall. intros r' Hr'.
  apply row_lt_key; [done| |].
  - eapply Forall_forall in Hne; eauto.
  - eapply Forall_forall in Hr; eauto.
Qed.

Lemma np_stack_rows cols rows :
  np_stack cols = Ok rows → Forall (λ r, length r = length cols) rows.
Proof.
  unfold np_stack. destruct cols as [|c0 cols]; [done|].
  destruct (forallb _ _); [|done]. intros [= <-].
  apply Forall_fmap, Forall_forall. intros i _. simpl. by rewrite length_fmap.
Qed.

Lemma merged_rows k cols stacked :
  np_stack cols = Ok stacked → length cols = S k →
  let rows := np_unique_rows (argsort_rows stacked) in
  Forall (λ r, length r = S k) rows ∧ StronglySorted row_lt rows ∧
  StronglySorted Qle (column 0 rows).
Proof.
  intros Hstack Hk rows.
  assert (Forall (λ r, length r = S k) rows) as Hlen.
  { apply Forall_forall. intros r Hr. apply np_unique_rows_subseteq in Hr.
    unfold argsort_rows in Hr. rewrite merge_sort_Permutation in Hr.
    apply np_stack_rows in Hstack. rewrite Hk in Hstack.
    eapply Forall_forall in Hstack; eauto. }
  split; [done|]. split; [apply np_unique_rows_sorted|].
  apply column0_sorted; [|apply np_unique_rows_sorted].
  eapply Forall_impl; [exact Hlen|]. by intros [|??].
Qed.

(** C4 (amended). When sub-scans are merged (3-D extraction, and 2-D
    extraction in raw mode), the rows (m/z, intensity[, mobility]) of the
    result are strictly ascending in lexicographic order, so no row occurs
    twice, and [mz_array] is ascending in the weak sense: equal m/z values
    remain when the intensity or the mobility differs. *)
Theorem merged_rows_ascending :
  (∀ tdf_data frame scan_begin scan_end mz_array intensity_array mobility_array,
     extract_3d_tdf_spectrum tdf_data frame scan_begin scan_end
       = Ok (Some mz_array, Some intensity_array, Some mobility_array) →
     ∃ rows,
       mz_array = column 0 rows ∧ intensity_array = column 1 rows ∧
       mobility_array = column 2 rows ∧
       Forall (λ r, length r = 3%nat) rows ∧
       StronglySorted row_lt rows ∧ StronglySorted Qle mz_array) ∧
  (∀ tdf_data frame scan_begin scan_end profile_bins encoding mz_array intensity_array,
     extract_2d_tdf_spectrum tdf_data "raw" frame scan_begin scan_end profile_bins encoding
       = Ok (Some mz_array, Some intensity_array) →
     ∃ rows,
       mz_array = column 0 rows ∧ intensity_array = column 1 rows ∧
       Forall (λ r, length r = 2%nat) rows ∧
       StronglySorted row_lt rows ∧ StronglySorted Qle mz_array).
Proof.
  split.
  - intros data frame b e mz it mob H. unfold extract_3d_tdf_spectrum in H.
    destruct (decide (b ≠ 0%nat)); inv_result; try done.
    all: match goal with
      | Hs : np_stack _ = Ok ?s |- _ =>
          destruct (merged_rows 2 _ s Hs eq_refl) as (Hl & Hr & Hc);
          exists (np_unique_rows (argsort_rows s)); by repeat split
      end.
  - intros data frame b e bins enc mz it H. unfold extract_2d_tdf_spectrum in H.
    rewrite decide_True in H by done. inv_result; try done.
    match goal with
    | Hs : np_stack _ = Ok ?s |- _ =>
        destruct (merged_rows 1 _ s Hs eq_refl) as (Hl & Hr & Hc);
        exists (np_unique_rows (argsort_rows s)); by repeat split
    end.
Qed.

(** ** Reconciliation of the declared count *)

Lemma prefix_app s : ∀ r, String.prefix s (s +:+ r) = true.
Proof.
  induction s as [|c s IH]; intros r; simpl; [by destruct r|].
  destruct (Ascii.ascii_dec c c); [apply IH|done].
Qed.

Lemma replace_from_skip old new t : ∀ r,
  replace_from old new (String.length t) (t +:+ r) = replace_from old new 0 r.
Proof. induction t as [|c t IH]; intros r; simpl; [done|apply IH]. Qed.

Lemma string_app_nil_r (s : string) : s +:+ EmptyString = s.
Proof.
  induction s as [|c s IH]; [done|].
  change (String c (s +:+ EmptyString) = String c s). by rewrite IH.
Qed.

Lemma str_replace_whole old new : old ≠ EmptyString → str_replace old new old = new.
Proof.
  destruct old as [|c t]; [done|]. intros _. unfold str_replace.
  pose proof (prefix_app (String c t) EmptyString) as Hp.
  pose proof (replace_from_skip (String c t) new t EmptyString) as Hs.
  rewrite string_app_nil_r in Hp, Hs.
  cbn [replace_from]. rewrite Hp. cbn [String.length].
  replace (S (String.length t) - 1)%nat with (String.length t) by lia.
  rewrite Hs. apply string_app_nil_r.
Qed.

Lemma spectrum_list_line_nonempty n : spectrum_list_line n ≠ EmptyString.
Proof. done. Qed.

Lemma update_spectra_count_header pre post num_of_spectra scan_count :
  update_spectra_count (pre ++ [spectrum_list_line num_of_spectra] ++ post)
    num_of_spectra scan_count
  = update_spectra_count pre num_of_spectra scan_count
      ++ [spectrum_list_line scan_count]
      ++ update_spectra_count post num_of_spectra scan_count.
Proof.
  unfold update_spectra_count. rewrite !fmap_app. simpl.
  by rewrite str_replace_whole by apply spectrum_list_line_nonempty.
Qed.



(** ** Products without a parent *)

(** With [ms2_only] false the loop over [parent_scans] is the only one that
    runs: a window without parents writes nothing, whatever its products. *)
Lemma no_parent_no_emission parse_lcms encoding frame_start frame_stop scan_count calls
    product_scans :
  parse_lcms frame_start frame_stop = Ok ([], product_scans) →
  write_lcms_chunk_to_mzml parse_lcms false encoding frame_start frame_stop scan_count calls
    = (Ok scan_count, calls).
Proof.
  intros H. unfold write_lcms_chunk_to_mzml, mbind, sink_bind, lift. by rewrite H.
Qed.

(** With [ms2_only] true the products of the window are written standalone,
    numbered consecutively and without a [spectrum_reference]. *)
Lemma standalone_products_written encoding product_scans : ∀ scan_count calls0,
  encoding = 32 ∨ encoding = 64 →
  Forall writable_product product_scans →
  ∃ calls,
    for_each_sink (write_product encoding None) product_scans scan_count calls0
      = (Ok (scan_count + Z.of_nat (length calls)), calls0 ++ calls) ∧
    length calls = length product_scans ∧
    Forall (λ call, spectrum_reference call = None) calls.
Proof.
  intros c w Henc Hall. revert c w.
  induction Hall as [|d products [Hd Hc] _ IH]; intros c w.
  - exists []. simpl. rewrite Z.add_0_r, app_nil_r. by repeat split.
  - destruct (ms2_standalone_exists d (c + 1) encoding Hd Hc Henc) as (call & Hcall & _ & Href).
    destruct (IH (c + 1) (w ++ [call])) as (calls & Hrun & Hlen & Hrefs).
    exists (call :: calls). split; [|split].
    + simpl. unfold mbind at 1, sink_bind at 1, write_product at 1.
      unfold write_lcms_ms2_spectrum, mbind at 1, sink_bind at 1.
      unfold mbind at 1, sink_bind at 1, lift at 1.
      change (<["scan_number" := VInt (c + 1)]> d) with (numbered (c + 1) d).
      rewrite Hcall. simpl. rewrite Hrun. f_equal; [f_equal; lia|].
      by rewrite <- app_assoc.
    + simpl. by rewrite Hlen.
    + by constructor.
Qed.

(** C7, at the failing input: a ddaPASEF window whose MS1 frame 10 decodes
    to empty arrays.  The parser drops the parent and returns the two
    products of frame 10; the chunk writer, with [ms2_only] false, writes
    none of them.  With [ms2_only] true the parser returns no record at all
    for the same window. *)
Theorem orphan_products_not_written :
  let data := Samples.dda_window ([], []) in
  (Samples.window data "centroid" false (Some true) 10 12).1 = [] ∧
  length (Samples.window data "centroid" false (Some true) 10 12).2 = 2%nat ∧
  write_lcms_chunk_to_mzml (Samples.parser data "centroid" false (Some true)) false 64
    10 12 0 [] = (Ok 0, []) ∧
  Samples.parser data "centroid" true (Some true) 10 12 = Ok ([], []).
Proof. vm_compute. by repeat split. Qed.

(** ** Empty mobility-resolved extractions *)

(** The test on the extracted arrays reads [.size] first: on the [None]
    that stands for "empty" it raises. *)
Lemma arrays_usable_None intensity_array :
  arrays_usable None intensity_array = Raise AttributeError.
Proof. reflexivity. Qed.

(** An MS1 frame whose 3-D extraction is empty makes the parser raise. *)
Lemma empty_3d_frame_raises C data frame_start frame_stop mode exclude_mobility
    profile_bins encoding st frame frames_dict centroided :
  first (rows_where fr_Id frame (Frames data)) = Ok frames_dict →
  fr_MsMsType frames_dict ∈ cat_ms1 C →
  truthy exclude_mobility = false →
  get_centroid_status mode exclude_mobility = Ok (centroided, exclude_mobility) →
  extract_3d_tdf_spectrum data frame 0 (fr_NumScans frames_dict) = Ok (None, None, None) →
  parse_lcms_tdf_frame C data frame_start frame_stop mode false exclude_mobility
    profile_bins encoding st frame = Raise AttributeError.
Proof.
  intros Hrow Hms1 Hexcl Hmode Hempty. destruct st as [ps qs].
  unfold parse_lcms_tdf_frame. rewrite Hrow.
  cbn [mbind result_bind negb andb].
  rewrite bool_decide_eq_true_2 by done. cbn [andb].
  unfold populate_scan_dict_w_lcms_tsf_tdf_metadata. rewrite Hmode.
  cbn [mbind result_bind].
  unfold extract_frame_arrays. rewrite Hexcl. cbn [negb].
  rewrite Hempty. reflexivity.
Qed.

(** C8, at the failing input: three MS1 frames read with their mobility
    (centroid mode, mobility not excluded), frame 2 without data.  The 3-D
    extractor returns the empty result; the parser then raises
    [AttributeError] instead of dropping the record, and the run stops after
    the spectrum of frame 1. *)
Theorem empty_3d_extraction_raises :
  extract_3d_tdf_spectrum Samples.three_ms1 2 0 1 = Ok (None, None, None) ∧
  Samples.parser Samples.three_ms1 "centroid" false (Some false) 2 3
    = Raise AttributeError ∧
  ∃ calls,
    Samples.run Samples.three_ms1 "centroid" false (Some false) 10
      = Some (Raise AttributeError, calls) ∧
    scan_ids calls = [VInt 1].
Proof.
  split; [vm_compute; reflexivity|]. split; [vm_compute; reflexivity|].
  eexists. split; vm_compute; reflexivity.
Qed.

(** The scenario of the specification, with the mobility excluded: frame 2
    is dropped, two spectra are emitted with the numbers 1 and 2, and the
    declared count 3 is rewritten to 2. *)
Example three_frames_one_empty :
  get_spectra_count Samples.three_ms1 = 3 ∧
  ∃ calls,
    Samples.run Samples.three_ms1 "centroid" false (Some true) 10
      = Some (Ok {| tmp_file := None;
                    out_file := Some ["<mzML>"; spectrum_list_line 2; "<spectrum/>";
                                      "<spectrum/>"; "</mzML>"] |}, calls) ∧
    scan_ids calls = [VInt 1; VInt 2].
Proof.
  split; [vm_compute; reflexivity|].
  eexists. split; vm_compute; reflexivity.
Qed.

(** ** The binner *)

(** *** Accumulation by [np.bincount] *)

Lemma Qsum_cons x l : Qsum (x :: l) = (x + Qsum l)%Q.
Proof. reflexivity. Qed.


Lemma bincount_w_lookup (xw : list (nat * Q)) : ∀ (acc : list Q) j a,
  acc !! j = Some a →
  ∃ s, fold_left (λ acc iw, alter (λ s, s + iw.2)%Q iw.1 acc) xw acc !! j = Some s ∧
       (s == a + Qsum (snd <$> List.filter (λ p, Nat.eqb p.1 j) xw))%Q.
Proof.
  induction xw as [|[i v] xw IH]; intros acc j a Ha; simpl.
  - exists a. split; [done|]. unfold Qsum. simpl. by rewrite Qplus_0_r.
  - destruct (Nat.eqb_spec i j) as [->|Hne].
    + destruct (IH (alter (λ s, s + v)%Q j acc) j (a + v)%Q) as (s & Hs & Hq).
      { by rewrite list_lookup_alter_eq, Ha. }
      exists s. split; [done|]. rewrite Hq, fmap_cons, Qsum_cons. cbn [snd]. ring.
    + destruct (IH (alter (λ s, s + v)%Q i acc) j a) as (s & Hs & Hq).
      { by rewrite list_lookup_alter_ne. }
      exists s. split; done.
Qed.

Lemma bincount_w_length (xw : list (nat * Q)) : ∀ (acc : list Q),
  length (fold_left (λ acc iw, alter (λ s, s + iw.2)%Q iw.1 acc) xw acc) = length acc.
Proof.
  induction xw as [|[i v] xw IH]; intros acc; simpl; [done|].
  by rewrite IH, length_alter.
Qed.

Lemma bincount_lookup (x : list nat) : ∀ (acc : list nat) j a,
  acc !! j = Some a →
  fold_left (λ acc i, alter S i acc) x acc !! j
    = Some (a + length (List.filter (λ i, Nat.eqb i j) x))%nat.
Proof.
  induction x as [|i x IH]; intros acc j a Ha; simpl.
  - by rewrite Nat.add_0_r.
  - destruct (Nat.eqb_spec i j) as [->|Hne].
    + rewrite (IH _ j (S a)); [simpl; f_equal; lia|].
      by rewrite list_lookup_alter_eq, Ha.
    + apply IH. by rewrite list_lookup_alter_ne.
Qed.

Lemma bincount_length (x : list nat) : ∀ (acc : list nat),
  length (fold_left (λ acc i, alter S i acc) x acc) = length acc.
Proof.
  induction x as [|i x IH]; intros acc; simpl; [done|].
  by rewrite IH, length_alter.
Qed.

(** *** Grouping through the inverse indices *)

Lemma filter_cons_if {A} (f : A → bool) x l :
  List.filter f (x :: l) = if f x then x :: List.filter f l else List.filter f l.
Proof. reflexivity. Qed.


Lemma filter_group {A} (g : A → nat) (f : A → Q) (points : list A) j :
  snd <$> List.filter (λ p : nat * Q, Nat.eqb p.1 j) ((λ p, (g p, f p)) <$> points)
  = f <$> List.filter (λ p, Nat.eqb (g p) j) points.
Proof.
  induction points as [|p points IH]; [done|].
  rewrite fmap_cons, !filter_cons_if. cbn [fst].
  destruct (Nat.eqb (g p) j); rewrite ?fmap_cons; cbn [snd]; by rewrite IH.
Qed.

Lemma filter_count {A} (g : A → nat) (points : list A) j :
  length (List.filter (λ i, Nat.eqb i j) (g <$> points))
  = length (List.filter (λ p, Nat.eqb (g p) j) points).
Proof.
  induction points as [|p points IH]; [done|].
  rewrite fmap_cons, !filter_cons_if.
  destruct (Nat.eqb (g p) j); cbn [length]; by rewrite IH.
Qed.

Lemma index_of_lookup k (u : list nat) : k ∈ u → u !! index_of k u = Some k.
Proof.
  induction u as [|x u IH]; intros Hk; [by apply elem_of_nil in Hk|]. simpl.
  destruct (Nat.eqb_spec x k) as [->|Hne]; [done|]. simpl. apply IH.
  apply elem_of_cons in Hk as [->|Hk]; done.
Qed.

Lemma index_of_unique (u : list nat) : NoDup u → ∀ j k, u !! j = Some k → index_of k u = j.
Proof.
  induction 1 as [|x u Hx Hu IH]; intros j k Hj; [done|]. simpl.
  destruct j as [|j]; simpl in Hj.
  - injection Hj as ->. by rewrite Nat.eqb_refl.
  - destruct (Nat.eqb_spec x k) as [->|Hne].
    + exfalso. apply Hx. by eapply list_elem_of_lookup_2.
    + f_equal. by apply IH.
Qed.

(** *** [np.unique] on bin numbers *)

Lemma dedup_adjacent_elem_of (l : list nat) x : x ∈ l → x ∈ dedup_adjacent Nat.eqb l.
Proof.
  induction l as [|y [|z l] IH]; intros Hx; [done|done|].
  change (dedup_adjacent Nat.eqb (y :: z :: l)) with
    (if Nat.eqb y z then dedup_adjacent Nat.eqb (z :: l)
     else y :: dedup_adjacent Nat.eqb (z :: l)).
  destruct (Nat.eqb_spec y z) as [->|Hne].
  - apply IH. apply elem_of_cons in Hx as [->|Hx]; [left|done].
  - apply elem_of_cons in Hx as [->|Hx]; [left|right; by apply IH].
Qed.

Lemma dedup_adjacent_nat_sorted (l : list nat) :
  StronglySorted le l → StronglySorted lt (dedup_adjacent Nat.eqb l).
Proof.
  induction l as [|x [|y l] IH]; intros Hs.
  - constructor.
  - repeat constructor.
  - change (dedup_adjacent Nat.eqb (x :: y :: l)) with
      (if Nat.eqb x y then dedup_adjacent Nat.eqb (y :: l)
       else x :: dedup_adjacent Nat.eqb (y :: l)).
    apply StronglySorted_inv in Hs as [Hs Hx].
    specialize (IH Hs). destruct (Nat.eqb_spec x y) as [->|Hne]; [done|].
    constructor; [done|].
    apply Forall_forall. intros z Hz. apply dedup_adjacent_subseteq in Hz.
    apply Forall_cons in Hx as [Hxy Hxl].
    apply elem_of_cons in Hz as [->|Hz]; [lia|].
    apply StronglySorted_inv in Hs as [_ Hy].
    eapply Forall_forall in Hy; [|exact Hz]. lia.
Qed.

Lemma StronglySorted_lt_NoDup (l : list nat) : StronglySorted lt l → NoDup l.
Proof.
  induction 1 as [|x l Hs IH Hx]; constructor; [|done].
  intros Hin. eapply Forall_forall in Hx; [|exact Hin]. lia.
Qed.

Section unique_inverse.
Context (a : list nat).
Let u := (np_unique_inverse a).1.
Let inv := (np_unique_inverse a).2.

Lemma unique_sorted : StronglySorted lt u.
Proof. apply dedup_adjacent_nat_sorted, StronglySorted_merge_sort; apply _. Qed.

Lemma unique_elem_of k : k ∈ u ↔ k ∈ a.
Proof.
  unfold u, np_unique_inverse. simpl. split; intros Hk.
  - apply dedup_adjacent_subseteq in Hk. by rewrite merge_sort_Permutation in Hk.
  - apply dedup_adjacent_elem_of. by rewrite merge_sort_Permutation.
Qed.

Lemma inverse_spec : inv = (λ k, index_of k u) <$> a.
Proof. reflexivity. Qed.

Lemma inverse_length : a ≠ [] → bincount_len inv = length u.
Proof.
  intros Ha. rewrite inverse_spec. unfold bincount_len.
  assert (∃ a0, a0 ∈ a) as [a0 Ha0] by (destruct a; [done|eexists; left]).
  assert ((λ k, index_of k u) <$> a ≠ []) as Hne.
  { intros E. apply fmap_nil_inv in E. done. }
  destruct ((λ k, index_of k u) <$> a) as [|i0 iv] eqn:Eiv; [done|].
  rewrite <- Eiv in *. clear i0 iv Eiv.
  assert (u ≠ []) as Hu.
  { intros E. apply unique_elem_of in Ha0. rewrite E in Ha0.
    by apply elem_of_nil in Ha0. }
  assert (∀ i, i ∈ (λ k, index_of k u) <$> a → (i < length u)%nat) as Hlt.
  { intros i Hi. apply list_elem_of_fmap in Hi as (k & -> & Hk).
    apply unique_elem_of, index_of_lookup in Hk. by eapply lookup_lt_Some. }
  pose proof (Hlt _ (max_list_elem_of _ Hne)) as Hmax.
  destruct (last u) as [kl|] eqn:El; [|by apply last_None in El].
  assert (u !! (length u - 1)%nat = Some kl) as Hl.
  { rewrite <- El, last_lookup. f_equal. lia. }
  assert ((length u - 1)%nat ∈ (λ k, index_of k u) <$> a) as Hin.
  { apply list_elem_of_fmap. exists kl. split.
    - symmetry. apply index_of_unique; [|done].
      apply StronglySorted_lt_NoDup, unique_sorted.
    - apply unique_elem_of. by eapply list_elem_of_lookup_2. }
  apply max_list_elem_of_le in Hin. lia.
Qed.
End unique_inverse.

(** *** The edges *)

Lemma nondecreasing_true l :
  (∀ i x y, l !! i = Some x → l !! S i = Some y → (x <= y)%Q) → nondecreasing l = true.
Proof.
  induction l as [|x [|y l] IH]; intros H; [done|done|].
  change (nondecreasing (x :: y :: l)) with (Qle_bool x y && nondecreasing (y :: l)).
  apply andb_true_intro. split.
  - apply Qle_bool_iff. by apply (H 0%nat).
  - apply IH. intros i a b Ha Hb. by apply (H (S i)).
Qed.

Section edges.
Context (lo hi : Q) (num : Z) (Hnum : 2 ≤ num) (Hle : (lo <= hi)%Q).
Let n := Z.to_nat (num - 1).
Let step := ((hi - lo) / inject_Z (num - 1))%Q.
Let edge (i : nat) : Q := (lo + inject_Z (Z.of_nat i) * step)%Q.

Lemma linspace_unfold : np_linspace lo hi num = Ok ((edge <$> seq 0 n) ++ [hi]).
Proof.
  unfold np_linspace. repeat (destruct (decide _); [lia|]). reflexivity.
Qed.

Lemma step_nonneg : (0 <= step)%Q.
Proof.
  unfold step. apply Qle_shift_div_l.
  - change 0%Q with (inject_Z 0). rewrite <- Zlt_Qlt. lia.
  - lra.
Qed.

Lemma last_edge : (edge n == hi)%Q.
Proof.
  unfold edge, step, n. rewrite Z2Nat.id by lia.
  assert (¬ inject_Z (num - 1) == 0)%Q as Hne.
  { change 0%Q with (inject_Z 0). rewrite inject_Z_injective. lia. }
  field. exact Hne.
Qed.

Lemma edge_mono i j : (i ≤ j)%nat → (edge i <= edge j)%Q.
Proof.
  intros Hij. unfold edge.
  assert (inject_Z (Z.of_nat i) <= inject_Z (Z.of_nat j))%Q as H
    by (rewrite <- Zle_Qle; lia).
  pose proof step_nonneg as Hs.
  apply Qplus_le_r. apply Qmult_le_compat_r; done.
Qed.

Lemma linspace_lookup i :
  (i ≤ n)%nat → ∃ e, ((edge <$> seq 0 n) ++ [hi]) !! i = Some e ∧ (e == edge i)%Q.
Proof.
  intros Hi. destruct (decide (i = n)) as [->|Hne].
  - exists hi. split; [|symmetry; apply last_edge].
    rewrite lookup_app_r; rewrite length_fmap, length_seq; [|done].
    by rewrite Nat.sub_diag.
  - exists (edge i). split; [|reflexivity].
    rewrite lookup_app_l by (rewrite length_fmap, length_seq; lia).
    rewrite list_lookup_fmap, lookup_seq_lt by lia. done.
Qed.

Lemma linspace_nondecreasing : nondecreasing ((edge <$> seq 0 n) ++ [hi]) = true.
Proof.
  apply nondecreasing_true. intros i x y Hx Hy.
  assert (S i ≤ n)%nat as Hi.
  { apply lookup_lt_Some in Hy. rewrite length_app, length_fmap, length_seq in Hy.
    simpl in Hy. lia. }
  destruct (linspace_lookup i) as (x' & Hx' & Ex); [lia|].
  destruct (linspace_lookup (S i) Hi) as (y' & Hy' & Ey).
  rewrite Hx in Hx'. rewrite Hy in Hy'. injection Hx' as <-. injection Hy' as <-.
  rewrite Ex, Ey. apply edge_mono. lia.
Qed.
End edges.

Lemma linspace_digitize lo hi num xs edges :
  0 ≤ num → (lo <= hi)%Q → np_linspace lo hi num = Ok edges →
  np_digitize xs edges = Ok (bin_of edges <$> xs) ∧ length edges = Z.to_nat num.
Proof.
  intros Hnum Hle Hedges. unfold np_digitize.
  destruct (decide (num < 2)) as [Hsmall|Hbig].
  - unfold np_linspace in Hedges.
    destruct (decide (num < 0)); [lia|].
    destruct (decide (num = 0)) as [->|]; [by injection Hedges as <-|].
    destruct (decide (num = 1)) as [->|]; [by injection Hedges as <-|lia].
  - rewrite linspace_unfold in Hedges by lia. injection Hedges as <-.
    rewrite linspace_nondecreasing by (lia || done). split; [done|].
    rewrite length_app, length_fmap, length_seq. simpl. lia.
Qed.

(** *** The cells of the two [np.bincount] calls *)

Lemma zip_fmap_same {A} (g : A → nat) (f : A → Q) (points : list A) :
  zip (g <$> points) (f <$> points) = (λ p, (g p, f p)) <$> points.
Proof. induction points as [|p points IH]; [done|]. simpl. f_equal. exact IH. Qed.

Lemma np_bincount_w_spec {A} (g : A → nat) (f : A → Q) (points : list A) :
  ∃ out, np_bincount_w (g <$> points) (f <$> points) = Ok out ∧
    length out = bincount_len (g <$> points) ∧
    ∀ j, (j < length out)%nat →
      ∃ s, out !! j = Some s ∧
           (s == Qsum (f <$> List.filter (λ p, Nat.eqb (g p) j) points))%Q.
Proof.
  unfold np_bincount_w. rewrite decide_True by (by rewrite !length_fmap).
  rewrite (zip_fmap_same g f points).
  eexists. split; [reflexivity|]. rewrite bincount_w_length, length_replicate.
  split; [done|]. intros j Hj.
  destruct (bincount_w_lookup ((λ p, (g p, f p)) <$> points)
              (replicate (bincount_len (g <$> points)) 0%Q) j 0%Q) as (s & Hs & Hq).
  { by apply lookup_replicate_2. }
  exists s. split; [done|]. rewrite Hq, (filter_group g f points j). ring.
Qed.

Lemma np_bincount_spec {A} (g : A → nat) (points : list A) :
  length (np_bincount (g <$> points)) = bincount_len (g <$> points) ∧
  ∀ j, (j < bincount_len (g <$> points))%nat →
    np_bincount (g <$> points) !! j
      = Some (length (List.filter (λ p, Nat.eqb (g p) j) points)).
Proof.
  unfold np_bincount. rewrite bincount_length, length_replicate. split; [done|].
  intros j Hj. rewrite (bincount_lookup _ _ j 0%nat) by (by apply lookup_replicate_2).
  by rewrite filter_count.
Qed.

Lemma sorted_bounds (l : list Q) lo hi :
  StronglySorted Qle l → head l = Some lo → last l = Some hi →
  ∀ x, x ∈ l → (lo <= x)%Q ∧ (x <= hi)%Q.
Proof.
  intros Hs. revert lo hi. induction Hs as [|y l Hs IH Hy]; intros lo hi Hlo Hhi x Hx.
  - by apply elem_of_nil in Hx.
  - injection Hlo as <-. destruct l as [|z l].
    + injection Hhi as <-. apply list_elem_of_singleton in Hx as ->.
      split; apply Qle_refl.
    + change (last (y :: z :: l)) with (last (z :: l)) in Hhi.
      assert (y <= hi)%Q as Hyhi.
      { eapply Forall_forall in Hy; [exact Hy|]. by eapply last_Some_elem_of. }
      apply elem_of_cons in Hx as [->|Hx].
      * split; [apply Qle_refl|done].
      * split; [eapply Forall_forall in Hy; eauto|].
        by eapply (IH z hi eq_refl Hhi).
Qed.

Lemma np_linspace_total lo hi num : 0 ≤ num → ∃ edges, np_linspace lo hi num = Ok edges.
Proof.
  intros H. unfold np_linspace. destruct (decide _); [lia|].
  repeat (destruct (decide _); [eauto|]). eauto.
Qed.

Lemma bin_profile_spectrum_general mz_array intensity_array profile_bins encoding :
  mz_array ≠ [] → length intensity_array = length mz_array → 0 ≤ profile_bins →
  StronglySorted Qle mz_array →
  ∃ lo hi edges ks mz' it',
    head mz_array = Some lo ∧ last mz_array = Some hi ∧
    (∀ x, x ∈ mz_array → (lo <= x)%Q ∧ (x <= hi)%Q) ∧
    np_linspace lo hi profile_bins = Ok edges ∧
    length edges = Z.to_nat profile_bins ∧
    bin_profile_spectrum mz_array intensity_array profile_bins encoding = Ok (mz', it') ∧
    StronglySorted lt ks ∧
    (∀ k, k ∈ ks ↔ ∃ x, x ∈ mz_array ∧ bin_of edges x = k) ∧
    length mz' = length ks ∧ length it' = length ks ∧
    Forall2 point_eq (zip mz' it')
      (binned_point edges (zip mz_array intensity_array) <$> ks).
Proof.
  intros Hne Hlen Hbins Hsorted.
  destruct (head mz_array) as [lo|] eqn:Hlo; [|by destruct mz_array].
  destruct (last mz_array) as [hi|] eqn:Hhi; [|by apply last_None in Hhi].
  pose proof (sorted_bounds mz_array lo hi Hsorted Hlo Hhi) as Hbounds.
  assert (lo <= hi)%Q as Hle.
  { apply Hbounds. destruct mz_array; [done|]. injection Hlo as ->. left. }
  destruct (np_linspace_total lo hi profile_bins Hbins) as [edges Hedges].
  destruct (linspace_digitize lo hi profile_bins mz_array edges Hbins Hle Hedges)
    as [Hdig Hedgelen].
  set (points := zip mz_array intensity_array).
  assert (mz_array = fst <$> points) as Hmz by (symmetry; apply fst_zip; lia).
  assert (intensity_array = snd <$> points) as Hit by (symmetry; apply snd_zip; lia).
  set (a := bin_of edges <$> mz_array) in *.
  set (u := (np_unique_inverse a).1).
  set (g := λ p : Q * Q, index_of (bin_of edges p.1) u).
  assert ((np_unique_inverse a).2 = g <$> points) as Hinv.
  { rewrite inverse_spec. unfold a. rewrite Hmz at 1.
    rewrite <- !list_fmap_compose. done. }
  assert (a ≠ []) as Ha by (unfold a; by destruct mz_array).
  pose proof (inverse_length a Ha) as Hblen. rewrite Hinv in Hblen. fold u in Hblen.
  destruct (np_bincount_w_spec g fst points) as (sums & Hsums & Hslen & Hscell).
  destruct (np_bincount_w_spec g snd points) as (ints & Hints & Hilen & Hicell).
  destruct (np_bincount_spec g points) as (Hclen & Hccell).
  rewrite <- Hmz in Hsums. rewrite <- Hit in Hints.
  rewrite Hblen in *.
  assert (∀ j k, u !! j = Some k →
            List.filter (λ p, Nat.eqb (g p) j) points = bin_members edges k points) as Hmem.
  { intros j k Hj. unfold bin_members. apply filter_ext_in. intros p Hp. unfold g.
    assert (bin_of edges p.1 ∈ u) as Hin.
    { apply unique_elem_of. unfold a. rewrite Hmz.
      apply list_elem_of_fmap. exists p.1. split; [done|].
      apply list_elem_of_fmap. exists p. split; [done|]. by apply list_elem_of_In. }
    destruct (Nat.eqb_spec (bin_of edges p.1) k) as [->|Hk].
    - rewrite (index_of_unique u (StronglySorted_lt_NoDup _ (unique_sorted a)) j k Hj).
      apply Nat.eqb_refl.
    - apply Nat.eqb_neq. intros E. apply index_of_lookup in Hin. rewrite E in Hin.
      congruence. }
  exists lo, hi, edges, u,
    (np_divide sums (np_place_lt1 (np_bincount (g <$> points)))), ints.
  split; [done|]. split; [done|]. split; [done|]. split; [done|]. split; [done|].
  split.
  { unfold bin_profile_spectrum.
    assert (first mz_array = Ok lo) as -> by (destruct mz_array; [done|]; by injection Hlo as ->).
    assert (last_item mz_array = Ok hi) as -> by (unfold last_item; by rewrite Hhi).
    cbn [mbind result_bind]. rewrite Hedges. cbn [mbind result_bind].
    rewrite Hdig. cbn [mbind result_bind]. fold a.
    rewrite (surjective_pairing (np_unique_inverse a)), Hinv.
    rewrite Hsums. cbn [mbind result_bind]. rewrite Hints. reflexivity. }
  split; [apply unique_sorted|].
  split.
  { intros k. unfold u. rewrite unique_elem_of. unfold a. rewrite list_elem_of_fmap.
    split; intros (x & H1 & H2); eauto. }
  assert (length (np_divide sums (np_place_lt1 (np_bincount (g <$> points)))) = length u)
    as Hdlen.
  { unfold np_divide, np_place_lt1. rewrite length_zip_with, length_fmap, Hclen. lia. }
  split; [done|]. split; [done|].
  apply Forall2_same_length_lookup. split.
  { rewrite length_zip_with, length_fmap. lia. }
  intros j [m s] q Hzip Hq.
  apply list_lookup_fmap_Some in Hq as (k & -> & Hk).
  apply lookup_zip_with_Some in Hzip as (m' & s' & [= <- <-] & Hm & Hs).
  assert (j < length u)%nat as Hj by (by eapply lookup_lt_Some).
  destruct (Hscell j) as (sm & Hsm & Esm); [lia|].
  destruct (Hicell j) as (si & Hsi & Esi); [lia|].
  rewrite Hs in Hsi. injection Hsi as ->.
  rewrite (Hmem j k Hk) in Esm, Esi.
  unfold np_divide in Hm.
  apply lookup_zip_with_Some in Hm as (sm' & c & -> & Hsm' & Hc).
  rewrite Hsm in Hsm'. injection Hsm' as <-.
  unfold np_place_lt1 in Hc. apply list_lookup_fmap_Some in Hc as (c0 & -> & Hc0).
  rewrite (Hccell j Hj), (Hmem j k Hk) in Hc0. injection Hc0 as <-.
  assert (1 ≤ length (bin_members edges k points))%nat as Hc1.
  { assert (k ∈ u) as Hku by (by eapply list_elem_of_lookup_2).
    apply (proj1 (unique_elem_of a k)) in Hku. unfold a in Hku. rewrite Hmz in Hku.
    apply list_elem_of_fmap in Hku as (x & -> & Hx).
    apply list_elem_of_fmap in Hx as (p & -> & Hp).
    assert (p ∈ bin_members edges (bin_of edges p.1) points) as Hpm.
    { apply list_elem_of_In, filter_In. split; [by apply list_elem_of_In|].
      apply Nat.eqb_refl. }
    destruct (bin_members _ _ _); [by apply elem_of_nil in Hpm|simpl; lia]. }
  split; cbn [fst snd binned_point].
  - unfold mean. rewrite length_fmap.
    destruct (Nat.ltb_spec (length (bin_members edges k points)) 1) as [?|_]; [lia|].
    by rewrite Esm.
  - done.
Qed.

Lemma linspace_even lo hi num edges :
  2 ≤ num → (lo <= hi)%Q → np_linspace lo hi num = Ok edges →
  ∀ i : nat, Z.of_nat i < num →
    ∃ e, edges !! i = Some e ∧
         (e == lo + inject_Z (Z.of_nat i) * ((hi - lo) / inject_Z (num - 1)))%Q.
Proof.
  intros Hnum Hle Hedges i Hi. rewrite linspace_unfold in Hedges by done.
  injection Hedges as <-. apply linspace_lookup; (done || lia).
Qed.



(** ** The properties at sample inputs *)

Lemma Forall_forallb {A} (f : A → bool) (l : list A) :
  forallb f l = true → Forall (λ x, f x = true) l.
Proof.
  rewrite forallb_forall, Forall_forall. intros H x Hx. by apply H, list_elem_of_In.
Qed.

Lemma Forall_writable (l : list ScanDict) :
  forallb (λ d, complete d && charge_readable d) l = true → Forall writable_product l.
Proof.
  intros H. apply Forall_forallb in H. eapply Forall_impl; [exact H|].
  intros d Hd. by apply andb_true_iff in Hd.
Qed.

Lemma window_parsed data mode ms2_only exclude_mobility frame_start frame_stop :
  Samples.parses data mode ms2_only exclude_mobility frame_start frame_stop = true →
  Samples.parser data mode ms2_only exclude_mobility frame_start frame_stop
    = Ok ((Samples.window data mode ms2_only exclude_mobility frame_start frame_stop).1,
          (Samples.window data mode ms2_only exclude_mobility frame_start frame_stop).2).
Proof.
  unfold Samples.parses, Samples.window.
  destruct (Samples.parser _ _ _ _ _ _) as [[ps qs]|e]; [done|discriminate].
Qed.

(** C4, as stated, fails: a frame whose two sub-scans hold m/z 100 at two
    mobilities is merged into an [mz_array] that holds 100 twice. *)
Lemma merged_mz_repeats :
  extract_3d_tdf_spectrum Samples.two_mobilities 1 0 2
    = Ok (Some [100; 100]%Q, Some [5; 7]%Q, Some [10 # 10; 11 # 10]%Q) ∧
  ¬ StronglySorted Qlt [100; 100]%Q.
Proof.
  split; [vm_compute; reflexivity|].
  intros H. apply StronglySorted_inv in H as [_ H].
  apply Forall_cons in H as [H _]. vm_compute in H. discriminate H.
Qed.

Lemma merged_rows_ascending_witness :
  (∃ rows,
     [100; 100]%Q = column 0 rows ∧ [5; 7]%Q = column 1 rows ∧
     [10 # 10; 11 # 10]%Q = column 2 rows ∧
     Forall (λ r, length r = 3%nat) rows ∧
     StronglySorted row_lt rows ∧ StronglySorted Qle [100; 100]%Q) ∧
  (∃ rows,
     [100; 100]%Q = column 0 rows ∧ [5; 7]%Q = column 1 rows ∧
     Forall (λ r, length r = 2%nat) rows ∧
     StronglySorted row_lt rows ∧ StronglySorted Qle [100; 100]%Q).
Proof.
  destruct merged_rows_ascending as [H3 H2]. split.
  - apply (H3 Samples.two_mobilities 1 0%nat 2%nat). vm_compute. reflexivity.
  - apply (H2 Samples.two_mobilities 1 0%nat 2%nat 0 64). vm_compute. reflexivity.
Defined.

Lemma profile_mode_excludes_mobility_witness :
  length (Samples.window Samples.three_ms1 "profile" false (Some false) 1 2).1 = 1%nat ∧
  (∀ scan_dict,
     scan_dict ∈ (Samples.window Samples.three_ms1 "profile" false (Some false) 1 2).1
                 ++ (Samples.window Samples.three_ms1 "profile" false (Some false) 1 2).2 →
     scan_dict !! "mobility_array" = Some VNone) ∧
  get_centroid_status "raw" (Some false) = Ok (true, Some false).
Proof.
  destruct profile_mode_excludes_mobility as (_ & Hprofile & Hother).
  split; [vm_compute; reflexivity|]. split.
  - apply (Hprofile Samples.categories Samples.three_ms1 1 2 false (Some false) 0 64).
    apply (window_parsed Samples.three_ms1). vm_compute. reflexivity.
  - apply Hother. by right.
Defined.

Lemma nan_charge_leaves_ccs_unset_witness :
  (∃ scan_dict',
     populate_scan_dict_w_ddapasef_ms2 init_scan_dict (Samples.dda_window ([], []))
       (Samples.precursor_row 2 NaN) [Samples.pasef_row 2] = Ok scan_dict' ∧
     scan_dict' !! "selected_ion_ccs" = Some VNone ∧
     scan_dict' !! "charge_state" = Some (VFloat NaN)) ∧
  (∃ scan_dict',
     populate_scan_dict_w_prmpasef_ms2 (Samples.dda_window ([], [])) init_scan_dict
       {| pm_Frame := 11; pm_Target := 1; pm_ScanNumBegin := 0; pm_ScanNumEnd := 1;
          pm_IsolationMz := 500; pm_IsolationWidth := 2; pm_CollisionEnergy := 30 |}
       {| pt_Id := 1; pt_OneOverK0 := 1; pt_Charge := NaN |} = Ok scan_dict' ∧
     scan_dict' !! "selected_ion_ccs" = Some VNone ∧
     scan_dict' !! "selected_ion_mobility" = Some (VFloat (Fl 1))).
Proof.
  destruct nan_charge_leaves_ccs_unset as (Hdda & Hprm & Hinit). split.
  - destruct (Hdda init_scan_dict (Samples.dda_window ([], []))
                (Samples.precursor_row 2 NaN) (Samples.pasef_row 2) [] eq_refl)
      as (d & Hd & Hccs & _ & Hcharge & _).
    exists d. split; [exact Hd|]. split; [by rewrite Hccs|exact Hcharge].
  - destruct (Hprm init_scan_dict (Samples.dda_window ([], []))
                {| pm_Frame := 11; pm_Target := 1; pm_ScanNumBegin := 0;
                   pm_ScanNumEnd := 1; pm_IsolationMz := 500; pm_IsolationWidth := 2;
                   pm_CollisionEnergy := 30 |}
                {| pt_Id := 1; pt_OneOverK0 := 1; pt_Charge := NaN |} eq_refl)
      as (d & Hd & Hccs & Hmob & _).
    exists d. split; [exact Hd|]. split; [by rewrite Hccs|exact Hmob].
Defined.


(** The base peak of the sample above is the first of the two maxima. *)
Example base_peak_first_of_ties :
  populate_scan_dict_w_spectrum_data init_scan_dict [100; 200; 300]%Q [5; 9; 9]%Q
    ≫= (λ d, getitem d "base_peak_mz") = Ok (VFloat (Fl 200)).
Proof. vm_compute. reflexivity. Qed.

Lemma linked_products_follow_parent_witness :
  let data := Samples.dda_window ([100; 1005 # 10]%Q, [1; 2]%Q) in
  let records := Samples.window data "centroid" false (Some true) 10 12 in
  length records.1 = 1%nat ∧ length records.2 = 2%nat ∧
  ∃ calls,
    write_lcms_chunk_to_mzml (Samples.parser data "centroid" false (Some true)) false 64
      10 12 0 [] = (Ok (0 + Z.of_nat (length calls)), [] ++ calls) ∧
    Forall2 (emitted_as 64) (linked_emission 0 records.1 records.2) calls.
Proof.
  intros data records.
  split; [vm_compute; reflexivity|]. split; [vm_compute; reflexivity|].
  apply (linked_products_follow_parent
           (Samples.parser data "centroid" false (Some true)) 64 10 12 0 []
           records.1 records.2).
  - right. reflexivity.
  - apply (window_parsed data). vm_compute. reflexivity.
  - apply Forall_forallb. vm_compute. reflexivity.
  - apply Forall_writable. vm_compute. reflexivity.
Defined.

(** The scenario of the specification: MS1 frame 10 and its two products
    get the numbers 1, 2 and 3, and both products refer to scan 1. *)
Example parent_then_children :
  let data := Samples.dda_window ([100; 1005 # 10]%Q, [1; 2]%Q) in
  ∃ calls,
    write_lcms_chunk_to_mzml (Samples.parser data "centroid" false (Some true)) false 64
      10 12 0 [] = (Ok 3, calls) ∧
    scan_ids calls = [VInt 1; VInt 2; VInt 3] ∧
    spectrum_reference <$> calls = [None; Some (VInt 1); Some (VInt 1)] ∧
    (λ c, lookup "ms level" (list_to_map (M := gmap string pyval) (call_params c)))
      <$> calls = [Some (VInt 1); Some (VInt 2); Some (VInt 2)].
Proof.
  intros data. eexists. split; [vm_compute; reflexivity|].
  repeat split; vm_compute; reflexivity.
Qed.



(** ** Records the parser returns can be written *)

Lemma complete_insert k v d : complete d = true → complete (<[k := v]> d) = true.
Proof.
  unfold complete. rewrite !forallb_forall. intros H x Hx.
  specialize (H x Hx). unfold has_key in *.
  apply bool_decide_eq_true in H. apply bool_decide_eq_true.
  destruct (decide (k = x)) as [->|Hne].
  - rewrite lookup_insert_eq. eauto.
  - by rewrite lookup_insert_ne.
Qed.

Lemma complete_init : complete init_scan_dict = true.
Proof. vm_compute. reflexivity. Qed.

Ltac keeps_complete f :=
  unfold f; intros; inv_result; repeat apply complete_insert; done.

Lemma metadata_complete d fr mode e d' :
  complete d = true →
  populate_scan_dict_w_lcms_tsf_tdf_metadata d fr mode e = Ok d' → complete d' = true.
Proof. keeps_complete populate_scan_dict_w_lcms_tsf_tdf_metadata. Qed.

Lemma spectrum_data_complete d mz it d' :
  complete d = true →
  populate_scan_dict_w_spectrum_data d mz it = Ok d' → complete d' = true.
Proof. keeps_complete populate_scan_dict_w_spectrum_data. Qed.

Lemma ddapasef_complete d data p ps d' :
  complete d = true →
  populate_scan_dict_w_ddapasef_ms2 d data p ps = Ok d' → complete d' = true.
Proof. keeps_complete populate_scan_dict_w_ddapasef_ms2. Qed.

Lemma prmpasef_complete d data p t d' :
  complete d = true →
  populate_scan_dict_w_prmpasef_ms2 data d p t = Ok d' → complete d' = true.
Proof. keeps_complete populate_scan_dict_w_prmpasef_ms2. Qed.

Lemma store_arrays_complete d e mz it mob d' :
  complete d = true → store_arrays d e mz it mob = Ok d' → complete d' = true.
Proof.
  unfold store_arrays. intros Hd H. apply bind_Ok in H as (d1 & H1 & H).
  apply spectrum_data_complete in H1; [|done].
  apply bind_Ok in H as (keep & _ & H). destruct keep; injection H as <-; [|done].
  by apply complete_insert.
Qed.

Lemma ddapasef_charge d data p ps d' :
  populate_scan_dict_w_ddapasef_ms2 d data p ps = Ok d' → charge_readable d' = true.
Proof.
  unfold populate_scan_dict_w_ddapasef_ms2, charge_readable. intros H.
  inv_result; rewrite ?lookup_insert_ne by done; by rewrite lookup_insert_eq.
Qed.

Lemma spectrum_data_charge d mz it d' :
  populate_scan_dict_w_spectrum_data d mz it = Ok d' →
  charge_readable d' = charge_readable d.
Proof.
  unfold populate_scan_dict_w_spectrum_data, charge_readable. intros H.
  inv_result. by rewrite !lookup_insert_ne by done.
Qed.

Section parsed_records.
Context (C : MsMsTypeCategory) (data : TdfData) (a b : Z) (mode : string).
Context (ms2_only : bool) (excl : option bool) (bins enc : Z).

Lemma precursor_writable fr l p l' :
Forall writable_product l →
parse_ddapasef_precursor data mode excl bins enc fr l p = Ok l' →
Forall writable_product l'.
Proof.
unfold parse_ddapasef_precursor. intros Hl H. inv_result; try done.
apply Forall_snoc; [done|]. split.
- eapply spectrum_data_complete; [|eassumption].
  eapply ddapasef_complete; [|eassumption].
  eapply metadata_complete; [|eassumption]. apply complete_init.
- erewrite spectrum_data_charge by eassumption. by eapply ddapasef_charge.
Qed.

Lemma window_complete fr f l w l' :
Forall (λ d, complete d = true) l →
parse_diapasef_window data mode excl bins enc fr f l w = Ok l' →
Forall (λ d, complete d = true) l'.
Proof.
unfold parse_diapasef_window. intros Hl H. inv_result; try done.
apply Forall_snoc; [done|].
eapply store_arrays_complete; [|eassumption].
unfold populate_scan_dict_w_diapasef_ms2. repeat apply complete_insert.
eapply metadata_complete; [|eassumption]. apply complete_init.
Qed.

Lemma frame_writable st f st' :
Forall (λ d, complete d = true) st.1 ∧ Forall writable_product st.2 →
parse_lcms_tdf_frame C data a b mode ms2_only excl bins enc st f = Ok st' →
Forall (λ d, complete d = true) st'.1 ∧ Forall writable_product st'.2.
Proof.
destruct st as [ps qs]. unfold parse_lcms_tdf_frame. simpl. intros [Hp Hq] H.
inv_result; simpl; try (split; done).
all: repeat match goal with
  | |- _ ∧ _ => split
  | |- Forall _ ?l => assumption
  | H : for_each (parse_ddapasef_precursor _ _ _ _ _ _) _ _ = Ok ?l
    |- Forall writable_product ?l =>
      eapply (for_each_inv (Forall writable_product)); [|exact Hq|exact H];
      intros; by eapply precursor_writable
  | H : for_each (parse_diapasef_window _ _ _ _ _ _ _) _ _ = Ok ?l
    |- Forall _ ?l =>
      eapply (for_each_inv (Forall (λ d, complete d = true))); [|exact Hp|exact H];
      intros; by eapply window_complete
  | |- Forall _ (_ ++ [_]) => apply Forall_snoc; [done|]
  end.
all: repeat first
  [ eapply store_arrays_complete; [|eassumption]
  | eapply spectrum_data_complete; [|eassumption]
  | eapply prmpasef_complete; [|eassumption] ].
all: unfold populate_scan_dict_w_ms1, populate_scan_dict_w_bbcid_iscid_ms2,
       populate_scan_dict_w_tsf_ms2; repeat apply complete_insert.
all: eapply metadata_complete; [|eassumption]; apply complete_init.
Qed.
End parsed_records.

(** Every record [parse_lcms_tdf] returns has the keys the writers read, and
    every product has a numeric charge state: the hypotheses of the emission
    order hold for the windows of a TDF run. *)
Lemma parse_lcms_tdf_writable C data frame_start frame_stop mode ms2_only
    exclude_mobility profile_bins encoding parent_scans product_scans :
  parse_lcms_tdf C data frame_start frame_stop mode ms2_only exclude_mobility
    profile_bins encoding = Ok (parent_scans, product_scans) →
  Forall (λ d, complete d = true) parent_scans ∧ Forall writable_product product_scans.
Proof.
  unfold parse_lcms_tdf. intros H. apply bind_Ok in H as ([c e] & _ & H).
  eapply (for_each_inv
            (λ st, Forall (λ d, complete d = true) st.1 ∧ Forall writable_product st.2))
    in H; [exact H| |by split].
  intros st f st'. apply frame_writable.
Qed.

(** The emission order for a window of a TDF run, with no assumption on the
    records. *)
Lemma tdf_window_linked_order C data frame_start frame_stop mode exclude_mobility
    profile_bins encoding scan_count calls0 parent_scans product_scans :
  encoding = 32 ∨ encoding = 64 →
  parse_lcms_tdf C data frame_start frame_stop mode false exclude_mobility
    profile_bins encoding = Ok (parent_scans, product_scans) →
  ∃ calls,
    write_lcms_chunk_to_mzml
      (λ frame_start frame_stop,
         parse_lcms_tdf C data frame_start frame_stop mode false exclude_mobility
           profile_bins encoding)
      false encoding frame_start frame_stop scan_count calls0
      = (Ok (scan_count + Z.of_nat (length calls)), calls0 ++ calls) ∧
    Forall2 (emitted_as encoding) (linked_emission scan_count parent_scans product_scans)
      calls.
Proof.
  intros Henc Hparse.
  destruct (parse_lcms_tdf_writable _ _ _ _ _ _ _ _ _ _ _ Hparse) as [Hps Hqs].
  destruct (parents_written encoding Henc product_scans parent_scans scan_count calls0
              Hps Hqs) as (calls & Hrun & Hem).
  exists calls. split; [|done].
  unfold write_lcms_chunk_to_mzml, mbind at 1, sink_bind at 1, lift.
  rewrite Hparse. exact Hrun.
Qed.

(** ** The windows of a run *)

Lemma for_each_sink_app {A S} (body : S → A → Sink S) l1 l2 s w :
  for_each_sink body (l1 ++ l2) s w
  = (for_each_sink body l1 s ≫= for_each_sink body l2) w.
Proof.
  revert s w. induction l1 as [|x l1 IH]; intros s w; [done|].
  simpl. unfold mbind, sink_bind in *.
  destruct (body s x w) as [[s'|e] w']; [apply IH|done].
Qed.

Lemma consecutive_length l : length (consecutive l) = (length l - 1)%nat.
Proof. unfold consecutive. rewrite length_zip_with, length_drop. lia. Qed.

Lemma chunk_pairs l chunk chunk_size :
  zip (take chunk_size (drop chunk l)) (take chunk_size (drop (chunk + 1) l))
  = take chunk_size (drop chunk (consecutive l)).
Proof.
  unfold consecutive. rewrite zip_with_drop, zip_with_take, drop_drop.
  by rewrite (Nat.add_comm 1 chunk).
Qed.

Lemma rest_pairs l chunk :
  zip (drop chunk (take (length l - 1) l)) (drop (chunk + 1) l)
  = drop chunk (consecutive l).
Proof.
  unfold consecutive. rewrite zip_with_drop, drop_drop, (Nat.add_comm 1 chunk).
  rewrite <- (zip_with_take_l' _ (length l - 1 - chunk)%nat (drop chunk l))
    by (rewrite !length_drop; lia).
  f_equal. rewrite take_drop_commute.
  destruct (decide (chunk ≤ length l - 1)%nat) as [Hle|Hgt].
  - do 2 f_equal. lia.
  - rewrite !drop_ge by (rewrite length_take; lia). done.
Qed.

Lemma last_consecutive l chunk jl :
  last l = Some jl → (chunk + 2 ≤ length l)%nat →
  ∃ i, last (drop chunk (consecutive l)) = Some (i, jl).
Proof.
  intros Hl Hc. rewrite last_lookup, length_drop, consecutive_length.
  rewrite last_lookup in Hl.
  rewrite lookup_drop. unfold consecutive.
  destruct (lookup_lt_is_Some_2 l (length l - 2)%nat) as [i Hi]; [lia|].
  exists i. apply lookup_zip_with_Some. exists i, jl. split; [done|]. split.
  - rewrite <- Hi. f_equal. lia.
  - rewrite lookup_drop, <- Hl. f_equal. lia.
Qed.

Lemma sink_bind_assoc {A B C} (m : Sink A) (f : A → Sink B) (g : B → Sink C) w :
  ((m ≫= f) ≫= g) w = (m ≫= λ a, f a ≫= g) w.
Proof. unfold mbind, sink_bind. by destruct (m w) as [[a|e] w']. Qed.

Lemma loop_variable_last pairs j i jl :
  last pairs = Some (i, jl) → loop_variable pairs j = Some jl.
Proof. unfold loop_variable. by intros ->. Qed.

Section window_walk.
Context (parse_lcms : Z → Z → result (list ScanDict * list ScanDict)).
Context (ms2_only : bool) (encoding : Z).
Context (ms1_frames : list Z) (frames_shape_0 chunk_size : nat).
Context (jl : Z) (Hlast : last ms1_frames = Some jl) (Hsize : (1 ≤ chunk_size)%nat).

Lemma write_chunk_list_app l1 l2 c w :
  write_chunk_list parse_lcms ms2_only encoding (l1 ++ l2) c w
  = (write_chunk_list parse_lcms ms2_only encoding l1 c
     ≫= write_chunk_list parse_lcms ms2_only encoding l2) w.
Proof. apply for_each_sink_app. Qed.

Lemma write_chunks_walk fuel : ∀ chunk j c w,
  (chunk + 1 ≤ length ms1_frames)%nat → (length ms1_frames + 1 ≤ chunk + fuel)%nat →
  (chunk + 2 ≤ length ms1_frames)%nat ∨ j = Some jl →
  write_chunks parse_lcms ms2_only encoding ms1_frames frames_shape_0 chunk_size
    fuel chunk j c w
  = (write_chunk_list parse_lcms ms2_only encoding
       (drop chunk (consecutive ms1_frames) ++ [(jl, Z.of_nat frames_shape_0 + 1)]) c
     ≫= λ c', mret (Some c')) w.
Proof.
  induction fuel as [|fuel IH]; intros chunk j c w Hchunk Hfuel Hj; [lia|].
  cbn [write_chunks]. destruct (decide _) as [Hcond|Hcond].
  - rewrite chunk_pairs.
    set (chunk_list := take chunk_size (drop chunk (consecutive ms1_frames))).
    assert (length chunk_list = chunk_size) as Hlen.
    { unfold chunk_list. rewrite length_take, length_drop, consecutive_length. lia. }
    assert (∃ p, first chunk_list = Ok p) as [p Hp].
    { destruct chunk_list; [simpl in Hlen; lia|by eexists]. }
    rewrite <- (take_drop chunk_size (drop chunk (consecutive ms1_frames))) at 1.
    fold chunk_list. rewrite drop_drop, <- (assoc_L (++)).
    unfold mbind at 1, sink_bind at 1, lift at 1. rewrite Hp.
    unfold mbind at 2, sink_bind at 2. rewrite write_chunk_list_app.
    unfold mbind, sink_bind.
    destruct (write_chunk_list _ _ _ chunk_list c w) as [[c'|e] w']; [|done].
    rewrite IH; [done|lia|lia|].

    destruct (decide (chunk + chunk_size + 2 ≤ length ms1_frames)%nat); [by left|right].
    destruct (last_consecutive ms1_frames chunk jl Hlast) as [i Hi]; [lia|].
    apply (loop_variable_last _ _ i). unfold chunk_list.
    rewrite take_ge; [done|]. rewrite length_drop, consecutive_length. lia.
  - rewrite rest_pairs.
    assert (loop_variable (drop chunk (consecutive ms1_frames)) j = Some jl) as ->; [|done].
    destruct (decide (chunk + 2 ≤ length ms1_frames)%nat) as [Hc|Hc].
    + destruct (last_consecutive ms1_frames chunk jl Hlast Hc) as [i Hi].
      by apply (loop_variable_last _ _ i).
    + destruct Hj as [?| ->]; [lia|]. rewrite drop_ge; [done|].
      rewrite consecutive_length. lia.
Qed.

Lemma write_chunks_windows :
  (2 ≤ length ms1_frames)%nat →
  write_chunks parse_lcms ms2_only encoding ms1_frames frames_shape_0 chunk_size
    (S (length ms1_frames)) 0 None 0 []
  = (write_chunk_list parse_lcms ms2_only encoding
       (run_windows ms1_frames frames_shape_0) 0 ≫= λ c', mret (Some c')) [].
Proof.
  intros Hlen. rewrite write_chunks_walk; [|lia|lia|by left].
  unfold run_windows. by rewrite Hlast.
Qed.
End window_walk.

Lemma write_chunks_short parse_lcms ms2_only encoding ms1_frames frames_shape_0 chunk_size :
  (length ms1_frames < 2)%nat → (1 ≤ chunk_size)%nat →
  write_chunks parse_lcms ms2_only encoding ms1_frames frames_shape_0 chunk_size
    (S (length ms1_frames)) 0 None 0 [] = (Raise UnboundLocalError, []).
Proof.
  intros Hlen Hsize. cbn [write_chunks]. rewrite decide_False by lia.
  rewrite rest_pairs, drop_ge by (rewrite consecutive_length; lia). done.
Qed.

Lemma last_is_Some {A} (l : list A) : (1 ≤ length l)%nat → is_Some (last l).
Proof. intros H. rewrite last_lookup. apply lookup_lt_is_Some_2. lia. Qed.

(** X1. With at least two MS1 frames and a chunk size of at least one, the
    [while ... else] loop of [write_lcms_mzml] parses and writes the windows
    from each MS1 frame to the next one and, last, the window from the last
    MS1 frame to [frames.shape[0] + 1]: each once, in order, with the scan
    count threaded through. *)
Theorem run_walks_consecutive_windows parse_lcms ms2_only encoding ms1_frames
    frames_shape_0 chunk_size :
  (1 ≤ chunk_size)%nat → (2 ≤ length ms1_frames)%nat →
  write_chunks parse_lcms ms2_only encoding ms1_frames frames_shape_0 chunk_size
    (S (length ms1_frames)) 0 None 0 []
  = (write_chunk_list parse_lcms ms2_only encoding
       (run_windows ms1_frames frames_shape_0) 0 ≫= λ scan_count, mret (Some scan_count)) [].
Proof.
  intros Hsize Hlen. destruct (last_is_Some ms1_frames) as [jl Hlast]; [lia|].
  by apply (write_chunks_windows _ _ _ _ _ _ jl).
Qed.

(** X2. The chunk size does not change the outcome of a run: any two chunk
    sizes of at least one give the same calls to the sink and the same
    files or the same exception. *)
Theorem chunk_size_irrelevant parse_lcms ms2_only encoding preamble closing render
    ms1_frames frames_shape_0 chunk_size chunk_size' num_of_spectra :
  (1 ≤ chunk_size)%nat → (1 ≤ chunk_size')%nat →
  write_lcms_mzml parse_lcms ms2_only encoding preamble closing render ms1_frames
    frames_shape_0 chunk_size num_of_spectra
  = write_lcms_mzml parse_lcms ms2_only encoding preamble closing render ms1_frames
      frames_shape_0 chunk_size' num_of_spectra.
Proof.
  intros Hsize Hsize'. unfold write_lcms_mzml.
  destruct (decide (2 ≤ length ms1_frames)%nat) as [Hlen|Hlen].
  - destruct (last_is_Some ms1_frames) as [jl Hlast]; [lia|].
    by rewrite !(write_chunks_windows _ _ _ _ _ _ jl).
  - by rewrite !write_chunks_short by lia.
Qed.

(** X3. A run over fewer than two MS1 frames writes no spectrum and ends
    with [UnboundLocalError]: the closing window reads the loop variable [j],
    which no iteration has assigned. *)
Theorem too_few_ms1_frames_raises parse_lcms ms2_only encoding preamble closing render
    ms1_frames frames_shape_0 chunk_size num_of_spectra :
  (length ms1_frames < 2)%nat → (1 ≤ chunk_size)%nat →
  write_lcms_mzml parse_lcms ms2_only encoding preamble closing render ms1_frames
    frames_shape_0 chunk_size num_of_spectra = Some (Raise UnboundLocalError, []).
Proof.
  intros Hlen Hsize. unfold write_lcms_mzml. by rewrite write_chunks_short.
Qed.

(** X4. With a chunk size of zero and at least one MS1 frame the run writes
    no spectrum and ends with [IndexError]: the first chunk is empty and its
    first window is read for the log line. *)
Theorem zero_chunk_size_raises parse_lcms ms2_only encoding preamble closing render
    ms1_frames frames_shape_0 num_of_spectra :
  ms1_frames ≠ [] →
  write_lcms_mzml parse_lcms ms2_only encoding preamble closing render ms1_frames
    frames_shape_0 0 num_of_spectra = Some (Raise IndexError, []).
Proof.
  intros Hne. unfold write_lcms_mzml. cbn [write_chunks].
  rewrite decide_True; [done|]. destruct ms1_frames; [done|]. simpl. lia.
Qed.

Lemma run_walks_consecutive_windows_witness :
  run_windows [1; 4; 9] 12 = [(1, 4); (4, 9); (9, 13)] ∧
  write_chunks (λ _ _, Ok ([], [])) false 64 [1; 4; 9] 12 2 4 0 None 0 []
  = (write_chunk_list (λ _ _, Ok ([], [])) false 64 (run_windows [1; 4; 9] 12) 0
       ≫= λ scan_count, mret (Some scan_count)) [].
Proof.
  split; [reflexivity|].
  apply (run_walks_consecutive_windows (λ _ _, Ok ([], [])) false 64 [1; 4; 9] 12 2);
    simpl; lia.
Defined.

Lemma chunk_size_irrelevant_witness :
  Samples.run Samples.three_ms1 "centroid" false (Some true) 1
  = Samples.run Samples.three_ms1 "centroid" false (Some true) 10.
Proof.
  unfold Samples.run. apply chunk_size_irrelevant; lia.
Defined.

Lemma too_few_ms1_frames_raises_witness :
  write_lcms_mzml (Samples.parser Samples.three_ms1 "centroid" false (Some true)) false 64
    [] [] (λ _, []) [1] 3 10 3 = Some (Raise UnboundLocalError, []).
Proof. apply too_few_ms1_frames_raises; simpl; lia. Defined.

Lemma zero_chunk_size_raises_witness :
  write_lcms_mzml (Samples.parser Samples.three_ms1 "centroid" false (Some true)) false 64
    [] [] (λ _, []) [1; 2; 3] 3 0 3 = Some (Raise IndexError, []).
Proof. apply zero_chunk_size_raises. discriminate. Defined.

(** ** Provenance of the records of a window *)

Lemma for_each_seqZ {St} (P : Z → St → Prop) (body : St → Z → result St) (k : nat) :
  ∀ a s s',
    (∀ f s s', a ≤ f < a + Z.of_nat k → P f s → body s f = Ok s' → P (f + 1) s') →
    P a s → for_each body (seqZ a (Z.of_nat k)) s = Ok s' → P (a + Z.of_nat k) s'.
Proof.
  induction k as [|k IH]; intros a s s' Hb Hs H.
  - simpl in H. injection H as <-. by rewrite Z.add_0_r.
  - rewrite seqZ_cons in H by lia. simpl in H. apply bind_Ok in H as (s1 & H1 & H2).
    replace (Z.pred (Z.of_nat (S k))) with (Z.of_nat k) in H2 by lia.
    replace (a + Z.of_nat (S k)) with (Z.succ a + Z.of_nat k) by lia.
    apply (IH (Z.succ a) s1 s'); [|by apply (Hb a s s1); [lia|..]|done].
    intros f t t' Hf. apply Hb. lia.
Qed.

Lemma for_each_window {St} (P : Z → St → Prop) (body : St → Z → result St) a b s s' :
  (∀ f s s', a ≤ f < b → P f s → body s f = Ok s' → P (f + 1) s') →
  P a s → for_each body (seqZ a (b - a)) s = Ok s' → P (Z.max a b) s'.
Proof.
  intros Hb Hs H. destruct (decide (a ≤ b)) as [Hab|Hab].
  - replace (b - a) with (Z.of_nat (Z.to_nat (b - a))) in H by lia.
    apply for_each_seqZ with (P := P) in H; [|intros f t t' Hf; apply Hb; lia|done].
    by replace (Z.max a b) with (a + Z.of_nat (Z.to_nat (b - a))) by lia.
  - rewrite seqZ_nil in H by lia. injection H as <-.
    by replace (Z.max a b) with a by lia.
Qed.

Lemma for_each_inv_in {A St} (P : St → Prop) (body : St → A → result St) l :
  ∀ s s',
    (∀ s x s', x ∈ l → P s → body s x = Ok s' → P s') →
    P s → for_each body l s = Ok s' → P s'.
Proof.
  induction l as [|x l IH]; simpl; intros s s' Hb Hs H.
  - by injection H as <-.
  - apply bind_Ok in H as (s1 & H1 & H2).
    apply (IH s1 s'); [|by apply (Hb s x s1); [left|..]|done].
    intros t y t' Hy. apply Hb. by right.
Qed.

Lemma rows_where_elem {R} (col : R → Z) key table (r : R) :
  r ∈ rows_where col key table → r ∈ table ∧ col r = key.
Proof. unfold rows_where. rewrite list_elem_of_filter. tauto. Qed.

Lemma first_elem {A} (l : list A) x : first l = Ok x → x ∈ l.
Proof. destruct l; [done|]. intros [= ->]. left. Qed.

Lemma metadata_lookup d fr mode e d' :
  populate_scan_dict_w_lcms_tsf_tdf_metadata d fr mode e = Ok d' →
  d' !! "polarity" = Some (VStr (fr_Polarity fr)) ∧
  d' !! "retention_time" = Some (VFloat (Fl (fr_Time fr / 60))).
Proof.
  unfold populate_scan_dict_w_lcms_tsf_tdf_metadata. intros H. inv_result.
  split; [by rewrite !lookup_insert_ne, lookup_insert_eq by done|].
  by rewrite lookup_insert_eq.
Qed.

Lemma ddapasef_lookup d data p ps d' :
  populate_scan_dict_w_ddapasef_ms2 d data p ps = Ok d' →
  d' !! "ms_level" = Some (VInt 2) ∧
  d' !! "parent_frame" = Some (VInt (pr_Parent p)) ∧
  d' !! "polarity" = d !! "polarity" ∧
  d' !! "retention_time" = d !! "retention_time".
Proof.
  unfold populate_scan_dict_w_ddapasef_ms2. intros H. inv_result.
  all: repeat split; rewrite ?lookup_insert_ne by done;
    by rewrite ?lookup_insert_eq.
Qed.

(** The keys [populate_scan_dict_w_spectrum_data] assigns. *)
Lemma spectrum_data_keeps d mz it d' :
  populate_scan_dict_w_spectrum_data d mz it = Ok d' →
  ∀ k, Forall (λ k', k ≠ k') ["mz_array"; "intensity_array"; "total_ion_current";
                              "base_peak_mz"; "base_peak_intensity"; "high_mz";
                              "low_mz"] →
       d' !! k = d !! k.
Proof.
  unfold populate_scan_dict_w_spectrum_data. intros H k Hk. inv_result.
  repeat (apply Forall_cons in Hk as [? Hk]).
  by rewrite !lookup_insert_ne by done.
Qed.

Lemma spectrum_data_arrays d mz it d' :
  populate_scan_dict_w_spectrum_data d mz it = Ok d' →
  d' !! "mz_array" = Some (VArr mz) ∧ d' !! "intensity_array" = Some (VArr it) ∧
  mz ≠ [] ∧ it ≠ [].
Proof.
  unfold populate_scan_dict_w_spectrum_data. intros H. inv_result.
  split; [by rewrite !lookup_insert_ne, lookup_insert_eq by done|].
  split; [by rewrite !lookup_insert_ne, lookup_insert_eq by done|].
  split; intros ->; discriminate.
Qed.

Lemma store_arrays_keeps d e mz it mob d' :
  store_arrays d e mz it mob = Ok d' →
  ∀ k, Forall (λ k', k ≠ k') ["mz_array"; "intensity_array"; "total_ion_current";
                              "base_peak_mz"; "base_peak_intensity"; "high_mz";
                              "low_mz"; "mobility_array"] →
       d' !! k = d !! k.
Proof.
  unfold store_arrays. intros H k Hk.
  apply bind_Ok in H as (d1 & H1 & H). apply bind_Ok in H as (keep & _ & H).
  assert (d1 !! k = d !! k) as <-.
  { apply (spectrum_data_keeps _ _ _ _ H1).
    repeat (apply Forall_cons in Hk as [? Hk]). by repeat constructor. }
  repeat (apply Forall_cons in Hk as [? Hk]).
  destruct keep; injection H as <-; [by rewrite lookup_insert_ne by done|done].
Qed.

Lemma store_arrays_arrays d e mz it mob d' :
  store_arrays d e mz it mob = Ok d' →
  d' !! "mz_array" = Some (VArr (default [] mz)) ∧
  d' !! "intensity_array" = Some (VArr (default [] it)).
Proof.
  unfold store_arrays. intros H.
  apply bind_Ok in H as (d1 & H1 & H). apply bind_Ok in H as (keep & _ & H).
  apply spectrum_data_arrays in H1 as (Hmz & Hit & _).
  destruct keep; injection H as <-; [by rewrite !lookup_insert_ne by done|done].
Qed.

Lemma arrays_usable_true mz it :
  arrays_usable mz it = Ok true →
  ∃ m i, mz = Some m ∧ it = Some i ∧ m ≠ [] ∧ length m = length i.
Proof.
  unfold arrays_usable. destruct mz as [m|], it as [i|]; simpl; try done.
  - repeat case_decide; try done.
    all: intros Hb; try (rewrite bool_decide_eq_false_2 in Hb by done; discriminate).
    exists m, i. repeat split; [|done]. by intros ->.
  - by repeat case_decide.
Qed.

Lemma prmpasef_lookup d data p t d' :
  populate_scan_dict_w_prmpasef_ms2 data d p t = Ok d' →
  d' !! "ms_level" = Some (VInt 2).
Proof.
  unfold populate_scan_dict_w_prmpasef_ms2. intros H. inv_result.
  all: by rewrite !lookup_insert_ne, lookup_insert_eq by done.
Qed.

Lemma ms1_frame_of_level d n :
  d !! "ms_level" = Some (VInt n) → n ≠ 1 → ms1_frame_of d = None.
Proof.
  unfold ms1_frame_of. intros -> Hn.
  destruct n as [|[]|]; try done.
Qed.

Lemma omap_snoc_None {A B} (f : A → option B) l x :
  f x = None → omap f (l ++ [x]) = omap f l.
Proof. intros H. rewrite omap_app. simpl. by rewrite H, app_nil_r. Qed.

Lemma omap_snoc_Some {A B} (f : A → option B) l x y :
  f x = Some y → omap f (l ++ [x]) = omap f l ++ [y].
Proof. intros H. rewrite omap_app. simpl. by rewrite H. Qed.

Lemma np_divide_length a counts :
  length (np_divide a counts) = (length a `min` length counts)%nat.
Proof. apply length_zip_with. Qed.

Lemma np_bincount_w_length x w r :
  np_bincount_w x w = Ok r → length r = bincount_len x.
Proof.
  unfold np_bincount_w. case_decide; [|done]. intros [= <-].
  by rewrite bincount_w_length, length_replicate.
Qed.

Lemma np_bincount_length x : length (np_bincount x) = bincount_len x.
Proof. unfold np_bincount. by rewrite bincount_length, length_replicate. Qed.

Lemma ddapasef_spectrum_lengths data ps mode bins enc mz it :
  extract_ddapasef_precursor_spectrum data ps mode bins enc = Ok (Some mz, Some it) →
  length mz = length it.
Proof.
  unfold extract_ddapasef_precursor_spectrum. intros H.
  apply bind_Ok in H as ([mzs its] & _ & H).
  destruct (nonempty mzs && nonempty its); [|done].
  apply bind_Ok in H as (stacked & _ & H). apply bind_Ok in H as (dig & _ & H).
  destruct (np_unique_inverse dig) as [u inv].
  apply bind_Ok in H as (sums & Hs & H). apply bind_Ok in H as (its' & Hi & H).
  injection H as <- <-. apply np_bincount_w_length in Hs, Hi.
  rewrite np_divide_length, Hs, Hi. unfold np_place_lt1.
  rewrite length_fmap, np_bincount_length. lia.
Qed.

Section window_records.
Context (C : MsMsTypeCategory) (data : TdfData) (a b : Z) (mode : string).
Context (ms2_only : bool) (excl : option bool) (bins enc : Z).

Lemma frame_keeps_products ps qs f ps' qs' :
  ms2_only = true ∨ b - a ≤ 1 →
  parse_lcms_tdf_frame C data a b mode ms2_only excl bins enc (ps, qs) f = Ok (ps', qs') →
  qs' = qs.
Proof.
  unfold parse_lcms_tdf_frame. intros Hc H. inv_result; try done.
  all: destruct Hc as [->|Hc]; [|lia];
    rewrite andb_false_r in *; discriminate.
Qed.

Lemma precursor_provenance fr l p l' :
  fr_MsMsType fr = 0 → fr_ScanMode fr = 8 → pr_Parent p = fr_Id fr →
  Forall (λ d, ∃ row, row ∈ Frames data ∧ a ≤ fr_Id row < b ∧ product_of_frame row d) l →
  fr ∈ Frames data → a ≤ fr_Id fr < b →
  parse_ddapasef_precursor data mode excl bins enc fr l p = Ok l' →
  Forall (λ d, ∃ row, row ∈ Frames data ∧ a ≤ fr_Id row < b ∧ product_of_frame row d) l'.
Proof.
  unfold parse_ddapasef_precursor. intros Ht Hm Hp Hl Hfr Hab H. inv_result; try done.
  apply Forall_snoc; [done|]. exists fr. split; [done|]. split; [done|].
  unfold product_of_frame. split; [done|]. split; [done|].
  repeat match goal with
  | H : populate_scan_dict_w_spectrum_data _ _ _ = Ok _ |- _ =>
      pose proof (spectrum_data_keeps _ _ _ _ H) as Hkeep; clear H
  | H : populate_scan_dict_w_ddapasef_ms2 _ _ _ _ = Ok _ |- _ =>
      apply ddapasef_lookup in H as (? & ? & ? & ?)
  | H : populate_scan_dict_w_lcms_tsf_tdf_metadata _ _ _ _ = Ok _ |- _ =>
      apply metadata_lookup in H as (? & ?)
  end.
  rewrite <- Hp. repeat split;
    (rewrite Hkeep by (by repeat constructor)); congruence.
Qed.

Lemma frame_provenance st f st' :
  a ≤ f < b →
  Forall (λ d, ∃ row, row ∈ Frames data ∧ a ≤ fr_Id row < b ∧ product_of_frame row d) st.2 →
  parse_lcms_tdf_frame C data a b mode ms2_only excl bins enc st f = Ok st' →
  Forall (λ d, ∃ row, row ∈ Frames data ∧ a ≤ fr_Id row < b ∧ product_of_frame row d) st'.2.
Proof.
  destruct st as [ps qs]. unfold parse_lcms_tdf_frame. simpl. intros Hf Hq H.
  inv_result; simpl; try done.
  all: match goal with
       | H : first (rows_where fr_Id _ _) = Ok ?fr |- _ =>
           apply first_elem, rows_where_elem in H as [Hin Hid]
       end.
  all: match goal with
       | H : for_each (parse_ddapasef_precursor _ _ _ _ _ ?fr) ?l _ = Ok _ |- _ =>
           eapply (for_each_inv_in _ _ l) in H; [exact H| |eassumption]
       end.
  all: intros s p s' Hp Hs Hbody;
    apply rows_where_elem in Hp as [_ Hp];
    match goal with H : _ ∧ _ |- _ => destruct H as [Hm Ht] end;
    eapply precursor_provenance; try eassumption; congruence || lia.
Qed.
Lemma window_ms1_frames fr f l w l' :
  parse_diapasef_window data mode excl bins enc fr f l w = Ok l' →
  omap ms1_frame_of l' = omap ms1_frame_of l.
Proof.
  unfold parse_diapasef_window. intros H. inv_result; try done.
  apply omap_snoc_None, (ms1_frame_of_level _ 2); [|done].
  match goal with H : store_arrays _ _ _ _ _ = Ok ?d |- _ =>
    rewrite (store_arrays_keeps _ _ _ _ _ _ H) by (by repeat constructor)
  end.
  unfold populate_scan_dict_w_diapasef_ms2.
  by rewrite !lookup_insert_ne, lookup_insert_eq by done.
Qed.

Lemma frame_ms1_frames ps qs f ps' qs' :
  parse_lcms_tdf_frame C data a b mode ms2_only excl bins enc (ps, qs) f = Ok (ps', qs') →
  omap ms1_frame_of ps' = omap ms1_frame_of ps ∨
  ms2_only = false ∧ omap ms1_frame_of ps' = omap ms1_frame_of ps ++ [f].
Proof.
  unfold parse_lcms_tdf_frame. intros H. inv_result; try (by left).
  all: try match goal with
    | H : for_each (parse_diapasef_window _ _ _ _ _ _ _) _ ?l0 = Ok _ |- _ =>
        left;
        apply (for_each_inv (λ l, omap ms1_frame_of l = omap ms1_frame_of l0)) in H;
          [exact H| |done];
        intros s w s' Hs Hb; rewrite <- Hs; by eapply window_ms1_frames
    end.
  all: try match goal with
    | Hm : bool_decide _ && negb ms2_only = true,
      H : store_arrays (populate_scan_dict_w_ms1 _ _) _ _ _ _ = Ok ?d |- _ =>
        right; split; [by destruct ms2_only; [rewrite andb_false_r in Hm|]|];
        apply omap_snoc_Some; unfold ms1_frame_of;
        rewrite !(store_arrays_keeps _ _ _ _ _ _ H) by (by repeat constructor);
        unfold populate_scan_dict_w_ms1;
        rewrite lookup_insert_ne, lookup_insert_eq, lookup_insert_eq by done; done
    end.
  all: left; apply omap_snoc_None, (ms1_frame_of_level _ 2); [|done].
  all: repeat match goal with
    | H : store_arrays _ _ _ _ _ = Ok ?d |- ?d !! _ = _ =>
        rewrite (store_arrays_keeps _ _ _ _ _ _ H) by (by repeat constructor)
    | H : populate_scan_dict_w_spectrum_data _ _ _ = Ok ?d |- ?d !! _ = _ =>
        rewrite (spectrum_data_keeps _ _ _ _ H) by (by repeat constructor)
    | H : populate_scan_dict_w_prmpasef_ms2 _ _ _ _ = Ok ?d |- ?d !! _ = _ =>
        exact (prmpasef_lookup _ _ _ _ _ H)
    end.
  all: unfold populate_scan_dict_w_bbcid_iscid_ms2, populate_scan_dict_w_tsf_ms2.
  all: by rewrite !lookup_insert_ne, lookup_insert_eq by done.
Qed.

Lemma precursor_holds_spectrum fr l p l' :
  Forall holds_spectrum l →
  parse_ddapasef_precursor data mode excl bins enc fr l p = Ok l' →
  Forall holds_spectrum l'.
Proof.
  unfold parse_ddapasef_precursor. intros Hl H. inv_result; try done.
  apply Forall_snoc; [done|].
  match goal with H : populate_scan_dict_w_spectrum_data _ ?mz ?it = Ok _ |- _ =>
    apply spectrum_data_arrays in H as (Hmz & Hit & Hne & _); exists mz, it end.
  repeat split; try done. by eapply ddapasef_spectrum_lengths.
Qed.

Lemma window_holds_spectrum fr f l w l' :
  Forall holds_spectrum l →
  parse_diapasef_window data mode excl bins enc fr f l w = Ok l' →
  Forall holds_spectrum l'.
Proof.
  unfold parse_diapasef_window. intros Hl H. inv_result; try done.
  apply Forall_snoc; [done|].
  match goal with H : arrays_usable _ _ = Ok true |- _ =>
    apply arrays_usable_true in H as (m & i & -> & -> & Hne & Hlen) end.
  match goal with H : store_arrays _ _ _ _ _ = Ok _ |- _ =>
    apply store_arrays_arrays in H as [Hmz Hit] end.
  by exists m, i.
Qed.

Lemma frame_holds_spectrum st f st' :
  Forall holds_spectrum st.1 ∧ Forall holds_spectrum st.2 →
  parse_lcms_tdf_frame C data a b mode ms2_only excl bins enc st f = Ok st' →
  Forall holds_spectrum st'.1 ∧ Forall holds_spectrum st'.2.
Proof.
  destruct st as [ps qs]. unfold parse_lcms_tdf_frame. simpl. intros [Hp Hq] H.
  inv_result; simpl; try (split; done).
  all: repeat match goal with
    | |- _ ∧ _ => split
    | |- Forall _ ?l => assumption
    | H : for_each (parse_ddapasef_precursor _ _ _ _ _ _) _ _ = Ok ?l
      |- Forall holds_spectrum ?l =>
        eapply (for_each_inv (Forall holds_spectrum)); [|exact Hq|exact H];
        intros; by eapply precursor_holds_spectrum
    | H : for_each (parse_diapasef_window _ _ _ _ _ _ _) _ _ = Ok ?l
      |- Forall _ ?l =>
        eapply (for_each_inv (Forall holds_spectrum)); [|exact Hp|exact H];
        intros; by eapply window_holds_spectrum
    | |- Forall _ (_ ++ [_]) => apply Forall_snoc; [done|]
    end.
  all: match goal with H : arrays_usable _ _ = Ok true |- _ =>
    apply arrays_usable_true in H as (m & i & -> & -> & Hne & Hlen) end.
  all: first
    [ match goal with H : store_arrays _ _ _ _ _ = Ok _ |- _ =>
        apply store_arrays_arrays in H as [Hmz Hit] end
    | match goal with H : populate_scan_dict_w_spectrum_data _ _ _ = Ok _ |- _ =>
        apply spectrum_data_arrays in H as (Hmz & Hit & _) end ].
  all: by exists m, i.
Qed.

Lemma frame_has_row st f st' :
  parse_lcms_tdf_frame C data a b mode ms2_only excl bins enc st f = Ok st' →
  ∃ row, row ∈ Frames data ∧ fr_Id row = f.
Proof.
  destruct st as [ps qs]. unfold parse_lcms_tdf_frame. intros H.
  apply bind_Ok in H as (row & H & _).
  apply first_elem, rows_where_elem in H. by exists row.
Qed.
End window_records.

Lemma chunk_without_products parse_lcms encoding frame_start frame_stop scan_count calls :
  (∀ a b ps qs, parse_lcms a b = Ok (ps, qs) → qs = []) →
  post (write_lcms_chunk_to_mzml parse_lcms true encoding frame_start frame_stop
          scan_count calls)
    (λ _ calls', calls' = calls) (λ calls', calls' = calls).
Proof.
  intros Hparse. unfold write_lcms_chunk_to_mzml, mbind, sink_bind, lift.
  destruct (parse_lcms frame_start frame_stop) as [[ps qs]|e] eqn:E; [|done].
  by rewrite (Hparse _ _ _ _ E).
Qed.

Lemma chunks_without_products parse_lcms encoding ms1_frames frames_shape_0 chunk_size
    fuel :
  (∀ a b ps qs, parse_lcms a b = Ok (ps, qs) → qs = []) →
  ∀ chunk j scan_count calls,
    post (write_chunks parse_lcms true encoding ms1_frames frames_shape_0 chunk_size
            fuel chunk j scan_count calls)
      (λ _ calls', calls' = calls) (λ calls', calls' = calls).
Proof.
  intros Hparse.
  assert (∀ l c w, post (write_chunk_list parse_lcms true encoding l c w)
                     (λ _ w', w' = w) (λ w', w' = w)) as Hlist.
  { intros l c w. unfold write_chunk_list.
    apply (for_each_sink_post (λ _ w', w' = w)); [|done].
    intros s [x y] w' ->. by apply chunk_without_products. }
  induction fuel as [|fuel IH]; intros chunk j c w; [done|].
  cbn [write_chunks]. destruct (decide _).
  - eapply post_bind; [by apply (post_lift _ _ (λ _ w', w' = w))|].
    intros _ w' ->. eapply post_bind; [apply Hlist|].
    intros c' w' ->. apply IH.
  - destruct (loop_variable _ j); [|done].
    eapply post_bind; [apply Hlist|]. by intros c' w' ->.
Qed.

(** X5. A window parsed with [ms2_only] set, or a window of at most one
    frame, yields no product record: precursor spectra are parsed only while
    an MS1 frame is parsed, and only in a window of more than one frame. *)
Theorem tdf_products_need_ms1_parsing C data frame_start frame_stop mode ms2_only
    exclude_mobility profile_bins encoding parent_scans product_scans :
  ms2_only = true ∨ frame_stop - frame_start ≤ 1 →
  parse_lcms_tdf C data frame_start frame_stop mode ms2_only exclude_mobility
    profile_bins encoding = Ok (parent_scans, product_scans) →
  product_scans = [].
Proof.
  unfold parse_lcms_tdf. intros Hc H. apply bind_Ok in H as ([c e] & _ & H).
  apply (for_each_inv (λ st, st.2 = [])) in H; [done| |done].
  intros [ps qs] f [ps' qs'] Hq Hf. simpl in *. subst qs.
  by eapply frame_keeps_products.
Qed.

(** X6. A run on TDF data with [ms2_only] set hands no spectrum to the
    sink, whatever the acquisition holds: the chunk writer then writes the
    product records only, and the parser returns none. *)
Theorem tdf_ms2_only_run_writes_nothing C data mode exclude_mobility profile_bins encoding
    preamble closing render ms1_frames frames_shape_0 chunk_size num_of_spectra
    outcome calls :
  write_lcms_mzml
    (λ frame_start frame_stop,
       parse_lcms_tdf C data frame_start frame_stop mode true exclude_mobility
         profile_bins encoding)
    true encoding preamble closing render ms1_frames frames_shape_0 chunk_size
    num_of_spectra = Some (outcome, calls) →
  calls = [].
Proof.
  unfold write_lcms_mzml. intros H.
  match type of H with context [write_chunks ?p _ _ _ _ _ ?fuel _ _ _ _] =>
    pose proof (chunks_without_products p encoding ms1_frames frames_shape_0 chunk_size
                  fuel) as Hpost end.
  specialize (Hpost ltac:(intros a b ps qs Hp;
    apply bind_Ok in Hp as ([c e] & _ & Hp);
    apply (for_each_inv (λ st, st.2 = [])) in Hp; [done| |done];
    intros [ps1 qs1] f [ps2 qs2] Hq Hf; simpl in *; subst qs1;
    eapply frame_keeps_products; [by left|exact Hf]) 0%nat None 0 []).
  destruct (write_chunks _ _ _ _ _ _ _ _ _ _ _) as [[[c|]|e] w]; simpl in Hpost.
  - case_decide; by injection H as <- <-.
  - done.
  - by injection H as <- <-.
Qed.

(** X7. Every product record of a window names as its parent a frame of the
    window that the Frames table lists as a ddaPASEF MS1 frame ([MsMsType] 0,
    [ScanMode] 8); it is an MS2 record and carries the polarity and the
    retention time of that frame. *)
Theorem tdf_products_provenance C data frame_start frame_stop mode ms2_only
    exclude_mobility profile_bins encoding parent_scans product_scans :
  parse_lcms_tdf C data frame_start frame_stop mode ms2_only exclude_mobility
    profile_bins encoding = Ok (parent_scans, product_scans) →
  Forall (λ d, ∃ row, row ∈ Frames data ∧ frame_start ≤ fr_Id row < frame_stop ∧
                      product_of_frame row d) product_scans.
Proof.
  unfold parse_lcms_tdf. intros H. apply bind_Ok in H as ([c e] & _ & H).
  apply (for_each_inv_in
           (λ st, Forall (λ d, ∃ row, row ∈ Frames data ∧
                                 frame_start ≤ fr_Id row < frame_stop ∧
                                 product_of_frame row d) st.2)) in H; [done| |done].
  intros st f st' Hf Hst. apply frame_provenance; [|done].
  apply elem_of_seqZ in Hf. lia.
Qed.

(** X8. The MS1 records of a window come in strictly increasing frame order,
    so each frame gives at most one of them, and their frames lie inside the
    window; with [ms2_only] set there is none. *)
Theorem tdf_ms1_records_in_frame_order C data frame_start frame_stop mode ms2_only
    exclude_mobility profile_bins encoding parent_scans product_scans :
  parse_lcms_tdf C data frame_start frame_stop mode ms2_only exclude_mobility
    profile_bins encoding = Ok (parent_scans, product_scans) →
  StronglySorted Z.lt (omap ms1_frame_of parent_scans) ∧
  Forall (λ f, frame_start ≤ f < frame_stop) (omap ms1_frame_of parent_scans) ∧
  (ms2_only = true → omap ms1_frame_of parent_scans = []).
Proof.
  unfold parse_lcms_tdf. intros H. apply bind_Ok in H as ([c e] & _ & H).
  apply (for_each_window
           (λ f st, StronglySorted Z.lt (omap ms1_frame_of st.1) ∧
                    Forall (λ g, frame_start ≤ g < f ∧ g < frame_stop)
                      (omap ms1_frame_of st.1) ∧
                    (ms2_only = true → omap ms1_frame_of st.1 = []))) in H.
  - destruct H as (Hs & Hf & Hm). split; [done|]. split; [|done].
    eapply Forall_impl; [exact Hf|]. simpl. lia.
  - intros f [ps qs] [ps' qs'] Hf (Hs & Hb & Hm) Hframe. simpl in *.
    apply frame_ms1_frames in Hframe as [->|[Hms ->]].
    + split; [done|]. split; [|done]. eapply Forall_impl; [exact Hb|]. simpl. lia.
    + split; [|split].
      * apply StronglySorted_app_2; [|done|repeat constructor].
        intros x y Hx Hy. apply list_elem_of_singleton in Hy as ->.
        rewrite Forall_forall in Hb. apply Hb in Hx. lia.
      * apply Forall_app. split; [|repeat constructor; lia].
        eapply Forall_impl; [exact Hb|]. simpl. lia.
      * congruence.
  - simpl. split; [constructor|]. split; [constructor|done].
Qed.

(** X9. Every record a window returns, parent or product, holds an m/z
    array and an intensity array that are not empty and have one length. *)
Theorem tdf_records_hold_spectra C data frame_start frame_stop mode ms2_only
    exclude_mobility profile_bins encoding parent_scans product_scans :
  parse_lcms_tdf C data frame_start frame_stop mode ms2_only exclude_mobility
    profile_bins encoding = Ok (parent_scans, product_scans) →
  Forall holds_spectrum (parent_scans ++ product_scans).
Proof.
  unfold parse_lcms_tdf. intros H. apply bind_Ok in H as ([c e] & _ & H).
  apply (for_each_inv (λ st, Forall holds_spectrum st.1 ∧ Forall holds_spectrum st.2))
    in H; [by apply Forall_app| |by split].
  intros st f st'. apply frame_holds_spectrum.
Qed.

(** X10. A window is parsed to the end only if the Frames table has a row
    for every frame number of the window. *)
Theorem tdf_window_needs_frame_rows C data frame_start frame_stop mode ms2_only
    exclude_mobility profile_bins encoding records frame :
  parse_lcms_tdf C data frame_start frame_stop mode ms2_only exclude_mobility
    profile_bins encoding = Ok records →
  frame_start ≤ frame < frame_stop →
  ∃ row, row ∈ Frames data ∧ fr_Id row = frame.
Proof.
  unfold parse_lcms_tdf. intros H Hf. apply bind_Ok in H as ([c e] & _ & H).
  assert (∀ g, frame_start ≤ g < Z.max frame_start frame_stop →
               ∃ row, row ∈ Frames data ∧ fr_Id row = g) as Hall; [|apply Hall; lia].
  refine (for_each_window
            (λ f _, ∀ g, frame_start ≤ g < f → ∃ row, row ∈ Frames data ∧ fr_Id row = g)
            _ _ _ _ _ _ _ H).
  - intros f st st' Hw Hst Hframe g Hg.
    destruct (decide (g = f)) as [->|Hne]; [by eapply frame_has_row|apply Hst; lia].
  - intros g Hg. lia.
Qed.

(** The parser on a window of a sample acquisition, by evaluation. *)
Ltac sample_window :=
  match goal with
  | |- parse_lcms_tdf Samples.categories ?data ?a ?b ?mode ?ms2 ?excl 0 64 = _ =>
      let H := fresh in
      assert (Samples.parses data mode ms2 excl a b = true) as H
        by (vm_compute; reflexivity);
      apply window_parsed in H; unfold Samples.parser in H; exact H
  end.

Lemma tdf_products_need_ms1_parsing_witness :
  let data := Samples.dda_window ([100; 1005 # 10]%Q, [1; 2]%Q) in
  length (Samples.window data "centroid" false (Some true) 10 12).2 = 2%nat ∧
  (Samples.window data "centroid" true (Some true) 10 12).2 = [] ∧
  (Samples.window data "centroid" false (Some true) 10 11).2 = [].
Proof.
  intros data. split; [vm_compute; reflexivity|]. split.
  - apply (tdf_products_need_ms1_parsing Samples.categories data 10 12 "centroid" true
             (Some true) 0 64 (Samples.window data "centroid" true (Some true) 10 12).1).
    + by left.
    + sample_window.
  - apply (tdf_products_need_ms1_parsing Samples.categories data 10 11 "centroid" false
             (Some true) 0 64 (Samples.window data "centroid" false (Some true) 10 11).1).
    + right. lia.
    + sample_window.
Defined.

Lemma tdf_ms2_only_run_writes_nothing_witness :
  ∃ files,
    Samples.run Samples.bbcid "centroid" true (Some true) 10 = Some (Ok files, []) ∧
    length (Samples.window Samples.bbcid "centroid" true (Some true) 1 3).1 = 1%nat.
Proof.
  destruct (Samples.run Samples.bbcid "centroid" true (Some true) 10)
    as [[outcome calls]|] eqn:Hrun; [|vm_compute in Hrun; discriminate Hrun].
  pose proof (tdf_ms2_only_run_writes_nothing Samples.categories Samples.bbcid
                "centroid" (Some true) 0 64 ["<mzML>"] ["</mzML>"] (λ _, ["<spectrum/>"])
                (ms1_frames Samples.bbcid) (length (frames Samples.bbcid)) 10
                (get_spectra_count Samples.bbcid) outcome calls Hrun) as ->.
  vm_compute in Hrun. injection Hrun as <-.
  eexists. split; [reflexivity|vm_compute; reflexivity].
Defined.

Lemma tdf_products_provenance_witness :
  let data := Samples.dda_window ([100; 1005 # 10]%Q, [1; 2]%Q) in
  length (Samples.window data "centroid" false (Some true) 10 12).2 = 2%nat ∧
  Forall (λ d, ∃ row, row ∈ Frames data ∧ 10 ≤ fr_Id row < 12 ∧ product_of_frame row d)
    (Samples.window data "centroid" false (Some true) 10 12).2.
Proof.
  intros data. split; [vm_compute; reflexivity|].
  apply (tdf_products_provenance Samples.categories data 10 12 "centroid" false
           (Some true) 0 64 (Samples.window data "centroid" false (Some true) 10 12).1).
  sample_window.
Defined.

Lemma tdf_ms1_records_in_frame_order_witness :
  let parent_scans := (Samples.window Samples.three_ms1 "centroid" false (Some true) 1 4).1 in
  omap ms1_frame_of parent_scans = [1; 3] ∧
  StronglySorted Z.lt (omap ms1_frame_of parent_scans) ∧
  Forall (λ f, 1 ≤ f < 4) (omap ms1_frame_of parent_scans) ∧
  (false = true → omap ms1_frame_of parent_scans = []).
Proof.
  intros parent_scans. split; [vm_compute; reflexivity|].
  apply (tdf_ms1_records_in_frame_order Samples.categories Samples.three_ms1 1 4
           "centroid" false (Some true) 0 64 parent_scans
           (Samples.window Samples.three_ms1 "centroid" false (Some true) 1 4).2).
  sample_window.
Defined.

Lemma tdf_records_hold_spectra_witness :
  let data := Samples.dda_window ([100; 1005 # 10]%Q, [1; 2]%Q) in
  let records := Samples.window data "centroid" false (Some true) 10 12 in
  length (records.1 ++ records.2) = 3%nat ∧ Forall holds_spectrum (records.1 ++ records.2).
Proof.
  intros data records. split; [vm_compute; reflexivity|].
  apply (tdf_records_hold_spectra Samples.categories data 10 12 "centroid" false
           (Some true) 0 64).
  sample_window.
Defined.

Lemma tdf_window_needs_frame_rows_witness :
  ∃ row, row ∈ Frames Samples.three_ms1 ∧ fr_Id row = 2.
Proof.
  apply (tdf_window_needs_frame_rows Samples.categories Samples.three_ms1 1 4 "centroid"
           false (Some true) 0 64
           (Samples.window Samples.three_ms1 "centroid" false (Some true) 1 4) 2).
  - rewrite (surjective_pairing (Samples.window _ _ _ _ _ _)).
    sample_window.
  - lia.
Defined.

(** ** The binner: totals and failure *)

Lemma Qsum_alter (v : Q) (acc : list Q) : ∀ i,
  (i < length acc)%nat → (Qsum (alter (λ s, s + v)%Q i acc) == Qsum acc + v)%Q.
Proof.
  induction acc as [|a acc IH]; intros i Hi; [simpl in Hi; lia|].
  destruct i as [|i].
  - change (alter (λ s, s + v)%Q 0%nat (a :: acc)) with ((a + v)%Q :: acc).
    rewrite !Qsum_cons. ring.
  - change (alter (λ s, s + v)%Q (S i) (a :: acc))
      with (a :: alter (λ s, s + v)%Q i acc).
    rewrite !Qsum_cons, IH by (simpl in Hi; lia). ring.
Qed.

Lemma bincount_w_total (xw : list (nat * Q)) : ∀ (acc : list Q),
  Forall (λ p, (p.1 < length acc)%nat) xw →
  (Qsum (fold_left (λ acc iw, alter (λ s, s + iw.2)%Q iw.1 acc) xw acc)
   == Qsum acc + Qsum (snd <$> xw))%Q.
Proof.
  induction xw as [|[i v] xw IH]; intros acc Hxw.
  - simpl. change (Qsum []) with 0%Q. ring.
  - apply Forall_cons in Hxw as [Hi Hxw]. rewrite fmap_cons, Qsum_cons.
    cbn [fold_left fst snd]. rewrite IH by (by rewrite length_alter).
    rewrite Qsum_alter by done. ring.
Qed.

Lemma Qsum_zeros n : (Qsum (replicate n 0%Q) == 0)%Q.
Proof.
  induction n as [|n IH]; [done|].
  change (replicate (S n) 0%Q) with (0%Q :: replicate n 0%Q).
  rewrite Qsum_cons, IH. ring.
Qed.

Lemma bincount_len_bound x i : i ∈ x → (i < bincount_len x)%nat.
Proof.
  intros Hi. unfold bincount_len. destruct x as [|x0 x]; [by apply elem_of_nil in Hi|].
  apply max_list_elem_of_le in Hi. lia.
Qed.

(** [np.bincount(x, weights=w)] spreads the weights over the cells: their
    total is kept. *)
Lemma np_bincount_w_conserves x w out :
  np_bincount_w x w = Ok out → (Qsum out == Qsum w)%Q.
Proof.
  unfold np_bincount_w. case_decide as Hlen; [|done]. intros [= <-].
  rewrite bincount_w_total.
  - rewrite Qsum_zeros, snd_zip by lia. ring.
  - apply Forall_forall. intros [i v] Hp. rewrite length_replicate. simpl.
    apply bincount_len_bound. apply (elem_of_zip_l _ _ _ _ Hp).
Qed.

Lemma nonincreasing_true l :
  (∀ i x y, l !! i = Some x → l !! S i = Some y → (y <= x)%Q) → nonincreasing l = true.
Proof.
  induction l as [|x [|y l] IH]; intros H; [done|done|].
  change (nonincreasing (x :: y :: l)) with (Qle_bool y x && nonincreasing (y :: l)).
  apply andb_true_intro. split.
  - apply Qle_bool_iff. by apply (H 0%nat).
  - apply IH. intros i a b Ha Hb. by apply (H (S i)).
Qed.

Section falling_edges.
Context (lo hi : Q) (num : Z) (Hnum : 2 ≤ num) (Hle : (hi <= lo)%Q).
Let n := Z.to_nat (num - 1).
Let step := ((hi - lo) / inject_Z (num - 1))%Q.
Let edge (i : nat) : Q := (lo + inject_Z (Z.of_nat i) * step)%Q.

Lemma step_nonpos : (step <= 0)%Q.
Proof.
  unfold step. apply Qle_shift_div_r.
  - change 0%Q with (inject_Z 0). rewrite <- Zlt_Qlt. lia.
  - lra.
Qed.

Lemma falling_last_edge : (edge n == hi)%Q.
Proof.
  unfold edge, step, n. rewrite Z2Nat.id by lia.
  assert (¬ inject_Z (num - 1) == 0)%Q as Hne.
  { change 0%Q with (inject_Z 0). rewrite inject_Z_injective. lia. }
  field. exact Hne.
Qed.

Lemma edge_antitone i j : (i ≤ j)%nat → (edge j <= edge i)%Q.
Proof.
  intros Hij. unfold edge.
  assert (inject_Z (Z.of_nat i) <= inject_Z (Z.of_nat j))%Q as H
    by (rewrite <- Zle_Qle; lia).
  pose proof step_nonpos as Hs. nra.
Qed.

Lemma falling_lookup i :
  (i ≤ n)%nat → ∃ e, ((edge <$> seq 0 n) ++ [hi]) !! i = Some e ∧ (e == edge i)%Q.
Proof.
  intros Hi. destruct (decide (i = n)) as [->|Hne].
  - exists hi. split; [|symmetry; apply falling_last_edge].
    rewrite lookup_app_r; rewrite length_fmap, length_seq; [|done].
    by rewrite Nat.sub_diag.
  - exists (edge i). split; [|reflexivity].
    rewrite lookup_app_l by (rewrite length_fmap, length_seq; lia).
    rewrite list_lookup_fmap, lookup_seq_lt by lia. done.
Qed.

Lemma linspace_nonincreasing : nonincreasing ((edge <$> seq 0 n) ++ [hi]) = true.
Proof.
  apply nonincreasing_true. intros i x y Hx Hy.
  assert (S i ≤ n)%nat as Hi.
  { apply lookup_lt_Some in Hy. rewrite length_app, length_fmap, length_seq in Hy.
    simpl in Hy. lia. }
  destruct (falling_lookup i) as (x' & Hx' & Ex); [lia|].
  destruct (falling_lookup (S i) Hi) as (y' & Hy' & Ey).
  rewrite Hx in Hx'. rewrite Hy in Hy'. injection Hx' as <-. injection Hy' as <-.
  rewrite Ex, Ey. apply edge_antitone. lia.
Qed.
End falling_edges.

(** The edges [np.linspace] returns are monotonic, so that [np.digitize]
    accepts them. *)
Lemma linspace_digitize_total lo hi num xs edges :
  np_linspace lo hi num = Ok edges →
  ∃ digitized, np_digitize xs edges = Ok digitized ∧ length digitized = length xs.
Proof.
  intros Hedges. unfold np_digitize.
  assert (nondecreasing edges = true ∨ nonincreasing edges = true) as [->| Hdown].
  { unfold np_linspace in Hedges.
    destruct (decide (num < 0)); [done|].
    destruct (decide (num = 0)); [injection Hedges as <-; by left|].
    destruct (decide (num = 1)); [injection Hedges as <-; by left|].
    injection Hedges as <-.
    destruct (Qlt_le_dec hi lo) as [Hlt|Hle].
    - right. apply linspace_nonincreasing; [lia|by apply Qlt_le_weak].
    - left. apply linspace_nondecreasing; [lia|done]. }
  - eexists. split; [done|]. by rewrite length_fmap.
  - rewrite Hdown. destruct (nondecreasing edges); eexists; (split; [done|]);
      by rewrite length_fmap.
Qed.

Lemma first_Ok {A} (l : list A) : l ≠ [] → ∃ x, first l = Ok x.
Proof. destruct l; [done|]. by eexists. Qed.

Lemma last_item_Ok {A} (l : list A) : l ≠ [] → ∃ x, last_item l = Ok x.
Proof.
  intros Hl. unfold last_item. destruct (last l) eqn:E; [by eexists|].
  by apply last_None in E.
Qed.




(** ** Sub-scan extraction *)

Lemma for_each_raises {A St} (body : St → A → result St) e l x :
  x ∈ l → (∀ s, body s x = Raise e) →
  (∀ s y, y ∈ l → body s y = Raise e ∨ ∃ s', body s y = Ok s') →
  ∀ s, for_each body l s = Raise e.
Proof.
  induction l as [|y l IH]; intros Hx Hraise Hbody s; [by apply elem_of_nil in Hx|].
  simpl. destruct (Hbody s y) as [->|[s' Hs']]; [left|done|].
  apply elem_of_cons in Hx as [->|Hx]; [by rewrite Hraise in Hs'|].
  rewrite Hs'. simpl. apply IH; [done|done|]. intros t z Hz. apply Hbody. by right.
Qed.

Lemma list_item_cases {A} (l : list A) i :
  (i < length l)%nat ∧ (∃ x, list_item l i = Ok x ∧ l !! i = Some x) ∨
  (length l ≤ i)%nat ∧ list_item l i = Raise IndexError.
Proof.
  unfold list_item. destruct (l !! i) as [x|] eqn:E.
  - left. split; [by eapply lookup_lt_Some|by exists x].
  - right. split; [by apply lookup_ge_None|done].
Qed.

(** X13. In raw mode the 2-D extraction indexes the list of sub-scans by the
    scan number itself.  When the SDK returns one entry per requested scan,
    a range that does not start at scan 0 runs past the end of that list:
    the extraction raises [IndexError]. *)
Theorem raw_2d_offset_range_raises tdf_data frame scan_begin scan_end profile_bins
    encoding :
  (0 < scan_begin < scan_end)%nat →
  length (tims_read_scans_v2 tdf_data frame scan_begin scan_end)
    = (scan_end - scan_begin)%nat →
  extract_2d_tdf_spectrum tdf_data "raw" frame scan_begin scan_end profile_bins encoding
    = Raise IndexError.
Proof.
  intros Hb Hlen. unfold extract_2d_tdf_spectrum. rewrite decide_True by done.
  rewrite (for_each_raises _ IndexError _ (scan_end - 1)%nat); [done| | |].
  - unfold range. apply elem_of_seq. lia.
  - intros [mzs ints].
    destruct (list_item_cases (tims_read_scans_v2 tdf_data frame scan_begin scan_end)
                (scan_end - 1)) as [[Hlt _]|[_ ->]]; [lia|done].
  - intros [mzs ints] k _.
    destruct (list_item_cases (tims_read_scans_v2 tdf_data frame scan_begin scan_end) k)
      as [[_ (scan & -> & _)]|[_ ->]]; [right|by left].
    cbn [mbind result_bind]. destruct (scan_usable scan); by eexists.
Qed.

Lemma raw_2d_offset_range_raises_witness :
  extract_2d_tdf_spectrum Samples.two_mobilities "raw" 1 1 2 0 64 = Raise IndexError ∧
  (∃ mz_array intensity_array,
     extract_2d_tdf_spectrum Samples.two_mobilities "raw" 1 0 2 0 64
       = Ok (Some mz_array, Some intensity_array)).
Proof.
  split.
  - apply raw_2d_offset_range_raises; [lia|reflexivity].
  - eexists _, _. vm_compute. reflexivity.
Defined.

Lemma for_each_app {A St} (body : St → A → result St) l1 l2 s :
  for_each body (l1 ++ l2) s = for_each body l1 s ≫= for_each body l2.
Proof.
  revert s. induction l1 as [|x l1 IH]; intros s; [done|].
  simpl. destruct (body s x) as [s'|e]; [apply IH|done].
Qed.

(** A loop over [range(0, n)] whose body never raises on the states it
    meets. *)
Lemma for_each_seq_total {St} (P : nat → St → Prop) (body : St → nat → result St) n :
  ∀ s0,
    (∀ k s, (k < n)%nat → P k s → ∃ s', body s k = Ok s' ∧ P (S k) s') →
    P 0%nat s0 →
    ∃ s', for_each body (seq 0 n) s0 = Ok s' ∧ P n s'.
Proof.
  induction n as [|n IH]; intros s0 Hbody H0; [by exists s0|].
  destruct (IH s0) as (s1 & H1 & HP1); [intros k s Hk; apply Hbody; lia|done|].
  destruct (Hbody n s1) as (s2 & H2 & HP2); [lia|done|].
  exists s2. split; [|done].
  rewrite seq_S, for_each_app, H1. simpl. by rewrite H2.
Qed.

Lemma extract_3d_range scan_begin scan_end :
  (if decide (scan_begin ≠ 0%nat) then (0, scan_end - scan_begin)%nat
   else (scan_begin, scan_end)) = (0%nat, (scan_end - scan_begin)%nat).
Proof. case_decide as H; [done|]. subst. f_equal. lia. Qed.

Lemma concat_snoc {A} (ls : list (list A)) l : concat (ls ++ [l]) = concat ls ++ l.
Proof. rewrite concat_app. simpl. by rewrite app_nil_r. Qed.

Lemma scan_usable_lengths scan :
  scan_usable scan = true → length scan.1 = length scan.2 ∧ length scan.1 ≠ 0%nat.
Proof.
  unfold scan_usable. intros H.
  apply andb_true_iff in H as [H H3]. apply andb_true_iff in H as [H1 H2].
  apply Nat.eqb_eq in H3. apply negb_true_iff, Nat.eqb_neq in H1. done.
Qed.

Lemma np_stack_Ok cols c0 :
  head cols = Some c0 → Forall (λ c, length c = length c0) cols →
  np_stack cols = Ok ((λ i, (λ c, nth i c 0%Q) <$> cols) <$> seq 0 (length c0)).
Proof.
  unfold np_stack. destruct cols as [|c cols]; [done|]. intros [= ->] Hall.
  rewrite (proj2 (forallb_forall _ _)); [done|].
  intros c Hc. apply Nat.eqb_eq. rewrite Forall_forall in Hall.
  by apply Hall, list_elem_of_In.
Qed.

Lemma dedup_adjacent_nonempty {A} (eqb : A → A → bool) l :
  l ≠ [] → dedup_adjacent eqb l ≠ [].
Proof.
  induction l as [|x [|y l] IH]; [done|done|]. intros _.
  change (dedup_adjacent eqb (x :: y :: l)) with
    (if eqb x y then dedup_adjacent eqb (y :: l) else x :: dedup_adjacent eqb (y :: l)).
  destruct (eqb x y); [by apply IH|done].
Qed.

Lemma merged_nonempty rows : rows ≠ [] → np_unique_rows (argsort_rows rows) ≠ [].
Proof.
  intros Hne. apply dedup_adjacent_nonempty. intros E. apply Hne.
  apply Permutation_nil_r. rewrite <- E. unfold argsort_rows.
  by rewrite !merge_sort_Permutation.
Qed.

Lemma merged_subseteq rows : np_unique_rows (argsort_rows rows) ⊆ rows.
Proof.
  intros r Hr. apply np_unique_rows_subseteq in Hr. unfold argsort_rows in Hr.
  by rewrite merge_sort_Permutation in Hr.
Qed.

(** The elements of a column of the merged rows occur in the column that
    was stacked. *)
Lemma merged_column_elem cols stacked k col v :
  np_stack cols = Ok stacked → cols !! k = Some col →
  v ∈ column k (np_unique_rows (argsort_rows stacked)) → v ∈ col.
Proof.
  intros Hstack Hk Hv. unfold column in Hv.
  apply list_elem_of_fmap in Hv as (r & -> & Hr). apply merged_subseteq in Hr.
  unfold np_stack in Hstack. destruct cols as [|c0 cols'] eqn:Ecols; [done|].
  rewrite <- Ecols in *. clear Ecols.
  destruct (forallb _ _) eqn:Hall; [|done]. injection Hstack as <-.
  apply list_elem_of_fmap in Hr as (i & -> & Hi). apply elem_of_seq in Hi.
  rewrite forallb_forall in Hall.
  assert (length col = length c0) as Hlen.
  { apply Nat.eqb_eq, Hall, list_elem_of_In. by eapply list_elem_of_lookup_2. }
  rewrite nth_lookup, list_lookup_fmap, Hk. simpl.
  destruct (nth_lookup_or_length col i 0%Q) as [Hi'|Hi']; [|lia].
  by eapply list_elem_of_lookup_2.
Qed.

Section extract_3d.
Context (tdf_data : TdfData) (frame : Z) (scan_begin scan_end : nat).
Let list_of_scans := tims_read_scans_v2 tdf_data frame scan_begin scan_end.
Let body := λ '(mzs, ints, mobs) (scan_num : nat),
  scan ← list_item list_of_scans scan_num;
  if scan_usable scan then
    let mz_array := tims_index_to_mz tdf_data frame scan.1 in
    let intensity_array := scan.2 in
    let mobility := tims_scannum_to_oneoverk0 tdf_data frame (Z.of_nat scan_num) in
    let mobility_array := replicate (length mz_array) mobility in
    Ok (mzs ++ [mz_array], ints ++ [intensity_array], mobs ++ [mobility_array])
  else Ok (mzs, ints, mobs).

Lemma extract_3d_unfold :
  extract_3d_tdf_spectrum tdf_data frame scan_begin scan_end
  = '(frame_mz_arrays, frame_intensity_arrays, frame_mobility_arrays) ←
      for_each body (seq 0 (scan_end - scan_begin)) ([], [], []);
    if nonempty frame_mz_arrays && nonempty frame_intensity_arrays
       && nonempty frame_mobility_arrays then
      frames_array ← np_stack [concat frame_mz_arrays; concat frame_intensity_arrays;
                               concat frame_mobility_arrays];
      let frames_array := np_unique_rows (argsort_rows frames_array) in
      Ok (Some (column 0 frames_array), Some (column 1 frames_array),
          Some (column 2 frames_array))
    else Ok (None, None, None).
Proof.
  unfold extract_3d_tdf_spectrum. rewrite extract_3d_range. unfold range.
  by rewrite Nat.sub_0_r.
Qed.

Lemma extract_3d_mobilities st k st' :
  (k < scan_end - scan_begin)%nat →
  Forall (λ v, ∃ j, (j < scan_end - scan_begin)%nat ∧
                    v = tims_scannum_to_oneoverk0 tdf_data frame (Z.of_nat j))
    (concat st.2) →
  body st k = Ok st' →
  Forall (λ v, ∃ j, (j < scan_end - scan_begin)%nat ∧
                    v = tims_scannum_to_oneoverk0 tdf_data frame (Z.of_nat j))
    (concat st'.2).
Proof.
  destruct st as [[mzs ints] mobs]. unfold body. intros Hk Hst H.
  apply bind_Ok in H as (scan & _ & H).
  destruct (scan_usable scan); injection H as <-; [|done]. simpl in *.
  rewrite concat_snoc. apply Forall_app. split; [done|].
  apply Forall_forall. intros v Hv. apply elem_of_replicate in Hv as [-> _]. eauto.
Qed.

Lemma extract_3d_step st k :
  (∀ index, length (tims_index_to_mz tdf_data frame index) = length index) →
  (k < length list_of_scans)%nat → extract_3d_state list_of_scans k st →
  ∃ st', body st k = Ok st' ∧ extract_3d_state list_of_scans (S k) st'.
Proof.
  destruct st as [[mzs ints] mobs]. unfold extract_3d_state, body. simpl.
  intros Hmz Hk (Hn & Hi & Hm & Hci & Hcm & Hne).
  destruct (list_item_cases list_of_scans k) as [[_ (scan & -> & Hscan)]|[Hge _]]; [|lia].
  cbn [mbind result_bind].
  rewrite (take_S_r _ _ _ Hscan), List.filter_app. simpl.
  destruct (scan_usable scan) eqn:Hu; eexists; (split; [reflexivity|]); simpl.
  - apply scan_usable_lengths in Hu as [Hlen Hnz].
    rewrite !length_app, !concat_snoc, !length_app, length_replicate, Hmz. simpl.
    repeat split; try lia. intros _ E. apply (f_equal length) in E.
    rewrite length_app, Hmz in E. simpl in E. lia.
  - rewrite app_nil_r. done.
Qed.
End extract_3d.


(** X14. The 3-D extraction numbers the sub-scans of the requested range
    from 0: every value of the mobility array it returns is the 1/K0 of a
    position below [scan_end - scan_begin], also when the range starts at a
    scan other than 0. *)
Theorem extract_3d_mobility_by_position tdf_data frame scan_begin scan_end
    mz_array intensity_array mobility_array :
  extract_3d_tdf_spectrum tdf_data frame scan_begin scan_end
    = Ok (mz_array, intensity_array, Some mobility_array) →
  ∀ v, v ∈ mobility_array →
    ∃ position, (position < scan_end - scan_begin)%nat ∧
      v = tims_scannum_to_oneoverk0 tdf_data frame (Z.of_nat position).
Proof.
  rewrite extract_3d_unfold. intros H v Hv.
  apply bind_Ok in H as ([[mzs ints] mobs] & Hloop & H).
  destruct (nonempty mzs && nonempty ints && nonempty mobs); [|done].
  apply bind_Ok in H as (stacked & Hstack & H). injection H as _ _ <-.
  apply (merged_column_elem _ _ 2 (concat mobs) v Hstack eq_refl) in Hv.
  apply (for_each_inv_in
           (λ st, Forall (λ v, ∃ j, (j < scan_end - scan_begin)%nat ∧
                                 v = tims_scannum_to_oneoverk0 tdf_data frame (Z.of_nat j))
                    (concat st.2))) in Hloop.
  - simpl in Hloop. rewrite Forall_forall in Hloop. by apply Hloop.
  - intros st k st' Hk. apply extract_3d_mobilities. apply elem_of_seq in Hk. lia.
  - constructor.
Qed.

(** X15. When the SDK returns a sub-scan for every position of the range and
    the calibration maps an index array to an m/z array of the same length,
    the 3-D extraction returns normally: three times [None] exactly when no
    sub-scan of the range is usable, and otherwise three arrays of one
    length that are not empty. *)
Theorem extract_3d_returns tdf_data frame scan_begin scan_end :
  (scan_end - scan_begin ≤ length (tims_read_scans_v2 tdf_data frame scan_begin scan_end))%nat →
  (∀ index, length (tims_index_to_mz tdf_data frame index) = length index) →
  let usable :=
    List.filter scan_usable
      (take (scan_end - scan_begin)
         (tims_read_scans_v2 tdf_data frame scan_begin scan_end)) in
  usable = [] ∧
    extract_3d_tdf_spectrum tdf_data frame scan_begin scan_end = Ok (None, None, None) ∨
  usable ≠ [] ∧
    ∃ mz_array intensity_array mobility_array,
      extract_3d_tdf_spectrum tdf_data frame scan_begin scan_end
        = Ok (Some mz_array, Some intensity_array, Some mobility_array) ∧
      mz_array ≠ [] ∧ length intensity_array = length mz_array ∧
      length mobility_array = length mz_array.
Proof.
  intros Hscans Hmz usable. rewrite extract_3d_unfold.
  destruct (for_each_seq_total
              (extract_3d_state (tims_read_scans_v2 tdf_data frame scan_begin scan_end))
              (λ '(mzs, ints, mobs) (scan_num : nat),
                 scan ← list_item (tims_read_scans_v2 tdf_data frame scan_begin scan_end)
                          scan_num;
                 if scan_usable scan then
                   let mz_array := tims_index_to_mz tdf_data frame scan.1 in
                   let intensity_array := scan.2 in
                   let mobility :=
                     tims_scannum_to_oneoverk0 tdf_data frame (Z.of_nat scan_num) in
                   let mobility_array := replicate (length mz_array) mobility in
                   Ok (mzs ++ [mz_array], ints ++ [intensity_array],
                       mobs ++ [mobility_array])
                 else Ok (mzs, ints, mobs))
              (scan_end - scan_begin) ([], [], []))
    as ([[mzs ints] mobs] & -> & Hn & Hi & Hm & Hci & Hcm & Hne).
  { intros k st Hk. apply extract_3d_step; [done|lia]. }
  { by repeat split. }
  simpl in Hn, Hi, Hm, Hci, Hcm, Hne. fold usable in Hn. cbn [mbind result_bind].
  destruct mzs as [|mz0 mzs].
  - left. split; [by apply nil_length_inv|done].
  - right. split; [intros E; by rewrite E in Hn|].
    destruct ints as [|it0 ints]; [done|]. destruct mobs as [|mob0 mobs]; [done|].
    cbn [nonempty andb].
    rewrite (np_stack_Ok _ (concat (mz0 :: mzs))) by (by repeat constructor).
    cbn [mbind result_bind]. eexists _, _, _. split; [reflexivity|].
    unfold column. rewrite !length_fmap. split; [|done].
    intros E. apply fmap_nil_inv in E. revert E. apply merged_nonempty.
    intros E. apply fmap_nil_inv in E.
    apply (f_equal length) in E. rewrite length_seq in E.
    apply Hne; [done|]. by apply nil_length_inv.
Qed.

Lemma extract_3d_mobility_by_position_witness :
  ∃ mz_array intensity_array mobility_array,
    extract_3d_tdf_spectrum Samples.two_mobilities 1 1 2
      = Ok (mz_array, intensity_array, Some mobility_array) ∧
    mobility_array = [10 # 10]%Q ∧
    tims_scannum_to_oneoverk0 Samples.two_mobilities 1 1 = (11 # 10)%Q ∧
    ∀ v, v ∈ mobility_array →
      ∃ position, (position < 2 - 1)%nat ∧
        v = tims_scannum_to_oneoverk0 Samples.two_mobilities 1 (Z.of_nat position).
Proof.
  eassert (extract_3d_tdf_spectrum Samples.two_mobilities 1 1 2 = Ok (_, _, Some _)) as H
    by (vm_compute; reflexivity).
  eexists _, _, _. split; [exact H|]. split; [reflexivity|].
  split; [vm_compute; reflexivity|].
  exact (extract_3d_mobility_by_position _ _ _ _ _ _ _ H).
Defined.

Lemma extract_3d_returns_witness :
  let usable :=
    List.filter scan_usable
      (take (2 - 0) (tims_read_scans_v2 Samples.two_mobilities 1 0 2)) in
  usable = [] ∧
    extract_3d_tdf_spectrum Samples.two_mobilities 1 0 2 = Ok (None, None, None) ∨
  usable ≠ [] ∧
    ∃ mz_array intensity_array mobility_array,
      extract_3d_tdf_spectrum Samples.two_mobilities 1 0 2
        = Ok (Some mz_array, Some intensity_array, Some mobility_array) ∧
      mz_array ≠ [] ∧ length intensity_array = length mz_array ∧
      length mobility_array = length mz_array.
Proof.
  apply (extract_3d_returns Samples.two_mobilities 1 0 2).
  - simpl. lia.
  - reflexivity.
Defined.

(** ** The encoding *)

Lemma encoding_dtype_unsupported encoding :
  encoding ≠ 32 → encoding ≠ 64 → encoding_dtype encoding = Raise UnboundLocalError.
Proof.
  intros H32 H64. unfold encoding_dtype, get_encoding_dtype.
  by rewrite !decide_False by done.
Qed.

Lemma ms1_call_unsupported d encoding :
  encoding ≠ 32 → encoding ≠ 64 → ∃ e, ms1_spectrum_call d encoding = Raise e.
Proof.
  intros H32 H64. destruct (ms1_spectrum_call d encoding) as [c|e] eqn:E; [|by exists e].
  unfold ms1_spectrum_call in E. rewrite encoding_dtype_unsupported in E by done.
  apply bind_Ok in E as (params & _ & E). done.
Qed.

Lemma ms2_call_unsupported p d encoding :
  encoding ≠ 32 → encoding ≠ 64 → ∃ e, ms2_spectrum_call p encoding d = Raise e.
Proof.
  intros H32 H64. destruct (ms2_spectrum_call p encoding d) as [c|e] eqn:E; [|by exists e].
  unfold ms2_spectrum_call in E. rewrite encoding_dtype_unsupported in E by done.
  apply bind_Ok in E as (params & _ & E). apply bind_Ok in E as (info & _ & E). done.
Qed.

Section unsupported_encoding.
Context (parse_lcms : Z → Z → result (list ScanDict * list ScanDict)).
Context (ms2_only : bool) (encoding : Z) (H32 : encoding ≠ 32) (H64 : encoding ≠ 64).

Lemma write_product_unsupported parent c product w :
  post (write_product encoding parent c product w) (λ _ w', w' = w) (λ w', w' = w).
Proof.
  unfold write_product, write_lcms_ms2_spectrum, mbind, sink_bind, lift.
  by destruct (ms2_call_unsupported parent (<["scan_number" := VInt (c + 1)]> product)
                 encoding H32 H64) as [e ->].
Qed.

Lemma write_parent_unsupported products c parent w :
  post (write_parent encoding products c parent w) (λ _ w', w' = w) (λ w', w' = w).
Proof.
  unfold write_parent, write_lcms_ms1_spectrum, mbind, sink_bind, lift.
  destruct (select_products products parent); [|done].
  by destruct (ms1_call_unsupported (<["scan_number" := VInt (c + 1)]> parent)
                 encoding H32 H64) as [e ->].
Qed.

Lemma write_chunk_unsupported a b c w :
  post (write_lcms_chunk_to_mzml parse_lcms ms2_only encoding a b c w)
    (λ _ w', w' = w) (λ w', w' = w).
Proof.
  unfold write_lcms_chunk_to_mzml.
  eapply post_bind; [by apply (post_lift _ _ (λ _ w', w' = w))|].
  intros [ps qs] w' ->. destruct ms2_only; simpl.
  - apply (for_each_sink_post (λ _ w', w' = w)); [|done].
    intros s x w' ->. apply write_product_unsupported.
  - apply (for_each_sink_post (λ _ w', w' = w)); [|done].
    intros s x w' ->. apply write_parent_unsupported.
Qed.

Lemma write_chunks_unsupported ms1_frames frames_shape_0 chunk_size fuel :
  ∀ chunk j c w,
    post (write_chunks parse_lcms ms2_only encoding ms1_frames frames_shape_0 chunk_size
            fuel chunk j c w) (λ _ w', w' = w) (λ w', w' = w).
Proof.
  assert (∀ l c w, post (write_chunk_list parse_lcms ms2_only encoding l c w)
                     (λ _ w', w' = w) (λ w', w' = w)) as Hlist.
  { intros l c w. unfold write_chunk_list.
    apply (for_each_sink_post (λ _ w', w' = w)); [|done].
    intros s [x y] w' ->. apply write_chunk_unsupported. }
  induction fuel as [|fuel IH]; intros chunk j c w; [done|].
  cbn [write_chunks]. destruct (decide _).
  - eapply post_bind; [by apply (post_lift _ _ (λ _ w', w' = w))|].
    intros _ w' ->. eapply post_bind; [apply Hlist|].
    intros c' w' ->. apply IH.
  - destruct (loop_variable _ j); [|done].
    eapply post_bind; [apply Hlist|]. by intros c' w' ->.
Qed.
End unsupported_encoding.

(** X16. With an encoding other than 32 or 64 a run hands no spectrum to
    the sink: both spectrum writers read [encoding_dtype], which is then
    unassigned, before they call [write_spectrum]. *)
Theorem unsupported_encoding_writes_nothing parse_lcms ms2_only encoding preamble
    closing render ms1_frames frames_shape_0 chunk_size num_of_spectra outcome calls :
  encoding ≠ 32 → encoding ≠ 64 →
  write_lcms_mzml parse_lcms ms2_only encoding preamble closing render ms1_frames
    frames_shape_0 chunk_size num_of_spectra = Some (outcome, calls) →
  calls = [].
Proof.
  unfold write_lcms_mzml. intros H32 H64 H.
  pose proof (write_chunks_unsupported parse_lcms ms2_only encoding H32 H64 ms1_frames
                frames_shape_0 chunk_size (S (length ms1_frames)) 0%nat None 0 [])
    as Hpost.
  destruct (write_chunks _ _ _ _ _ _ _ _ _ _ _) as [[[c|]|e] w]; simpl in Hpost.
  - case_decide; by injection H as <- <-.
  - done.
  - by injection H as <- <-.
Qed.

Lemma unsupported_encoding_writes_nothing_witness :
  write_lcms_mzml (Samples.parser Samples.three_ms1 "centroid" false (Some true)) false 16
    [] [] (λ _, []) [1; 2; 3] 3 10 3 = Some (Raise UnboundLocalError, []).
Proof.
  destruct (write_lcms_mzml (Samples.parser Samples.three_ms1 "centroid" false (Some true))
              false 16 [] [] (λ _, []) [1; 2; 3] 3 10 3)
    as [[outcome calls]|] eqn:Hrun; [|vm_compute in Hrun; discriminate Hrun].
  pose proof (unsupported_encoding_writes_nothing
                (Samples.parser Samples.three_ms1 "centroid" false (Some true)) false 16
                [] [] (λ _, []) [1; 2; 3] 3 10 3 outcome calls
                ltac:(lia) ltac:(lia) Hrun) as ->.
  vm_compute in Hrun. by injection Hrun as <-.
Defined.

(** ** Rewriting the declared count *)

Lemma prefix_split old : ∀ s, String.prefix old s = true → ∃ r, s = old +:+ r.
Proof.
  induction old as [|c old IH]; intros s H; [by exists s|].
  destruct s as [|c' s]; [done|]. simpl in H.
  destruct (Ascii.ascii_dec c c') as [->|]; [|done].
  destruct (IH s H) as [r ->]. by exists r.
Qed.

Lemma str_replace_absent old new : ∀ s, ¬ occurs old s → str_replace old new s = s.
Proof.
  unfold str_replace. induction s as [|c s IH]; intros Hs; [done|].
  cbn [replace_from]. destruct (String.prefix old (String c s)) eqn:Hp.
  - exfalso. apply Hs. apply prefix_split in Hp as [r Hr].
    exists EmptyString, r. by rewrite Hr.
  - f_equal. apply IH. intros (a & b & ->). apply Hs. by exists (String c a), b.
Qed.

Lemma string_length_app (s r : string) :
  String.length (s +:+ r) = (String.length s + String.length r)%nat.
Proof. induction s as [|c s IH]; [done|]. simpl. by rewrite IH. Qed.

Lemma replace_same_length old : ∀ n s,
  (String.length s ≤ n)%nat → old ≠ EmptyString → replace_from old old 0 s = s.
Proof.
  induction n as [|n IH]; intros s Hn Hold.
  - destruct s; [done|simpl in Hn; lia].
  - destruct s as [|c s]; [done|]. cbn [replace_from].
    destruct (String.prefix old (String c s)) eqn:Hp.
    + apply prefix_split in Hp as [r Hr]. destruct old as [|c' t]; [done|].
      injection Hr as -> ->. cbn [String.length].
      replace (S (String.length t) - 1)%nat with (String.length t) by lia.
      rewrite replace_from_skip, IH; [done| |done].
      simpl in Hn. rewrite string_length_app in Hn. lia.
    + f_equal. apply IH; [simpl in Hn; lia|done].
Qed.

(** X17. [update_spectra_count] keeps the number of lines and copies
    unchanged every line in which the declared header text does not occur;
    when the two counts are equal it copies the whole file unchanged. *)
Theorem update_spectra_count_keeps_other_lines tmp num_of_spectra scan_count :
  length (update_spectra_count tmp num_of_spectra scan_count) = length tmp ∧
  (∀ i line, tmp !! i = Some line → ¬ occurs (spectrum_list_line num_of_spectra) line →
     update_spectra_count tmp num_of_spectra scan_count !! i = Some line) ∧
  update_spectra_count tmp num_of_spectra num_of_spectra = tmp.
Proof.
  unfold update_spectra_count. split; [by rewrite length_fmap|]. split.
  - intros i line Hi Hline. rewrite list_lookup_fmap, Hi. simpl.
    by rewrite str_replace_absent.
  - induction tmp as [|line tmp IH]; [done|]. rewrite fmap_cons, IH. f_equal.
    apply (replace_same_length _ (String.length line)); [lia|].
    apply spectrum_list_line_nonempty.
Qed.

(** ** BAF windows *)

Lemma baf_metadata_complete d fr ak mode d' :
  complete d = true →
  populate_scan_dict_w_baf_metadata d fr ak mode = Ok d' → complete d' = true.
Proof. keeps_complete populate_scan_dict_w_baf_metadata. Qed.

Lemma baf_ms2_complete d data fr f d' :
  complete d = true →
  populate_scan_dict_w_baf_ms2 d data fr f = Ok d' → complete d' = true.
Proof. keeps_complete populate_scan_dict_w_baf_ms2. Qed.

Lemma bbcid_baf_complete d f data d' :
  complete d = true →
  populate_scan_dict_w_bbcid_iscid_ms2_baf d f data = Ok d' → complete d' = true.
Proof. keeps_complete populate_scan_dict_w_bbcid_iscid_ms2_baf. Qed.

Lemma baf_ms2_lookup d data fr f d' :
  populate_scan_dict_w_baf_ms2 d data fr f = Ok d' →
  d' !! "mz_array" = d !! "mz_array" ∧
  d' !! "intensity_array" = d !! "intensity_array" ∧
  d' !! "ms_level" = Some (VInt 2) ∧
  (∃ c, d' !! "charge_state" = Some (VFloat c)) ∧
  ∃ parent, py_int (sp_Parent fr) = Ok parent ∧ d' !! "parent_frame" = Some (VInt parent).
Proof.
  unfold populate_scan_dict_w_baf_ms2. intros H. inv_result.
  repeat split; try (eexists; split; [eassumption|]); try eexists;
    rewrite ?lookup_insert_ne by done; by rewrite ?lookup_insert_eq.
Qed.

Lemma bbcid_baf_lookup d f data d' :
  populate_scan_dict_w_bbcid_iscid_ms2_baf d f data = Ok d' →
  d' !! "mz_array" = d !! "mz_array" ∧
  d' !! "intensity_array" = d !! "intensity_array" ∧
  d' !! "ms_level" = Some (VInt 2).
Proof.
  unfold populate_scan_dict_w_bbcid_iscid_ms2_baf. intros H. inv_result.
  repeat split; rewrite ?lookup_insert_ne by done; by rewrite ?lookup_insert_eq.
Qed.

Lemma ms1_lookup d f :
  populate_scan_dict_w_ms1 d f !! "mz_array" = d !! "mz_array" ∧
  populate_scan_dict_w_ms1 d f !! "intensity_array" = d !! "intensity_array".
Proof.
  unfold populate_scan_dict_w_ms1. by rewrite !lookup_insert_ne by done.
Qed.

Lemma scan_usable_pair mz it :
  scan_usable (mz, it) = true → mz ≠ [] ∧ length mz = length it.
Proof.
  intros H. apply scan_usable_lengths in H as [Hlen Hne]. simpl in *.
  split; [by intros ->|done].
Qed.

(** The shape of a product record of a BAF window. *)
Lemma baf_frame_records data mode ms2_only bins enc st f st' :
  (Forall (λ d, complete d = true) st.1 ∧ Forall holds_spectrum st.1 ∧
   (ms2_only = true → Forall (λ d, d !! "ms_level" = Some (VInt 2)) st.1)) ∧
  (Forall writable_product st.2 ∧ Forall holds_spectrum st.2 ∧
   Forall (λ d, d !! "ms_level" = Some (VInt 2) ∧
                ∃ parent, d !! "parent_frame" = Some (VInt parent)) st.2) →
  parse_lcms_baf_frame data mode ms2_only bins enc st f = Ok st' →
  (Forall (λ d, complete d = true) st'.1 ∧ Forall holds_spectrum st'.1 ∧
   (ms2_only = true → Forall (λ d, d !! "ms_level" = Some (VInt 2)) st'.1)) ∧
  (Forall writable_product st'.2 ∧ Forall holds_spectrum st'.2 ∧
   Forall (λ d, d !! "ms_level" = Some (VInt 2) ∧
                ∃ parent, d !! "parent_frame" = Some (VInt parent)) st'.2).
Proof.
  destruct st as [ps qs]. unfold parse_lcms_baf_frame. simpl.
  intros [(Hpc & Hps & Hpl) (Hqw & Hqs & Hql)] H.
  apply bind_Ok in H as (fr & _ & H). apply bind_Ok in H as (ak & _ & H).
  apply bind_Ok in H as (d0 & Hd0 & H). apply bind_Ok in H as ([mz it] & _ & H).
  destruct (scan_usable (mz, it)) eqn:Hu; [|by injection H as <-].
  apply scan_usable_pair in Hu as [Hne Hlen].
  apply bind_Ok in H as (d1 & Hd1 & H).
  assert (complete d1 = true) as Hc1.
  { eapply spectrum_data_complete; [|exact Hd1].
    eapply baf_metadata_complete; [|exact Hd0]. apply complete_init. }
  apply spectrum_data_arrays in Hd1 as (Hmz & Hit & _).
  destruct (bool_decide (ak_ScanMode ak = 0) && negb ms2_only) eqn:Hms1.
  { injection H as <-. simpl. split; [|done].
    split; [|split].
    - apply Forall_snoc; [done|]. unfold populate_scan_dict_w_ms1.
      by repeat apply complete_insert.
    - apply Forall_snoc; [done|]. exists mz, it.
      destruct (ms1_lookup d1 f) as [-> ->]. done.
    - intros ->. by rewrite andb_false_r in Hms1. }
  destruct (decide (ak_ScanMode ak = 2)).
  { apply bind_Ok in H as (d2 & Hd2 & H). injection H as <-. simpl. split; [done|].
    pose proof (baf_ms2_complete _ _ _ _ _ Hc1 Hd2) as Hc2.
    apply baf_ms2_lookup in Hd2 as (Hmz2 & Hit2 & Hl2 & [c Hcs] & parent & _ & Hp2).
    split; [|split]; (apply Forall_snoc; [done|]).
    - split; [done|]. unfold charge_readable. by rewrite Hcs.
    - exists mz, it. by rewrite Hmz2, Hit2.
    - eauto. }
  assert (∀ d2, populate_scan_dict_w_bbcid_iscid_ms2_baf d1 f data = Ok d2 →
            (Forall (λ d, complete d = true) (ps ++ [d2]) ∧
             Forall holds_spectrum (ps ++ [d2]) ∧
             (ms2_only = true →
              Forall (λ d, d !! "ms_level" = Some (VInt 2)) (ps ++ [d2]))) ∧
            Forall writable_product qs ∧ Forall holds_spectrum qs ∧
            Forall (λ d, d !! "ms_level" = Some (VInt 2) ∧
                         ∃ parent, d !! "parent_frame" = Some (VInt parent)) qs)
    as Hbbcid.
  { intros d2 Hd2. split; [|done].
    pose proof (bbcid_baf_complete _ _ _ _ Hc1 Hd2) as Hc2.
    apply bbcid_baf_lookup in Hd2 as (Hmz2 & Hit2 & Hl2).
    split; [|split].
    - by apply Forall_snoc.
    - apply Forall_snoc; [done|]. exists mz, it. by rewrite Hmz2, Hit2.
    - intros Hm. apply Forall_snoc; [by apply Hpl|done]. }
  destruct (decide (ak_ScanMode ak = 4)).
  { apply bind_Ok in H as (d2 & Hd2 & H). injection H as <-. by apply Hbbcid. }
  destruct (decide (ak_ScanMode ak = 5)).
  { apply bind_Ok in H as (d2 & Hd2 & H). injection H as <-. by apply Hbbcid. }
  injection H as <-. done.
Qed.

Lemma parse_lcms_baf_records data a b mode ms2_only bins enc ps qs :
  parse_lcms_baf data a b mode ms2_only bins enc = Ok (ps, qs) →
  (Forall (λ d, complete d = true) ps ∧ Forall holds_spectrum ps ∧
   (ms2_only = true → Forall (λ d, d !! "ms_level" = Some (VInt 2)) ps)) ∧
  (Forall writable_product qs ∧ Forall holds_spectrum qs ∧
   Forall (λ d, d !! "ms_level" = Some (VInt 2) ∧
                ∃ parent, d !! "parent_frame" = Some (VInt parent)) qs).
Proof.
  unfold parse_lcms_baf. intros H.
  apply (for_each_inv
           (λ st, (Forall (λ d, complete d = true) st.1 ∧ Forall holds_spectrum st.1 ∧
                   (ms2_only = true →
                    Forall (λ d, d !! "ms_level" = Some (VInt 2)) st.1)) ∧
                  (Forall writable_product st.2 ∧ Forall holds_spectrum st.2 ∧
                   Forall (λ d, d !! "ms_level" = Some (VInt 2) ∧
                                ∃ parent, d !! "parent_frame" = Some (VInt parent))
                     st.2))) in H; [done| |by repeat split].
  intros st f st'. apply baf_frame_records.
Qed.

Lemma baf_window_parsed data mode ms2_only frame_start frame_stop :
  BafSamples.parses data mode ms2_only frame_start frame_stop = true →
  BafSamples.parser data mode ms2_only frame_start frame_stop
    = Ok ((BafSamples.window data mode ms2_only frame_start frame_stop).1,
          (BafSamples.window data mode ms2_only frame_start frame_stop).2).
Proof.
  unfold BafSamples.parses, BafSamples.window.
  destruct (BafSamples.parser _ _ _ _ _) as [[ps qs]|e]; [done|discriminate].
Qed.

(** The parser on a window of the sample BAF acquisition, by evaluation. *)
Ltac baf_sample_window :=
  match goal with
  | |- parse_lcms_baf ?data ?a ?b ?mode ?ms2 0 64 = _ =>
      let H := fresh in
      assert (BafSamples.parses data mode ms2 a b = true) as H
        by (vm_compute; reflexivity);
      apply baf_window_parsed in H; unfold BafSamples.parser in H; exact H
  end.

(** X18. A window of Baf2Sql data written with [ms2_only] false is emitted in
    the linked order, with no assumption on the records: every record of the
    parent list, each followed at once by the products whose [parent_frame]
    equals its [frame], numbered consecutively, every product referring to
    its parent's number.  No writer meets a missing key or an unreadable
    charge state. *)
Theorem baf_window_linked_order baf_data frame_start frame_stop mode profile_bins
    encoding scan_count calls0 parent_scans product_scans :
  encoding = 32 ∨ encoding = 64 →
  parse_lcms_baf baf_data frame_start frame_stop mode false profile_bins encoding
    = Ok (parent_scans, product_scans) →
  ∃ calls,
    write_lcms_chunk_to_mzml
      (λ frame_start frame_stop,
         parse_lcms_baf baf_data frame_start frame_stop mode false profile_bins encoding)
      false encoding frame_start frame_stop scan_count calls0
      = (Ok (scan_count + Z.of_nat (length calls)), calls0 ++ calls) ∧
    Forall2 (emitted_as encoding) (linked_emission scan_count parent_scans product_scans)
      calls.
Proof.
  intros Henc Hparse.
  destruct (parse_lcms_baf_records _ _ _ _ _ _ _ _ _ Hparse) as [(Hps & _) (Hqs & _)].
  destruct (parents_written encoding Henc product_scans parent_scans scan_count calls0
              Hps Hqs) as (calls & Hrun & Hem).
  exists calls. split; [|done].
  unfold write_lcms_chunk_to_mzml, mbind at 1, sink_bind at 1, lift.
  rewrite Hparse. exact Hrun.
Qed.

(** X19. A window of Baf2Sql data written with [ms2_only] set: the parent
    list holds no MS1 record, and every product record (Auto MS/MS and MRM
    spectra) is written, numbered consecutively, without a
    [spectrum_reference]. *)
Theorem baf_ms2_only_writes_products baf_data frame_start frame_stop mode profile_bins
    encoding scan_count calls0 parent_scans product_scans :
  encoding = 32 ∨ encoding = 64 →
  parse_lcms_baf baf_data frame_start frame_stop mode true profile_bins encoding
    = Ok (parent_scans, product_scans) →
  Forall (λ d, d !! "ms_level" = Some (VInt 2)) parent_scans ∧
  ∃ calls,
    write_lcms_chunk_to_mzml
      (λ frame_start frame_stop,
         parse_lcms_baf baf_data frame_start frame_stop mode true profile_bins encoding)
      true encoding frame_start frame_stop scan_count calls0
      = (Ok (scan_count + Z.of_nat (length calls)), calls0 ++ calls) ∧
    length calls = length product_scans ∧
    Forall (λ call, spectrum_reference call = None) calls.
Proof.
  intros Henc Hparse.
  destruct (parse_lcms_baf_records _ _ _ _ _ _ _ _ _ Hparse)
    as [(_ & _ & Hlevel) (Hqs & _)].
  split; [by apply Hlevel|].
  destruct (standalone_products_written encoding product_scans scan_count calls0 Henc Hqs)
    as (calls & Hrun & Hlen & Href).
  exists calls. split; [|done].
  unfold write_lcms_chunk_to_mzml, mbind at 1, sink_bind at 1, lift.
  rewrite Hparse. exact Hrun.
Qed.

(** X20. Every record [parse_lcms_baf] returns holds an m/z array and an
    intensity array that are not empty and have one length, and every
    product record is an MS2 record that names a parent frame. *)
Theorem baf_records_hold_spectra baf_data frame_start frame_stop mode ms2_only
    profile_bins encoding parent_scans product_scans :
  parse_lcms_baf baf_data frame_start frame_stop mode ms2_only profile_bins encoding
    = Ok (parent_scans, product_scans) →
  Forall holds_spectrum (parent_scans ++ product_scans) ∧
  Forall (λ d, d !! "ms_level" = Some (VInt 2) ∧
               ∃ parent, d !! "parent_frame" = Some (VInt parent)) product_scans.
Proof.
  intros Hparse.
  destruct (parse_lcms_baf_records _ _ _ _ _ _ _ _ _ Hparse)
    as [(_ & Hps & _) (_ & Hqs & Hshape)].
  split; [by apply Forall_app|done].
Qed.

Lemma baf_window_linked_order_witness :
  let records := BafSamples.window BafSamples.auto_msms "centroid" false 1 3 in
  length records.1 = 1%nat ∧ length records.2 = 1%nat ∧
  ∃ calls,
    write_lcms_chunk_to_mzml
      (λ frame_start frame_stop,
         parse_lcms_baf BafSamples.auto_msms frame_start frame_stop "centroid" false 0 64)
      false 64 1 3 0 [] = (Ok (0 + Z.of_nat (length calls)), [] ++ calls) ∧
    Forall2 (emitted_as 64) (linked_emission 0 records.1 records.2) calls.
Proof.
  intros records. split; [vm_compute; reflexivity|]. split; [vm_compute; reflexivity|].
  apply (baf_window_linked_order BafSamples.auto_msms 1 3 "centroid" 0 64 0 []
           records.1 records.2); [by right|].
  baf_sample_window.
Defined.

Lemma baf_ms2_only_writes_products_witness :
  let records := BafSamples.window BafSamples.auto_msms "centroid" true 1 4 in
  records.1 = [] ∧ length records.2 = 1%nat ∧
  Forall (λ d, d !! "ms_level" = Some (VInt 2)) records.1 ∧
  ∃ calls,
    write_lcms_chunk_to_mzml
      (λ frame_start frame_stop,
         parse_lcms_baf BafSamples.auto_msms frame_start frame_stop "centroid" true 0 64)
      true 64 1 4 0 [] = (Ok (0 + Z.of_nat (length calls)), [] ++ calls) ∧
    length calls = length records.2 ∧
    Forall (λ call, spectrum_reference call = None) calls.
Proof.
  intros records. split; [vm_compute; reflexivity|]. split; [vm_compute; reflexivity|].
  apply (baf_ms2_only_writes_products BafSamples.auto_msms 1 4 "centroid" 0 64 0 []
           records.1 records.2); [by right|].
  baf_sample_window.
Defined.

Lemma baf_records_hold_spectra_witness :
  let records := BafSamples.window BafSamples.auto_msms "centroid" false 1 4 in
  length records.1 = 2%nat ∧ length records.2 = 1%nat ∧
  Forall holds_spectrum (records.1 ++ records.2) ∧
  Forall (λ d, d !! "ms_level" = Some (VInt 2) ∧
               ∃ parent, d !! "parent_frame" = Some (VInt parent)) records.2.
Proof.
  intros records. split; [vm_compute; reflexivity|]. split; [vm_compute; reflexivity|].
  apply (baf_records_hold_spectra BafSamples.auto_msms 1 4 "centroid" false 0 64).
  baf_sample_window.
Defined.

(** ** MALDI and TSF records *)

Lemma maldi_metadata_complete d info fr row f mode d' :
  complete d = true →
  populate_scan_dict_w_maldi_metadata d info fr row f mode = Ok d' → complete d' = true.
Proof. keeps_complete populate_scan_dict_w_maldi_metadata. Qed.

Lemma get_maldi_coords_not_None info row coord :
  get_maldi_coords info row = Ok coord → coord ≠ VNone.
Proof.
  unfold get_maldi_coords. repeat case_decide; intros [= <-]; done.
Qed.

Lemma maldi_metadata_lookup d info fr row f mode d' :
  populate_scan_dict_w_maldi_metadata d info fr row f mode = Ok d' →
  d' !! "frame" = Some (VInt f) ∧ (∃ coord, d' !! "coord" = Some coord ∧ coord ≠ VNone) ∧
  d' !! "charge_state" = d !! "charge_state" ∧ d' !! "ms_level" = d !! "ms_level".
Proof.
  unfold populate_scan_dict_w_maldi_metadata. intros H.
  apply bind_Ok in H as (coord & Hc & H). apply get_maldi_coords_not_None in Hc.
  inv_result. split; [by rewrite lookup_insert_eq|]. split.
  - exists coord. split; [|done]. by rewrite !lookup_insert_ne, lookup_insert_eq by done.
  - by rewrite !lookup_insert_ne by done.
Qed.

Lemma tsf_ms2_lookup d fm lcms :
  let d' := populate_scan_dict_w_tsf_ms2 d fm lcms in
  d' !! "ms_level" = Some (VInt 2) ∧
  d' !! "charge_state" = Some (VFloat (fm_PrecursorCharge fm)) ∧
  d' !! "frame" = d !! "frame" ∧ d' !! "coord" = d !! "coord" ∧
  d' !! "mz_array" = d !! "mz_array" ∧ d' !! "intensity_array" = d !! "intensity_array" ∧
  (lcms = true → d' !! "parent_frame" = Some (VInt (fm_Parent fm))).
Proof.
  unfold populate_scan_dict_w_tsf_ms2. destruct lcms; repeat split; try done;
    rewrite ?lookup_insert_ne by done; by rewrite ?lookup_insert_eq.
Qed.

Lemma tsf_ms2_complete d fm lcms :
  complete d = true → complete (populate_scan_dict_w_tsf_ms2 d fm lcms) = true.
Proof.
  intros H. unfold populate_scan_dict_w_tsf_ms2.
  destruct lcms; by repeat apply complete_insert.
Qed.

Lemma ms1_record_lookup d f :
  let d' := populate_scan_dict_w_ms1 d f in
  d' !! "ms_level" = Some (VInt 1) ∧ d' !! "frame" = Some (VInt f) ∧
  d' !! "coord" = d !! "coord" ∧
  d' !! "mz_array" = d !! "mz_array" ∧ d' !! "intensity_array" = d !! "intensity_array".
Proof.
  unfold populate_scan_dict_w_ms1. repeat split;
    rewrite ?lookup_insert_ne by done; by rewrite ?lookup_insert_eq.
Qed.

Section maldi_frames.
Context (C : MsMsTypeCategory) (info : MaldiInfo) (mode : string) (ms2_only : bool).
Context (bins enc : Z).

Lemma maldi_tsf_frame_record tsf l f l' :
  parse_maldi_tsf_frame C tsf mode ms2_only bins enc info l f = Ok l' →
  l' = l ∨ ∃ d, l' = l ++ [d] ∧ maldi_record ms2_only f d.
Proof.
  unfold parse_maldi_tsf_frame. intros H.
  apply bind_Ok in H as (fr & _ & H). apply bind_Ok in H as (row & _ & H).
  apply bind_Ok in H as (d0 & Hd0 & H). apply bind_Ok in H as ([mz it] & _ & H).
  destruct (scan_usable (mz, it)) eqn:Hu; [|injection H as <-; by left].
  apply scan_usable_pair in Hu as [Hne Hlen].
  apply bind_Ok in H as (d1 & Hd1 & H).
  pose proof (maldi_metadata_complete _ _ _ _ _ _ _ complete_init Hd0) as Hc0.
  pose proof (spectrum_data_complete _ _ _ _ Hc0 Hd1) as Hc1.
  apply maldi_metadata_lookup in Hd0 as (Hf0 & (coord & Hcoord & Hnn) & _).
  pose proof (spectrum_data_keeps _ _ _ _ Hd1) as Hkeep.
  apply spectrum_data_arrays in Hd1 as (Hmz & Hit & _).
  destruct (bool_decide _ && negb ms2_only) eqn:Hms1.
  { injection H as <-. right. exists (populate_scan_dict_w_ms1 d1 f). split; [done|].
    destruct (ms1_record_lookup d1 f) as (Hl & Hfr & Hco & Hm & Hi).
    split; [unfold populate_scan_dict_w_ms1; by repeat apply complete_insert|].
    split; [exists mz, it; by rewrite Hm, Hi|]. split; [done|].
    split; [exists coord; rewrite Hco, Hkeep by (by repeat constructor); done|].
    left. split; [done|]. destruct ms2_only; [by rewrite andb_false_r in Hms1|done]. }
  destruct (bool_decide (fr_MsMsType fr ∈ cat_ms2 C)); [|injection H as <-; by left].
  apply bind_Ok in H as (fm & _ & H). injection H as <-. right.
  exists (populate_scan_dict_w_tsf_ms2 d1 fm false). split; [done|].
  destruct (tsf_ms2_lookup d1 fm false) as (Hl & Hcs & Hfr & Hco & Hm & Hi & _).
  split; [by apply tsf_ms2_complete|].
  split; [exists mz, it; by rewrite Hm, Hi|].
  split; [rewrite Hfr, Hkeep by (by repeat constructor); done|].
  split; [exists coord; rewrite Hco, Hkeep by (by repeat constructor); done|].
  right. eauto.
Qed.

Lemma maldi_tdf_frame_record tdf excl l f l' :
  parse_maldi_tdf_frame C tdf info mode ms2_only excl bins enc l f = Ok l' →
  l' = l ∨ ∃ d, l' = l ++ [d] ∧ maldi_record ms2_only f d.
Proof.
  unfold parse_maldi_tdf_frame. intros H.
  apply bind_Ok in H as (fr & _ & H). apply bind_Ok in H as (row & _ & H).
  apply bind_Ok in H as (d0 & Hd0 & H).
  pose proof (maldi_metadata_complete _ _ _ _ _ _ _ complete_init Hd0) as Hc0.
  apply maldi_metadata_lookup in Hd0 as (Hf0 & (coord & Hcoord & Hnn) & _).
  destruct (bool_decide _ && negb ms2_only) eqn:Hms1.
  { apply bind_Ok in H as ([[mz it] mob] & _ & H).
    apply bind_Ok in H as (usable & Hu & H).
    destruct usable; [|injection H as <-; by left].
    apply arrays_usable_true in Hu as (m & i & -> & -> & Hne & Hlen).
    apply bind_Ok in H as (d1 & Hd1 & H). injection H as <-. right.
    exists d1. split; [done|].
    pose proof (store_arrays_keeps _ _ _ _ _ _ Hd1) as Hkeep.
    split; [eapply store_arrays_complete; [|exact Hd1]; by repeat apply complete_insert|].
    apply store_arrays_arrays in Hd1 as [Hmz Hit].
    split; [by exists m, i|].
    split; [rewrite Hkeep by (by repeat constructor);
            by rewrite !lookup_insert_ne by done|].
    split; [exists coord; rewrite Hkeep by (by repeat constructor);
            by rewrite !lookup_insert_ne by done|].
    left. split; [|destruct ms2_only; [by rewrite andb_false_r in Hms1|done]].
    rewrite Hkeep by (by repeat constructor). by rewrite lookup_insert_eq. }
  destruct (bool_decide (fr_MsMsType fr ∈ cat_ms2 C)); [|injection H as <-; by left].
  apply bind_Ok in H as (fm & _ & H).
  apply bind_Ok in H as ([[mz it] mob] & _ & H).
  apply bind_Ok in H as (usable & Hu & H).
  destruct usable; [|injection H as <-; by left].
  apply arrays_usable_true in Hu as (m & i & -> & -> & Hne & Hlen).
  apply bind_Ok in H as (d1 & Hd1 & H). injection H as <-. right.
  exists (populate_scan_dict_w_tsf_ms2 d1 fm false). split; [done|].
  pose proof (store_arrays_keeps _ _ _ _ _ _ Hd1) as Hkeep.
  pose proof (store_arrays_complete _ _ _ _ _ _ Hc0 Hd1) as Hc1.
  apply store_arrays_arrays in Hd1 as [Hmz Hit].
  destruct (tsf_ms2_lookup d1 fm false) as (Hl & Hcs & Hfr & Hco & Hm & Hi & _).
  split; [by apply tsf_ms2_complete|].
  split; [exists m, i; by rewrite Hm, Hi|].
  split; [rewrite Hfr, Hkeep by (by repeat constructor); done|].
  split; [exists coord; rewrite Hco, Hkeep by (by repeat constructor); done|].
  right. eauto.
Qed.
End maldi_frames.

(** One step of the invariant of the two MALDI loops. *)
Lemma maldi_records_step ms2_only a b f l l' :
  a ≤ f < b →
  (∃ fs, StronglySorted Z.lt fs ∧ Forall (λ g, a ≤ g < f ∧ g < b) fs ∧
         Forall2 (maldi_record ms2_only) fs l) →
  l' = l ∨ (∃ d, l' = l ++ [d] ∧ maldi_record ms2_only f d) →
  ∃ fs, StronglySorted Z.lt fs ∧ Forall (λ g, a ≤ g < f + 1 ∧ g < b) fs ∧
        Forall2 (maldi_record ms2_only) fs l'.
Proof.
  intros Hf (fs & Hs & Hb & Hr) [->|(d & -> & Hd)].
  - exists fs. split; [done|]. split; [|done].
    eapply Forall_impl; [exact Hb|]. simpl. lia.
  - exists (fs ++ [f]). split; [|split].
    + apply StronglySorted_app_2; [|done|repeat constructor].
      intros x y Hx Hy. apply list_elem_of_singleton in Hy as ->.
      rewrite Forall_forall in Hb. apply Hb in Hx. lia.
    + apply Forall_app. split; [|repeat constructor; lia].
      eapply Forall_impl; [exact Hb|]. simpl. lia.
    + apply Forall2_app; [done|]. constructor; [done|constructor].
Qed.

Lemma maldi_records_window ms2_only a b (body : list ScanDict → Z → result (list ScanDict))
    records :
  (∀ l f l', body l f = Ok l' →
     l' = l ∨ ∃ d, l' = l ++ [d] ∧ maldi_record ms2_only f d) →
  for_each body (seqZ a (b - a)) [] = Ok records →
  maldi_records ms2_only a b records.
Proof.
  intros Hbody H.
  apply (for_each_window
           (λ f l, ∃ fs, StronglySorted Z.lt fs ∧ Forall (λ g, a ≤ g < f ∧ g < b) fs ∧
                         Forall2 (maldi_record ms2_only) fs l)) in H.
  - destruct H as (fs & Hs & Hb & Hr). exists fs. split; [done|]. split; [|done].
    eapply Forall_impl; [exact Hb|]. simpl. lia.
  - intros f l l' Hf Hl Hframe. eapply maldi_records_step; eauto.
  - exists []. repeat constructor.
Qed.

Lemma sorted_window_length fs : ∀ a b,
  StronglySorted Z.lt fs → Forall (λ f, a ≤ f < b) fs →
  Z.of_nat (length fs) ≤ Z.max 0 (b - a).
Proof.
  induction fs as [|f fs IH]; intros a b Hs Hb; [simpl; lia|].
  apply StronglySorted_inv in Hs as [Hs Hf]. apply Forall_cons in Hb as [Hfb Hb].
  specialize (IH (f + 1) b Hs). simpl length. rewrite Nat2Z.inj_succ.
  assert (Forall (λ g, f + 1 ≤ g < b) fs) as Hb'.
  { apply Forall_forall. intros g Hg. rewrite Forall_forall in Hf, Hb.
    specialize (Hf g Hg). specialize (Hb g Hg). lia. }
  specialize (IH Hb'). lia.
Qed.

(** X21. The MALDI parsers return at most one record per frame of the
    window, in frame order.  Every record has all keys, holds a non-empty
    m/z and intensity array of one length, carries its frame number and a
    spot name or pixel, and is an MS1 record (never with [ms2_only]) or an
    MS2 record with a float charge state. *)
Theorem maldi_parsers_records C data mode ms2_only exclude_mobility profile_bins encoding
    num_frames records :
  parse_maldi C data mode ms2_only exclude_mobility profile_bins encoding num_frames
    = Ok records →
  maldi_records ms2_only 1 num_frames records ∧
  Z.of_nat (length records) ≤ Z.max 0 (num_frames - 1).
Proof.
  intros H.
  assert (maldi_records ms2_only 1 num_frames records) as Hrec.
  { destruct data as [tsf info|tdf info|]; simpl in H; [| |done].
    - eapply maldi_records_window; [|exact H]. apply maldi_tsf_frame_record.
    - unfold parse_maldi_tdf in H. apply bind_Ok in H as ([c e] & _ & H).
      eapply maldi_records_window; [|exact H]. apply maldi_tdf_frame_record. }
  split; [done|]. destruct Hrec as (fs & Hs & Hb & Hr).
  rewrite <- (Forall2_length _ _ _ Hr). by apply sorted_window_length.
Qed.

(** ** The combined MALDI file *)

Lemma encoding_dtype_supported enc : enc = 32 ∨ enc = 64 → encoding_dtype enc = Ok enc.
Proof. unfold encoding_dtype, get_encoding_dtype. by intros [-> | ->]. Qed.

Lemma numbered_lookup n d k : k ≠ "scan_number" → numbered n d !! k = d !! k.
Proof. intros Hk. unfold numbered. by rewrite lookup_insert_ne. Qed.

Lemma maldi_ms1_call_exists tdf d n enc title :
  complete d = true → enc = 32 ∨ enc = 64 → d !! "ms_level" = Some (VInt 1) →
  ∃ call, maldi_ms1_spectrum_call tdf (numbered n d) enc title = Ok call ∧
          maldi_written n d call.
Proof.
  intros Hd Henc Hlevel. pose proof (complete_numbered n d Hd) as Hn.
  unfold maldi_ms1_spectrum_call. rewrite (encoding_dtype_supported enc Henc).
  assert (getitem (numbered n d) "ms_level" = Ok (VInt 1)) as ->.
  { unfold getitem. by rewrite numbered_lookup, Hlevel. }
  assert (getitem (numbered n d) "scan_number" = Ok (VInt n)) as ->.
  { unfold getitem, numbered. by rewrite lookup_insert_eq. }
  cbn [mbind result_bind py_eqb Z.eqb Pos.eqb].
  destruct tdf; read_keys Hn; (eexists; split; [reflexivity|]).
  all: unfold maldi_written, call_param; simpl.
  all: repeat match goal with
       | E : numbered _ _ !! _ = Some _ |- _ => rewrite numbered_lookup in E by done
       end.
  all: repeat split; try done; congruence.
Qed.

Lemma maldi_ms2_call_exists d n enc title :
  complete d = true → enc = 32 ∨ enc = 64 → d !! "ms_level" = Some (VInt 2) →
  (∃ c, d !! "charge_state" = Some (VFloat c)) →
  ∃ call, maldi_ms2_spectrum_call (numbered n d) enc title = Ok call ∧
          maldi_written n d call.
Proof.
  intros Hd Henc Hlevel [c Hc]. pose proof (complete_numbered n d Hd) as Hn.
  unfold maldi_ms2_spectrum_call. rewrite (encoding_dtype_supported enc Henc).
  rewrite !(complete_has_key _ _ Hn) by (simpl; tauto).
  assert (getitem (numbered n d) "scan_number" = Ok (VInt n)) as ->.
  { unfold getitem, numbered. by rewrite lookup_insert_eq. }
  assert (getitem (numbered n d) "charge_state" = Ok (VFloat c)) as ->.
  { unfold getitem. by rewrite numbered_lookup, Hc. }
  cbn [andb mbind result_bind].
  read_keys Hn. eexists. split; [reflexivity|].
  unfold maldi_written, call_param; simpl.
  repeat match goal with
  | E : numbered n d !! _ = Some _ |- _ => rewrite numbered_lookup in E by done
  end.
  repeat split; try done; congruence.
Qed.

Section maldi_run.
Context (C : MsMsTypeCategory) (data : MaldiData) (mode : string) (ms2_only : bool).
Context (excl : option bool) (bins enc : Z) (Henc : enc = 32 ∨ enc = 64).
Context (title : pyval).

Lemma maldi_scan_written c d f w :
  maldi_record ms2_only f d →
  ∃ call, write_maldi_dd_scan data ms2_only enc title c d w = (Ok (c + 1), w ++ [call]) ∧
          maldi_written (c + 1) d call.
Proof.
  intros (Hd & _ & _ & _ & Hlevel). unfold write_maldi_dd_scan.
  assert (getitem (<["scan_number" := VInt (c + 1)]> d) "ms_level" = getitem d "ms_level")
    as Hsame by (unfold getitem; by rewrite lookup_insert_ne).
  unfold mbind at 1, sink_bind at 1, lift at 1.
  destruct Hlevel as [[Hl ->]|[Hl Hc]].
  - destruct (maldi_ms1_call_exists (schema_tdf data) d (c + 1) enc title Hd Henc Hl)
      as (call & Hcall & Hw).
    exists call. split; [|done].
    unfold mbind at 1, sink_bind at 1, lift at 1. rewrite Hsame.
    unfold getitem. rewrite Hl. cbn [py_eqb Z.eqb Pos.eqb].
    unfold write_maldi_dd_ms1_spectrum, mbind, sink_bind, lift, write_spectrum.
    unfold numbered in Hcall. by rewrite Hcall.
  - destruct (maldi_ms2_call_exists d (c + 1) enc title Hd Henc Hl Hc)
      as (call & Hcall & Hw).
    exists call. split; [|done].
    assert ((if ms2_only
             then ms_level ← getitem d "ms_level"; Ok (py_eqb ms_level (VInt 1))
             else Ok false) = Ok false) as ->.
    { unfold getitem. rewrite Hl. by destruct ms2_only. }
    unfold mbind at 1, sink_bind at 1, lift at 1. rewrite Hsame.
    unfold getitem. rewrite Hl. cbn [py_eqb Z.eqb Pos.eqb].
    unfold write_maldi_dd_ms2_spectrum, mbind, sink_bind, lift, write_spectrum.
    unfold numbered in Hcall. by rewrite Hcall.
Qed.

Lemma maldi_scans_written records : ∀ fs c w,
  Forall2 (maldi_record ms2_only) fs records →
  ∃ calls,
    for_each_sink (write_maldi_dd_scan data ms2_only enc title) records c w
      = (Ok (c + Z.of_nat (length records)), w ++ calls) ∧
    Forall2 (λ nd call, maldi_written nd.1 nd.2 call)
      (zip ((λ i : nat, c + Z.of_nat i) <$> seq 1 (length records)) records) calls.
Proof.
  induction records as [|d records IH]; intros fs c w Hr.
  - exists []. simpl. rewrite Z.add_0_r, app_nil_r. split; [done|constructor].
  - apply Forall2_cons_inv_r in Hr as (f & fs' & Hd & Hr & ->).
    destruct (maldi_scan_written c d f w Hd) as (call & Hrun & Hw).
    destruct (IH fs' (c + 1) (w ++ [call]) Hr) as (calls & Hruns & Hws).
    exists (call :: calls). split.
    + cbn [for_each_sink]. unfold mbind at 1, sink_bind at 1. rewrite Hrun, Hruns.
      f_equal; [f_equal; simpl length; lia|by rewrite <- app_assoc].
    + simpl length. cbn [seq fmap list_fmap zip zip_with].
      constructor; [by replace (c + Z.of_nat 1) with (c + 1) by lia|].
      rewrite <- seq_shift, <- list_fmap_compose.
      erewrite list_fmap_ext; [exact Hws|]. intros i x _. simpl. lia.
Qed.
End maldi_run.


Lemma maldi_parsed data mode ms2_only :
  MaldiSamples.parses data mode ms2_only = true →
  MaldiSamples.parser data mode ms2_only = Ok (MaldiSamples.records data mode ms2_only).
Proof.
  unfold MaldiSamples.parses, MaldiSamples.records.
  by destruct (MaldiSamples.parser _ _ _).
Qed.

(** The parser on a sample MALDI acquisition, by evaluation. *)
Ltac maldi_sample :=
  match goal with
  | |- parse_maldi Samples.categories ?data ?mode ?ms2 None 0 64 _ = _ =>
      let H := fresh in
      assert (MaldiSamples.parses data mode ms2 = true) as H
        by (vm_compute; reflexivity);
      apply maldi_parsed in H; unfold MaldiSamples.parser in H; exact H
  end.

Lemma maldi_parsers_records_witness :
  let records := MaldiSamples.records MaldiSamples.dried_droplet "centroid" false in
  length records = 2%nat ∧
  maldi_records false 1 (Z.of_nat (maldi_frames_shape_0 MaldiSamples.dried_droplet) + 1)
    records ∧
  Z.of_nat (length records)
    ≤ Z.max 0 (Z.of_nat (maldi_frames_shape_0 MaldiSamples.dried_droplet) + 1 - 1).
Proof.
  intros records. split; [vm_compute; reflexivity|].
  apply (maldi_parsers_records Samples.categories MaldiSamples.dried_droplet "centroid"
           false None 0 64).
  maldi_sample.
Defined.


(** ** LC-MS windows of TSF data *)

Lemma bbcid_lookup d f fm :
  let d' := populate_scan_dict_w_bbcid_iscid_ms2 d f fm in
  d' !! "mz_array" = d !! "mz_array" ∧ d' !! "intensity_array" = d !! "intensity_array".
Proof.
  unfold populate_scan_dict_w_bbcid_iscid_ms2. by rewrite !lookup_insert_ne by done.
Qed.

Lemma tsf_frame_records C tsf mode ms2_only bins enc st f st' :
  (Forall (λ d, complete d = true) st.1 ∧ Forall holds_spectrum st.1) ∧
  (Forall writable_product st.2 ∧ Forall holds_spectrum st.2 ∧
   Forall (λ d, d !! "ms_level" = Some (VInt 2) ∧
                ∃ parent, d !! "parent_frame" = Some (VInt parent)) st.2) →
  parse_lcms_tsf_frame C tsf mode ms2_only bins enc st f = Ok st' →
  (Forall (λ d, complete d = true) st'.1 ∧ Forall holds_spectrum st'.1) ∧
  (Forall writable_product st'.2 ∧ Forall holds_spectrum st'.2 ∧
   Forall (λ d, d !! "ms_level" = Some (VInt 2) ∧
                ∃ parent, d !! "parent_frame" = Some (VInt parent)) st'.2).
Proof.
  destruct st as [ps qs]. unfold parse_lcms_tsf_frame. cbn [fst snd].
  intros [(Hpc & Hps) (Hqw & Hqs & Hql)] H.
  apply bind_Ok in H as (fr & _ & H). apply bind_Ok in H as (d0 & Hd0 & H).
  apply bind_Ok in H as ([mz it] & _ & H).
  destruct (scan_usable (mz, it)) eqn:Hu; [|by injection H as <-].
  apply scan_usable_pair in Hu as [Hne Hlen].
  apply bind_Ok in H as (d1 & Hd1 & H).
  assert (complete d1 = true) as Hc1.
  { eapply spectrum_data_complete; [|exact Hd1].
    eapply metadata_complete; [|exact Hd0]. apply complete_init. }
  apply spectrum_data_arrays in Hd1 as (Hmz & Hit & _).
  destruct (bool_decide _ && negb ms2_only).
  { assert (st' = (ps ++ [populate_scan_dict_w_ms1 d1 f], qs)) as ->
      by (by injection H).
    cbn [fst snd]. split; [|done].
    destruct (ms1_record_lookup d1 f) as (_ & _ & _ & Hm & Hi).
    split; apply Forall_snoc; try done.
    - unfold populate_scan_dict_w_ms1. by repeat apply complete_insert.
    - exists mz, it. by rewrite Hm, Hi. }
  destruct (bool_decide (fr_MsMsType fr ∈ cat_ms2 C)); [|by injection H as <-].
  apply bind_Ok in H as (fm & _ & H).
  destruct (decide (fr_ScanMode fr = 1)).
  { assert (st' = (ps, qs ++ [populate_scan_dict_w_tsf_ms2 d1 fm true])) as ->
      by (by injection H).
    cbn [fst snd]. split; [done|].
    destruct (tsf_ms2_lookup d1 fm true) as (Hl & Hcs & _ & _ & Hm & Hi & Hp).
    split; [|split]; (apply Forall_snoc; [done|]).
    - split; [by apply tsf_ms2_complete|]. unfold charge_readable. by rewrite Hcs.
    - exists mz, it. by rewrite Hm, Hi.
    - split; [done|]. exists (fm_Parent fm). by apply Hp. }
  destruct (decide (fr_ScanMode fr = 4)).
  { assert (st' = (ps ++ [populate_scan_dict_w_bbcid_iscid_ms2 d1 f fm], qs)) as ->
      by (by injection H).
    cbn [fst snd]. split; [|done].
    destruct (bbcid_lookup d1 f fm) as [Hm Hi].
    split; apply Forall_snoc; try done.
    - unfold populate_scan_dict_w_bbcid_iscid_ms2. by repeat apply complete_insert.
    - exists mz, it. by rewrite Hm, Hi. }
  destruct (decide (fr_ScanMode fr = 2)); [|by injection H as <-].
  assert (st' = (ps ++ [populate_scan_dict_w_tsf_ms2 d1 fm false], qs)) as ->
    by (by injection H).
  cbn [fst snd]. split; [|done].
  destruct (tsf_ms2_lookup d1 fm false) as (_ & _ & _ & _ & Hm & Hi & _).
  split; apply Forall_snoc; try done.
  - by apply tsf_ms2_complete.
  - exists mz, it. by rewrite Hm, Hi.
Qed.

(** X23. Every record [parse_lcms_tsf] returns has all the keys the writers
    read and holds an m/z and an intensity array that are not empty and have
    one length; every product record (Auto MS/MS, scan mode 1) is an MS2
    record with a float charge state that names its parent frame. *)
Theorem tsf_records_hold_spectra C tsf_data frame_start frame_stop mode ms2_only
    profile_bins encoding parent_scans product_scans :
  parse_lcms_tsf C tsf_data mode ms2_only profile_bins encoding frame_start frame_stop
    = Ok (parent_scans, product_scans) →
  Forall (λ d, complete d = true ∧ holds_spectrum d) (parent_scans ++ product_scans) ∧
  Forall (λ d, writable_product d ∧ d !! "ms_level" = Some (VInt 2) ∧
               ∃ parent, d !! "parent_frame" = Some (VInt parent)) product_scans.
Proof.
  unfold parse_lcms_tsf. intros H.
  apply (for_each_inv
           (λ st, (Forall (λ d, complete d = true) st.1 ∧ Forall holds_spectrum st.1) ∧
                  (Forall writable_product st.2 ∧ Forall holds_spectrum st.2 ∧
                   Forall (λ d, d !! "ms_level" = Some (VInt 2) ∧
                                ∃ parent, d !! "parent_frame" = Some (VInt parent))
                     st.2))) in H.
  - destruct H as [(Hpc & Hps) (Hqw & Hqs & Hql)]. simpl in *. split.
    + apply Forall_app. split.
      * rewrite Forall_forall in Hpc, Hps. apply Forall_forall. intros d Hd. auto.
      * rewrite Forall_forall in Hqw, Hqs. apply Forall_forall. intros d Hd.
        split; [by apply Hqw|by apply Hqs].
    + rewrite Forall_forall in Hqw, Hql. apply Forall_forall. intros d Hd.
      split; [by apply Hqw|by apply Hql].
  - intros st f st'. apply tsf_frame_records.
  - by repeat split.
Qed.

Lemma tsf_window_parsed data mode ms2_only frame_start frame_stop :
  TsfSamples.parses data mode ms2_only frame_start frame_stop = true →
  TsfSamples.parser data mode ms2_only frame_start frame_stop
    = Ok ((TsfSamples.window data mode ms2_only frame_start frame_stop).1,
          (TsfSamples.window data mode ms2_only frame_start frame_stop).2).
Proof.
  unfold TsfSamples.parses, TsfSamples.window.
  destruct (TsfSamples.parser _ _ _ _ _) as [[ps qs]|e]; [done|discriminate].
Qed.

Lemma tsf_records_hold_spectra_witness :
  let records := TsfSamples.window TsfSamples.auto_msms "centroid" false 1 4 in
  length records.1 = 2%nat ∧ length records.2 = 1%nat ∧
  Forall (λ d, complete d = true ∧ holds_spectrum d) (records.1 ++ records.2) ∧
  Forall (λ d, writable_product d ∧ d !! "ms_level" = Some (VInt 2) ∧
               ∃ parent, d !! "parent_frame" = Some (VInt parent)) records.2.
Proof.
  intros records. split; [vm_compute; reflexivity|]. split; [vm_compute; reflexivity|].
  apply (tsf_records_hold_spectra Samples.categories TsfSamples.auto_msms 1 4
           "centroid" false 0 64).
  assert (TsfSamples.parses TsfSamples.auto_msms "centroid" false 1 4 = true) as H
    by (vm_compute; reflexivity).
  apply tsf_window_parsed in H. unfold TsfSamples.parser in H. exact H.
Defined.

(** ** Imaging runs *)

Lemma for_each_imz_app {A} (body : A → ImzSink ()) l1 l2 w :
  for_each_imz body (l1 ++ l2) w
  = (for_each_imz body l1 ≫= λ _, for_each_imz body l2) w.
Proof.
  revert w. induction l1 as [|x l1 IH]; intros w; [done|].
  simpl. unfold mbind, imz_bind in *.
  destruct (body x w) as [[[]|e] w']; [apply IH|done].
Qed.

Section ims_walk.
Context (C : MsMsTypeCategory) (data : MaldiData).
Context (mode : string) (exclude_mobility : bool) (bins enc : Z).
Context (frame_ids : list Z) (frames_shape_0 chunk_size : nat).
Context (jl : Z) (Hlast : last frame_ids = Some jl) (Hsize : (1 ≤ chunk_size)%nat).

Lemma write_ims_chunk_list_app l1 l2 w :
  write_ims_chunk_list C data mode exclude_mobility bins enc (l1 ++ l2) w
  = (write_ims_chunk_list C data mode exclude_mobility bins enc l1
     ≫= λ _, write_ims_chunk_list C data mode exclude_mobility bins enc l2) w.
Proof. apply for_each_imz_app. Qed.

Lemma write_ims_chunks_walk fuel : ∀ chunk j w,
  (chunk + 1 ≤ length frame_ids)%nat → (length frame_ids + 1 ≤ chunk + fuel)%nat →
  (chunk + 2 ≤ length frame_ids)%nat ∨ j = Some jl →
  write_ims_chunks C data mode exclude_mobility bins enc frame_ids frames_shape_0
    chunk_size fuel chunk j w
  = (write_ims_chunk_list C data mode exclude_mobility bins enc
       (drop chunk (consecutive frame_ids) ++ [(jl, Z.of_nat frames_shape_0 + 1)])
     ≫= λ _, mret (Some ())) w.
Proof.
  induction fuel as [|fuel IH]; intros chunk j w Hchunk Hfuel Hj; [lia|].
  cbn [write_ims_chunks]. destruct (decide _) as [Hcond|Hcond].
  - rewrite chunk_pairs.
    set (chunk_list := take chunk_size (drop chunk (consecutive frame_ids))).
    assert (length chunk_list = chunk_size) as Hlen.
    { unfold chunk_list. rewrite length_take, length_drop, consecutive_length. lia. }
    assert (∃ p, first chunk_list = Ok p) as [p Hp].
    { destruct chunk_list; [simpl in Hlen; lia|by eexists]. }
    rewrite <- (take_drop chunk_size (drop chunk (consecutive frame_ids))) at 1.
    fold chunk_list. rewrite drop_drop, <- (assoc_L (++)).
    unfold mbind at 1, imz_bind at 1, imz_lift at 1. rewrite Hp.
    unfold mbind at 2, imz_bind at 2. rewrite write_ims_chunk_list_app.
    unfold mbind, imz_bind.
    destruct (write_ims_chunk_list _ _ _ _ _ _ chunk_list w) as [[[]|e] w']; [|done].
    rewrite IH; [done|lia|lia|].
    destruct (decide (chunk + chunk_size + 2 ≤ length frame_ids)%nat); [by left|right].
    destruct (last_consecutive frame_ids chunk jl Hlast) as [i Hi]; [lia|].
    apply (loop_variable_last _ _ i). unfold chunk_list.
    rewrite take_ge; [done|]. rewrite length_drop, consecutive_length. lia.
  - rewrite rest_pairs.
    assert (loop_variable (drop chunk (consecutive frame_ids)) j = Some jl) as ->; [|done].
    destruct (decide (chunk + 2 ≤ length frame_ids)%nat) as [Hc|Hc].
    + destruct (last_consecutive frame_ids chunk jl Hlast Hc) as [i Hi].
      by apply (loop_variable_last _ _ i).
    + destruct Hj as [?| ->]; [lia|]. rewrite drop_ge; [done|].
      rewrite consecutive_length. lia.
Qed.

Lemma write_ims_chunks_windows :
  (2 ≤ length frame_ids)%nat →
  write_ims_chunks C data mode exclude_mobility bins enc frame_ids frames_shape_0
    chunk_size (S (length frame_ids)) 0 None []
  = (write_ims_chunk_list C data mode exclude_mobility bins enc
       (run_windows frame_ids frames_shape_0) ≫= λ _, mret (Some ())) [].
Proof.
  intros Hlen. rewrite write_ims_chunks_walk; [|lia|lia|by left].
  unfold run_windows. by rewrite Hlast.
Qed.
End ims_walk.

Lemma write_ims_chunks_short C data mode exclude_mobility bins enc frame_ids
    frames_shape_0 chunk_size :
  (length frame_ids < 2)%nat → (1 ≤ chunk_size)%nat →
  write_ims_chunks C data mode exclude_mobility bins enc frame_ids frames_shape_0
    chunk_size (S (length frame_ids)) 0 None [] = (Raise UnboundLocalError, []).
Proof.
  intros Hlen Hsize. cbn [write_ims_chunks]. rewrite decide_False by lia.
  rewrite rest_pairs, drop_ge by (rewrite consecutive_length; lia). done.
Qed.

(** A loop that only appends to its accumulator. *)
Lemma for_each_acc {A St} (body : list St → A → result (list St)) :
  (∀ acc x, body acc x = body [] x ≫= λ r, Ok (acc ++ r)) →
  ∀ l acc, for_each body l acc = for_each body l [] ≫= λ r, Ok (acc ++ r).
Proof.
  intros Hbody. induction l as [|x l IH]; intros acc.
  - simpl. by rewrite app_nil_r.
  - cbn [for_each]. rewrite (Hbody acc x).
    destruct (body [] x) as [r|e]; [|done]. cbn [mbind result_bind].
    rewrite (IH (acc ++ r)), (IH r).
    destruct (for_each body l []) as [r'|e]; [|done]. cbn [mbind result_bind].
    by rewrite (assoc_L (++)).
Qed.

Lemma for_each_split {St} (body : list St → Z → result (list St)) a b c :
  (∀ acc x, body acc x = body [] x ≫= λ r, Ok (acc ++ r)) →
  a ≤ b ≤ c →
  for_each body (seqZ a (c - a)) []
  = for_each body (seqZ a (b - a)) [] ≫= λ r1,
    for_each body (seqZ b (c - b)) [] ≫= λ r2, Ok (r1 ++ r2).
Proof.
  intros Hbody Habc. replace (c - a) with ((b - a) + (c - b)) by lia.
  rewrite seqZ_app by lia. replace (a + (b - a)) with b by lia.
  rewrite for_each_app.
  destruct (for_each body (seqZ a (b - a)) []) as [r1|e]; [|done].
  cbn [mbind result_bind]. apply for_each_acc, Hbody.
Qed.

(** The bodies of the two MALDI loops only append to the list of records. *)

Ltac acc_done := cbn [mbind result_bind]; rewrite ?app_nil_r; reflexivity.

Lemma maldi_tsf_frame_acc C tsf mode ms2_only bins enc info acc f :
  parse_maldi_tsf_frame C tsf mode ms2_only bins enc info acc f
  = parse_maldi_tsf_frame C tsf mode ms2_only bins enc info [] f ≫= λ r, Ok (acc ++ r).
Proof.
  unfold parse_maldi_tsf_frame.
  destruct (first (rows_where fr_Id f (tsf_Frames tsf))) as [fr|]; [|acc_done].
  cbn [mbind result_bind].
  destruct (first (rows_where mf_Frame f (MaldiFrameInfo info))) as [row|]; [|acc_done].
  cbn [mbind result_bind].
  destruct (populate_scan_dict_w_maldi_metadata _ _ _ _ _ _) as [d0|]; [|acc_done].
  cbn [mbind result_bind].
  destruct (extract_tsf_spectrum _ _ _ _ _) as [[mz it]|]; [|acc_done].
  cbn [mbind result_bind].
  destruct (scan_usable (mz, it)); [|acc_done].
  destruct (populate_scan_dict_w_spectrum_data _ _ _) as [d1|]; [|acc_done].
  cbn [mbind result_bind].
  destruct (_ && negb ms2_only); [acc_done|].
  destruct (bool_decide _); [|acc_done].
  destruct (first _) as [fm|]; [|acc_done]. acc_done.
Qed.

Lemma maldi_tdf_frame_acc C tdf info mode ms2_only excl bins enc acc f :
  parse_maldi_tdf_frame C tdf info mode ms2_only excl bins enc acc f
  = parse_maldi_tdf_frame C tdf info mode ms2_only excl bins enc [] f
    ≫= λ r, Ok (acc ++ r).
Proof.
  unfold parse_maldi_tdf_frame.
  destruct (first (rows_where fr_Id f (Frames tdf))) as [fr|]; [|acc_done].
  cbn [mbind result_bind].
  destruct (first (rows_where mf_Frame f (MaldiFrameInfo info))) as [row|]; [|acc_done].
  cbn [mbind result_bind].
  destruct (populate_scan_dict_w_maldi_metadata _ _ _ _ _ _) as [d0|]; [|acc_done].
  cbn [mbind result_bind].
  destruct (_ && negb ms2_only).
  { destruct (extract_frame_arrays _ _ _ _ _ _ _ _) as [[[mz it] mob]|]; [|acc_done].
    cbn [mbind result_bind].
    destruct (arrays_usable mz it) as [[]|]; [| |acc_done]; cbn [mbind result_bind].
    - destruct (store_arrays _ _ _ _ _); acc_done.
    - acc_done. }
  destruct (bool_decide _); [|acc_done].
  destruct (first _) as [fm|]; [|acc_done]. cbn [mbind result_bind].
  destruct (extract_frame_arrays _ _ _ _ _ _ _ _) as [[[mz it] mob]|]; [|acc_done].
  cbn [mbind result_bind].
  destruct (arrays_usable mz it) as [[]|]; [| |acc_done]; cbn [mbind result_bind].
  - destruct (store_arrays _ _ _ _ _); acc_done.
  - acc_done.
Qed.

(** A window parsed in one pass gives the records of its two parts. *)
Lemma ims_window_split C data mode excl bins enc a b c :
  a ≤ b ≤ c →
  ims_window_records C data mode excl bins enc a c
  = ims_window_records C data mode excl bins enc a b ≫= λ r1,
    ims_window_records C data mode excl bins enc b c ≫= λ r2, Ok (r1 ++ r2).
Proof.
  intros Habc. destruct data as [tsf info|tdf info|]; [| |done].
  - unfold ims_window_records, parse_maldi_tsf.
    apply for_each_split; [|done]. intros acc x. apply maldi_tsf_frame_acc.
  - unfold ims_window_records, parse_maldi_tdf.
    destruct (get_centroid_status mode (Some excl)) as [[c0 e0]|]; [|done].
    cbn [mbind result_bind].
    apply for_each_split; [|done]. intros acc x. apply maldi_tdf_frame_acc.
Qed.

Lemma ims_chunk_records C data mode excl bins enc a b w :
  write_maldi_ims_chunk_to_imzml C data mode excl bins enc a b w
  = (imz_lift (ims_window_records C data mode excl bins enc a b)
     ≫= for_each_imz (add_scan (ims_mobility data mode excl))) w.
Proof.
  destruct data as [tsf info|tdf info|]; [done| |done].
  unfold write_maldi_ims_chunk_to_imzml, ims_window_records, ims_mobility.
  unfold mbind, imz_bind, imz_lift.
  destruct (parse_maldi_tdf _ _ _ _ _ _ _ _ _ _) as [rs|e]; [|done].
  by destruct (negb _).
Qed.

Lemma last_cons_default {A} (x : A) l : last (x :: l) = Some (default x (last l)).
Proof. rewrite last_cons. by destruct (last l). Qed.

Lemma sorted_le_last x l : StronglySorted Z.le (x :: l) → x ≤ default x (last l).
Proof.
  intros Hs. apply StronglySorted_inv in Hs as [_ Hall].
  destruct (last l) as [y|] eqn:Hy; simpl; [|lia].
  rewrite Forall_forall in Hall. apply Hall.
  rewrite last_lookup in Hy. by eapply list_elem_of_lookup_2.
Qed.

(** The windows between sorted frame ids, written one after the other, add
    the spectra of the whole range parsed in one pass. *)
Lemma ims_one_pass C data mode excl bins enc n ids : ∀ f1 rs w,
  StronglySorted Z.le (f1 :: ids) → default f1 (last ids) ≤ n →
  ims_window_records C data mode excl bins enc f1 n = Ok rs →
  write_ims_chunk_list C data mode excl bins enc
    (consecutive (f1 :: ids) ++ [(default f1 (last ids), n)]) w
  = for_each_imz (add_scan (ims_mobility data mode excl)) rs w.
Proof.
  induction ids as [|f2 ids IH]; intros f1 rs w Hs Hn Hrs.
  - unfold write_ims_chunk_list. cbn [consecutive drop zip zip_with app last default
      for_each_imz]. unfold mbind at 1, imz_bind at 1.
    rewrite ims_chunk_records. unfold mbind, imz_bind, imz_lift. rewrite Hrs.
    by destruct (for_each_imz _ rs w) as [[[]|e] w'].
  - change (consecutive (f1 :: f2 :: ids)) with ((f1, f2) :: consecutive (f2 :: ids)).
    assert (default f1 (last (f2 :: ids)) = default f2 (last ids)) as Hl
      by (by rewrite last_cons_default).
    rewrite Hl in *.
    pose proof (StronglySorted_inv Hs) as [Hs2 Hall].
    apply Forall_cons in Hall as [H12 _].
    pose proof (sorted_le_last _ _ Hs2) as H2l.
    rewrite (ims_window_split C data mode excl bins enc f1 f2 n) in Hrs by lia.
    apply bind_Ok in Hrs as (r1 & Hr1 & Hrs). apply bind_Ok in Hrs as (r2 & Hr2 & Hrs).
    injection Hrs as <-.
    rewrite for_each_imz_app.
    unfold write_ims_chunk_list at 1. cbn [app for_each_imz].
    unfold mbind at 1, imz_bind at 1.
    rewrite ims_chunk_records. unfold mbind, imz_bind, imz_lift. rewrite Hr1.
    destruct (for_each_imz _ r1 w) as [[[]|e] w']; [|done].
    by apply (IH f2 r2 w').
Qed.

Lemma add_scan_written m d w :
  complete d = true → ∃ call, add_scan m d w = (Ok (), w ++ [call]) ∧ added m d call.
Proof.
  intros Hd.
  destruct (complete_key d "mz_array" Hd) as [mz Hmz]; [simpl; tauto|].
  destruct (complete_key d "intensity_array" Hd) as [it Hit]; [simpl; tauto|].
  destruct (complete_key d "coord" Hd) as [co Hco]; [simpl; tauto|].
  destruct (complete_key d "mobility_array" Hd) as [mo Hmo]; [simpl; tauto|].
  unfold add_scan, add_spectrum_args, getitem, added. rewrite Hmz, Hit, Hco.
  destruct m; [rewrite Hmo|]; eexists; (split; [reflexivity|]); done.
Qed.

Lemma add_scans_written m rs : ∀ w,
  Forall (λ d, complete d = true) rs →
  ∃ calls, for_each_imz (add_scan m) rs w = (Ok (), w ++ calls) ∧
           Forall2 (added m) rs calls.
Proof.
  induction rs as [|d rs IH]; intros w Hall.
  - exists []. split; [by rewrite app_nil_r|constructor].
  - apply Forall_cons in Hall as [Hd Hall].
    destruct (add_scan_written m d w Hd) as (call & Hcall & Hadd).
    destruct (IH (w ++ [call]) Hall) as (calls & Hcalls & Hadds).
    exists (call :: calls). split; [|by constructor].
    cbn [for_each_imz]. unfold mbind, imz_bind. rewrite Hcall, Hcalls.
    by rewrite <- (assoc_L (++)).
Qed.

Lemma ims_window_maldi_records C data mode excl bins enc a b rs :
  ims_window_records C data mode excl bins enc a b = Ok rs →
  maldi_records false a b rs.
Proof.
  destruct data as [tsf info|tdf info|]; simpl; intros H.
  - eapply maldi_records_window; [|exact H]. apply maldi_tsf_frame_record.
  - unfold parse_maldi_tdf in H. apply bind_Ok in H as ([c e] & _ & H).
    eapply maldi_records_window; [|exact H]. apply maldi_tdf_frame_record.
  - injection H as <-. exists []. repeat constructor.
Qed.

Lemma imzml_writer_mobility data mode excl0 imzml_mode enc compression writer excl :
  imzml_writer data mode excl0 imzml_mode enc compression = Ok (writer, excl) →
  iw_include_mobility writer = ims_mobility data mode excl.
Proof.
  unfold imzml_writer, ims_mobility. destruct data as [tsf info|tdf info|]; [| |done].
  all: intros H; apply bind_Ok in H as (c & _ & H); apply bind_Ok in H as (t & _ & H);
    apply bind_Ok in H as (o & _ & H); injection H as <- <-.
  - done.
  - simpl. by destruct (decide (mode = "profile")).
Qed.

Lemma imzml_writer_raises data mode excl0 imzml_mode enc compression e :
  imzml_writer data mode excl0 imzml_mode enc compression = Raise e →
  e = UnboundLocalError.
Proof.
  unfold imzml_writer, assigned, encoding_dtype.
  destruct data as [tsf info|tdf info|]; [| |congruence].
  all: repeat case_decide; destruct (get_encoding_dtype enc); simpl; congruence.
Qed.

Lemma seqZ_sorted n : ∀ a, StronglySorted Z.le (seqZ a (Z.of_nat n)).
Proof.
  induction n as [|n IH]; intros a; [constructor|].
  rewrite seqZ_cons by lia. replace (Z.pred (Z.of_nat (S n))) with (Z.of_nat n) by lia.
  constructor; [apply IH|]. apply Forall_forall. intros x Hx.
  apply elem_of_seqZ in Hx. lia.
Qed.

(** X24. An imaging run over a file whose frames are numbered 1, 2, ..., n
    with n at least two, written with supported settings and any chunk size
    of at least one: when parsing all frames in one pass returns normally,
    the writer receives one [addSpectrum] call per record of that pass, in
    frame order, each with the record's arrays and pixel, and with its
    mobility array exactly when the writer was built to include mobilities.
    No frame is parsed twice or left out at a chunk boundary; the records
    are those of at most one spectrum per frame. *)
Theorem imzml_run_one_pass C data mode exclude_mobility0 bins imzml_mode enc compression
    chunk_size writer exclude_mobility records :
  (1 ≤ chunk_size)%nat → (2 ≤ length (maldi_frames data))%nat →
  fr_Id <$> maldi_frames data = seqZ 1 (Z.of_nat (length (maldi_frames data))) →
  imzml_writer data mode exclude_mobility0 imzml_mode enc compression
    = Ok (writer, exclude_mobility) →
  ims_window_records C data mode exclude_mobility bins enc 1
    (Z.of_nat (length (maldi_frames data)) + 1) = Ok records →
  ∃ calls,
    write_maldi_ims_imzml C data mode exclude_mobility0 bins imzml_mode enc compression
      chunk_size = Some (Ok writer, calls) ∧
    Forall2 (added (iw_include_mobility writer)) records calls ∧
    maldi_records false 1 (Z.of_nat (length (maldi_frames data)) + 1) records.
Proof.
  intros Hsize Hlen Hids Hw Hrs.
  pose proof (ims_window_maldi_records _ _ _ _ _ _ _ _ _ Hrs) as Hrec.
  assert (Forall (λ d, complete d = true) records) as Hcomplete.
  { destruct Hrec as (fs & _ & _ & Hr). clear -Hr.
    induction Hr as [|f d fs ds Hd _ IH]; constructor; [apply Hd|done]. }
  rewrite (imzml_writer_mobility _ _ _ _ _ _ _ _ Hw).
  destruct (add_scans_written (ims_mobility data mode exclude_mobility) records []
              Hcomplete) as (calls & Hcalls & Hadded).
  exists calls. split; [|done].
  unfold write_maldi_ims_imzml. rewrite Hw.
  set (n := length (maldi_frames data)) in *.
  assert (length (fr_Id <$> maldi_frames data) = n) as Hn by apply length_fmap.
  destruct (last_is_Some (fr_Id <$> maldi_frames data)) as [jl Hlast]; [lia|].
  rewrite (write_ims_chunks_windows C data mode exclude_mobility bins enc _ n chunk_size
             jl Hlast Hsize) by lia.
  unfold run_windows. rewrite Hlast.
  destruct n as [|k]; [lia|]. rewrite Hids in *.
  rewrite seqZ_cons in * by lia.
  set (ids := seqZ (Z.succ 1) (Z.pred (Z.of_nat (S k)))) in *.
  rewrite last_cons_default in Hlast. injection Hlast as <-.
  unfold mbind, imz_bind.
  rewrite (ims_one_pass C data mode exclude_mobility bins enc _ ids 1 records []).
  - by rewrite Hcalls.
  - replace (1 :: ids) with (seqZ 1 (Z.of_nat (S k))); [apply seqZ_sorted|].
    by rewrite seqZ_cons by lia.
  - destruct (last ids) as [y|] eqn:Hy; simpl; [|lia].
    rewrite last_lookup in Hy. apply list_elem_of_lookup_2 in Hy.
    apply elem_of_seqZ in Hy. lia.
  - exact Hrs.
Qed.

(** X25. An imaging run over fewer than two frames adds no spectrum and ends
    with [UnboundLocalError], whatever the settings: either the writer cannot
    be built, or the closing window reads the loop variable [j], which no
    iteration has assigned. *)
Theorem imzml_too_few_frames_raises C data mode exclude_mobility bins imzml_mode enc
    compression chunk_size :
  (length (maldi_frames data) < 2)%nat → (1 ≤ chunk_size)%nat →
  write_maldi_ims_imzml C data mode exclude_mobility bins imzml_mode enc compression
    chunk_size = Some (Raise UnboundLocalError, []).
Proof.
  intros Hlen Hsize. unfold write_maldi_ims_imzml.
  destruct (imzml_writer _ _ _ _ _ _) as [[writer excl]|e] eqn:Hw.
  - rewrite write_ims_chunks_short; [done| |done]. by rewrite length_fmap.
  - by rewrite (imzml_writer_raises _ _ _ _ _ _ _ Hw).
Qed.

(** ** Mobility arrays of an imaging run *)

Lemma tsf_ms2_keeps_mobility d fm lcms :
  populate_scan_dict_w_tsf_ms2 d fm lcms !! "mobility_array" = d !! "mobility_array".
Proof.
  unfold populate_scan_dict_w_tsf_ms2. destruct lcms; by rewrite !lookup_insert_ne by done.
Qed.

(** The three arrays [extract_3d_tdf_spectrum] returns are the columns of one
    array. *)
Lemma extract_3d_columns tdf f b e mz it mob :
  extract_3d_tdf_spectrum tdf f b e = Ok (mz, it, mob) →
  mz = None ∨ ∃ rows, mz = Some (column 0 rows) ∧ mob = Some (column 2 rows).
Proof.
  unfold extract_3d_tdf_spectrum. intros H.
  destruct (decide (b ≠ 0%nat)).
  all: apply bind_Ok in H as ([[mzs ints] mobs] & _ & H).
  all: destruct (nonempty mzs && nonempty ints && nonempty mobs);
    [|injection H as <- <- <-; by left].
  all: apply bind_Ok in H as (rows & _ & H); injection H as <- <- <-; right; eauto.
Qed.

Lemma store_arrays_mobility d excl mz it mo d' :
  truthy excl = false → mo ≠ [] →
  store_arrays d excl mz it (Some mo) = Ok d' →
  d' !! "mobility_array" = Some (VArr mo).
Proof.
  unfold store_arrays, mobility_usable. intros He Hne H.
  apply bind_Ok in H as (d1 & _ & H). rewrite He in H.
  cbn [mbind result_bind size] in H.
  rewrite decide_False in H by (by destruct mo).
  cbn [mbind result_bind size] in H.
  rewrite bool_decide_eq_true_2 in H by eauto.
  injection H as <-. by rewrite lookup_insert_eq.
Qed.

Lemma maldi_tdf_frame_mobilities C tdf info mode ms2_only excl bins enc l f l' :
  truthy excl = false → Forall holds_mobilities l →
  parse_maldi_tdf_frame C tdf info mode ms2_only excl bins enc l f = Ok l' →
  Forall holds_mobilities l'.
Proof.
  unfold parse_maldi_tdf_frame. intros He Hl H.
  apply bind_Ok in H as (fr & _ & H). apply bind_Ok in H as (row & _ & H).
  apply bind_Ok in H as (d0 & _ & H).
  assert (∀ d mz it mob d1,
            extract_frame_arrays tdf mode f 0 (fr_NumScans fr) excl bins enc
              = Ok (mz, it, mob) →
            arrays_usable mz it = Ok true →
            store_arrays d excl mz it mob = Ok d1 →
            ∃ m mo, d1 !! "mz_array" = Some (VArr m) ∧
                    d1 !! "mobility_array" = Some (VArr mo) ∧ length mo = length m)
    as Hstore.
  { intros d mz it mob d1 Hx Hu Hd1. unfold extract_frame_arrays in Hx.
    rewrite He in Hx. cbn [negb] in Hx.
    apply arrays_usable_true in Hu as (m & i & -> & -> & Hne & Hlen).
    apply extract_3d_columns in Hx as [|(rows & [= ->] & ->)]; [done|].
    assert (column 2 rows ≠ []) as Hmo.
    { unfold column in *. destruct rows; [done|discriminate]. }
    exists (column 0 rows), (column 2 rows).
    split; [by apply store_arrays_arrays in Hd1 as [-> _]|].
    split; [by apply (store_arrays_mobility _ _ _ _ _ _ He Hmo Hd1)|].
    unfold column. by rewrite !length_fmap. }
  destruct (_ && negb ms2_only).
  { apply bind_Ok in H as ([[mz it] mob] & Hx & H).
    apply bind_Ok in H as (usable & Hu & H).
    destruct usable; [|by injection H as <-].
    apply bind_Ok in H as (d1 & Hd1 & H). injection H as <-.
    apply Forall_snoc; [done|].
    destruct (Hstore _ _ _ _ _ Hx Hu Hd1) as (m & mo & Hm & Hmo & Hlen).
    by exists m, mo. }
  destruct (bool_decide _); [|by injection H as <-].
  apply bind_Ok in H as (fm & _ & H).
  apply bind_Ok in H as ([[mz it] mob] & Hx & H).
  apply bind_Ok in H as (usable & Hu & H).
  destruct usable; [|by injection H as <-].
  apply bind_Ok in H as (d1 & Hd1 & H).
  assert (l' = l ++ [populate_scan_dict_w_tsf_ms2 d1 fm false]) as ->
    by (by injection H).
  apply Forall_snoc; [done|].
  destruct (Hstore _ _ _ _ _ Hx Hu Hd1) as (m & mo & Hm & Hmo & Hlen).
  destruct (tsf_ms2_lookup d1 fm false) as (_ & _ & _ & _ & Hmz & _ & _).
  exists m, mo. by rewrite Hmz, tsf_ms2_keeps_mobility.
Qed.

(** X26. Parsed without [exclude_mobility] and in a mode other than
    ['profile'], every record [parse_maldi_tdf] returns carries a mobility
    array with one value for each m/z value, so that an imzML writer built to
    include mobilities receives them with every spectrum. *)
Theorem maldi_tdf_records_hold_mobilities C tdf_data maldi frame_start frame_stop mode
    ms2_only exclude_mobility profile_bins encoding records :
  mode ≠ "profile" → exclude_mobility ≠ Some true →
  parse_maldi_tdf C tdf_data maldi frame_start frame_stop mode ms2_only exclude_mobility
    profile_bins encoding = Ok records →
  Forall holds_mobilities records.
Proof.
  intros Hmode Hex H. unfold parse_maldi_tdf, get_centroid_status in H.
  rewrite decide_False in H by done.
  destruct (decide (mode = "centroid" ∨ mode = "raw")); [|done].
  cbn [mbind result_bind] in H.
  assert (truthy exclude_mobility = false) as He
    by (by destruct exclude_mobility as [[]|]).
  revert H. apply for_each_inv; [|constructor].
  intros l f l' Hl. by apply maldi_tdf_frame_mobilities.
Qed.

Lemma ims_parsed data mode exclude_mobility frame_start frame_stop :
  ImsSamples.parses data mode exclude_mobility frame_start frame_stop = true →
  ims_window_records Samples.categories data mode exclude_mobility 0 64
    frame_start frame_stop
  = Ok (ImsSamples.records data mode exclude_mobility frame_start frame_stop).
Proof.
  unfold ImsSamples.parses, ImsSamples.records.
  by destruct (ims_window_records _ _ _ _ _ _ _ _).
Qed.

Lemma imzml_run_one_pass_witness :
  let data := ImsSamples.tsf_image in
  let writer := {| iw_polarity := Some "positive"; iw_mode := "processed";
                   iw_spec_type := true; iw_dtype := 64;
                   iw_compression := ZlibCompression; iw_include_mobility := false |} in
  let records :=
    ImsSamples.records data "centroid" false 1
      (Z.of_nat (length (maldi_frames data)) + 1) in
  length records = 2%nat ∧
  ∃ calls,
    write_maldi_ims_imzml Samples.categories data "centroid" false 0 "processed" 64
      "zlib" 2 = Some (Ok writer, calls) ∧
    Forall2 (added (iw_include_mobility writer)) records calls ∧
    maldi_records false 1 (Z.of_nat (length (maldi_frames data)) + 1) records.
Proof.
  intros data writer records. split; [vm_compute; reflexivity|].
  apply (imzml_run_one_pass Samples.categories data "centroid" false 0 "processed" 64
           "zlib" 2 writer false records).
  - lia.
  - simpl. lia.
  - reflexivity.
  - reflexivity.
  - subst records. apply ims_parsed. vm_compute. reflexivity.
Defined.

Lemma imzml_too_few_frames_raises_witness :
  ImsSamples.run ImsSamples.one_pixel "centroid" false 1
  = Some (Raise UnboundLocalError, []).
Proof.
  unfold ImsSamples.run. apply imzml_too_few_frames_raises; simpl; lia.
Defined.

Lemma maldi_tdf_records_hold_mobilities_witness :
  let records := ImsSamples.records ImsSamples.tdf_image "centroid" false 1 2 in
  length records = 1%nat ∧ Forall holds_mobilities records.
Proof.
  intros records. split; [vm_compute; reflexivity|].
  apply (maldi_tdf_records_hold_mobilities Samples.categories Samples.two_mobilities
           ImsSamples.pixels 1 2 "centroid" false (Some false) 0 64); [done|done|].
  assert (ImsSamples.parses ImsSamples.tdf_image "centroid" false 1 2 = true) as H
    by (vm_compute; reflexivity).
  apply ims_parsed in H. unfold ImsSamples.tdf_image, ims_window_records in H. exact H.
Defined.

(** ** Windows of TSF data *)

Lemma parse_lcms_tsf_writable C tsf a b mode ms2_only bins enc ps qs :
  parse_lcms_tsf C tsf mode ms2_only bins enc a b = Ok (ps, qs) →
  Forall (λ d, complete d = true) ps ∧ Forall writable_product qs.
Proof.
  unfold parse_lcms_tsf. intros H.
  apply (for_each_inv
           (λ st, (Forall (λ d, complete d = true) st.1 ∧ Forall holds_spectrum st.1) ∧
                  (Forall writable_product st.2 ∧ Forall holds_spectrum st.2 ∧
                   Forall (λ d, d !! "ms_level" = Some (VInt 2) ∧
                                ∃ parent, d !! "parent_frame" = Some (VInt parent))
                     st.2))) in H.
  - by destruct H as [(Hpc & _) (Hqw & _)].
  - intros st f st'. apply tsf_frame_records.
  - by repeat split.
Qed.


